(** * Sequencer dashboard: the realtime synchronisation layer

    A shallow embedding of [SequencerRealtime] (src/src/index.js, the
    component that follows the ReactDOM bootstrap): the timestamp
    extractor and sorter, the lane fetches, the mount effect with its
    socket handlers and polling timer, the filter and paging helpers,
    the toolbar handlers and the CSV export. *)

From stdpp Require Import gmap strings list fin_maps.
From Stdlib Require Import ZArith Lia Strings.Ascii Sorting.Sorted Sorting.Permutation.

#[local] Set Warnings "-register-all".
#[local] Open Scope Z_scope.
#[local] Open Scope string_scope.

(** ** JavaScript values *)

(** Numbers as far as the component observes them.  Timestamps are
    integral millisecond counts and ids are integral, so the finite
    doubles are the integers; the component never does arithmetic on them
    except one subtraction whose sign alone is read (by [sort]), and on
    doubles the sign of [b - a] is the sign of the exact difference.  The
    two infinities and NaN are kept because [Number.isFinite] and
    [Number.isNaN] test for them. *)
Inductive num := Fin (z : Z) | PInf | NInf | NaN.

(** What [JSON.parse] can deliver, together with [undefined] (the result
    of reading a missing property).  Objects are finite maps from
    property names. *)
Inductive value :=
| VUndef
| VNull
| VBool (b : bool)
| VNum (n : num)
| VStr (s : string)
| VObj (fields : gmap string value)
| VArr (items : list value).

(** The library functions whose result depends on the engine, the locale
    or on floating-point printing.  Every definition below takes them as
    given. *)
Record Host := {
  Date_parse : string -> num;          (* Date.parse: milliseconds or NaN *)
  StringToNumber : string -> num;      (* Number(s) on a string *)
  NumberToString : num -> string;      (* String(n) on a number *)
  toLowerCase : string -> string       (* String.prototype.toLowerCase *)
}.

Module JS.

Definition num_eqb (a b : num) : bool :=
  match a, b with
  | Fin x, Fin y => Z.eqb x y
  | PInf, PInf | NInf, NInf => true
  | _, _ => false
  end.

(** [a - b] on numbers. *)
Definition sub (a b : num) : num :=
  match a, b with
  | NaN, _ | _, NaN => NaN
  | Fin x, Fin y => Fin (x - y)
  | PInf, PInf | NInf, NInf => NaN
  | PInf, _ => PInf
  | NInf, _ => NInf
  | Fin _, PInf => NInf
  | Fin _, NInf => PInf
  end.

(** [a < b] on numbers (false as soon as one side is NaN). *)
Definition ltb (a b : num) : bool :=
  match a, b with
  | NaN, _ | _, NaN => false
  | Fin x, Fin y => Z.ltb x y
  | NInf, NInf | PInf, PInf => false
  | NInf, _ => true
  | _, PInf => true
  | _, _ => false
  end.

Definition isNaN (n : num) : bool :=
  match n with NaN => true | _ => false end.

(** [v === null || v === undefined]. *)
Definition nullish (v : value) : bool :=
  match v with VUndef | VNull => true | _ => false end.

(** ToBoolean: what [if (v)], [!v], [a && b] and [a || b] test. *)
Definition truthy (v : value) : bool :=
  match v with
  | VUndef | VNull => false
  | VBool b => b
  | VNum (Fin z) => negb (Z.eqb z 0)
  | VNum NaN => false
  | VNum _ => true
  | VStr s => negb (String.eqb s "")
  | VObj _ | VArr _ => true
  end.

(** [v.k] on a value that is not null or undefined: a missing property,
    or any of the property names the component reads on a primitive or an
    array, is [undefined]. *)
Definition prop (v : value) (k : string) : value :=
  match v with
  | VObj fields => default VUndef (fields !! k)
  | _ => VUndef
  end.

(** [v?.k]. *)
Definition oprop (v : value) (k : string) : value :=
  if nullish v then VUndef else prop v k.

(** [a ?? b]. *)
Definition nc (a b : value) : value := if nullish a then b else a.

(** [a || b]. *)
Definition or (a b : value) : value := if truthy a then a else b.

(** [Array.prototype.join]. *)
Fixpoint join (sep : string) (parts : list string) : string :=
  match parts with
  | [] => ""
  | [p] => p
  | p :: rest => p +:+ sep +:+ join sep rest
  end.

Section WithHost.
Variable h : Host.

(** ToString: the text [String(v)], a template literal and [Date.parse]
    convert [v] to, when the conversion returns; [throws] below says when
    it does not. *)
Fixpoint ToString (v : value) : string :=
  match v with
  | VUndef => "undefined"
  | VNull => "null"
  | VBool true => "true"
  | VBool false => "false"
  | VNum n => NumberToString h n
  | VStr s => s
  | VObj _ => "[object Object]"
  | VArr items =>
      join "," (map (fun x => match x with
                              | VUndef | VNull => ""
                              | _ => ToString x
                              end) items)
  end.

(** ToNumber: the number [Number(v)] returns, when it returns.  A plain
    object converts through ["[object Object]"], which is no numeric
    literal. *)
Definition ToNumber (v : value) : num :=
  match v with
  | VUndef => NaN
  | VNull => Fin 0
  | VBool b => Fin (if b then 1 else 0)
  | VNum n => n
  | VStr s => StringToNumber h s
  | VObj _ => NaN
  | VArr _ => StringToNumber h (ToString v)
  end.

End WithHost.

(** When converting [v] to a primitive throws a TypeError.  An object is
    converted by calling its [toString] and its [valueOf].  What JSON
    delivers under the name [toString] is no function and hides the
    inherited one, and the inherited [valueOf] gives the object back,
    which is no primitive: an object with a property of its own named
    [toString] cannot be converted.  An array is converted by joining the
    texts of its elements ([null] and [undefined] count as empty), so it
    cannot be converted when one of the others cannot.  [String(v)], a
    template literal, [Date.parse(v)], [Number(v)], [new Date(v)] and
    ['' + v] throw on these values and on no other. *)
Fixpoint throws (v : value) : bool :=
  match v with
  | VObj fields => match fields !! "toString" with Some _ => true | None => false end
  | VArr items => existsb throws items
  | _ => false
  end.

(** [Number.isFinite] and [Number.isNaN] on a value that is [null] or a
    number; neither coerces. *)
Definition Number_isFinite (p : option num) : bool :=
  match p with Some (Fin _) => true | _ => false end.

Definition Number_isNaN (p : option num) : bool :=
  match p with Some NaN => true | _ => false end.

(** [Array.prototype.sort(comparefn)] on the elements of an array.  The
    language fixes the comparison ([SortCompare]: [undefined] elements go
    last without the comparator being asked, a NaN answer counts as +0)
    and requires the sort to be stable; which stable algorithm runs is the
    engine's business.  Insertion from the right is the model: whenever
    the comparator is a consistent one every stable sort gives this very
    result.  For an inconsistent comparator the language leaves the order
    to the engine; the model then keeps elements that compare as equal in
    their input order, as a merge of runs does. *)
Definition SortCompare (comparefn : value -> value -> num) (x y : value) : num :=
  match x, y with
  | VUndef, VUndef => Fin 0
  | VUndef, _ => Fin 1
  | _, VUndef => Fin (-1)
  | _, _ => let v := comparefn x y in if isNaN v then Fin 0 else v
  end.

(** [SortCompare(x, y) > 0]: [y] has to come before [x]. *)
Definition comes_after (comparefn : value -> value -> num) (x y : value) : bool :=
  ltb (Fin 0) (SortCompare comparefn x y).

Fixpoint sort_insert (comparefn : value -> value -> num) (x : value) (sorted : list value)
  : list value :=
  match sorted with
  | [] => [x]
  | y :: rest =>
      if comes_after comparefn x y
      then y :: sort_insert comparefn x rest
      else x :: y :: rest
  end.

Definition Array_sort (comparefn : value -> value -> num) (items : list value) : list value :=
  foldr (sort_insert comparefn) [] items.

(** [Array.prototype.slice(a, b)] for indices within [0 ..]. *)
Definition slice {A} (a b : nat) (items : list A) : list A :=
  take (b - a) (drop a items).

(** [s.includes(sub)]. *)
Fixpoint includes (s sub : string) : bool :=
  String.prefix sub s ||
  match s with
  | EmptyString => false
  | String _ s' => includes s' sub
  end.

End JS.

Notation "r ?. k" := (JS.oprop r k) (at level 8, left associativity, format "r ?. k").
Notation "a ?? b" := (JS.nc a b) (at level 45, left associativity).

(** ** Timestamp extractor and sorter (index.js 42-55) *)

Section Rows.
Variable h : Host.

(** [rowTimestamp(r)], as far as its conversions return
    ([rowTimestamp_completion] below has their exception): [parsed] is
    [null] ([None]) or a number. *)
Definition rowTimestamp (r : value) : num :=
  let t := r?."wagonRaw"?."time" ?? r?."time" ?? r?."finalizedAt"
             ?? r?."createdAt" ?? r?."ts" ?? VNull in
  let parsed : option num :=
    if JS.truthy t
    then Some (match t with
               | VNum n => n                        (* typeof t === 'number' *)
               | _ => Date_parse h (JS.ToString h t)
               end)
    else None in
  if JS.Number_isFinite parsed && negb (JS.Number_isNaN parsed)
  then default NaN parsed
  else if JS.truthy (r?."id") then JS.ToNumber h (JS.prop r "id") else Fin 0.

(** [sortRowsDesc(rows)]: the elements of the array it returns, when no
    call of the comparator throws ([sortRowsDesc_completion] below). *)
Definition sortRowsDesc (rows : value) : list value :=
  match rows with
  | VArr items =>                                   (* Array.isArray(rows) *)
      JS.Array_sort (fun a b => JS.sub (rowTimestamp b) (rowTimestamp a)) items
  | _ => []
  end.

End Rows.

(** ** The caller's array and the copy that is sorted

    [[...rows].sort(...)] allocates a new array object, sorts that one in
    place and returns it.  Array objects live in a store; a row inside an
    array is never written to by the component, so the elements are plain
    values. *)

Module Mem.

Abbreviation loc := positive.
Abbreviation store := (gmap positive (list value)).


(** Store-passing computations that may get stuck on a dangling
    reference (which a JavaScript program cannot build). *)
Definition M (A : Type) : Type := store -> option (A * store).

#[global] Instance ret : MRet M := fun A a st => Some (a, st).





End Mem.

Section RowsInStore.
Variable h : Host.


End RowsInStore.

(** ** Component state (index.js 23-39) *)

Inductive Side := Left | Right.

(** The status texts: ['connecting'], ['ready'], ['socket:connected'],
    ['socket:error'], ['socket:disconnected'], ['polling']. *)
Inductive Status :=
| Connecting | Ready | SocketConnected | SocketError | SocketDisconnected | Polling.

(** The [useState] cells, as one render sees them. *)
Record View := {
  leftRows : list value;
  rightRows : list value;
  leftPending : value;
  rightPending : value;
  buffer : value;
  status : Status;
  query : string;
  showTentativeOnly : bool;
  pageSize : nat;
  pageLeft : nat;
  pageRight : nat;
  detailRow : value
}.

(** The initial values passed to [useState]. *)
Definition initial_view : View :=
  {| leftRows := []; rightRows := []; leftPending := VArr []; rightPending := VArr [];
     buffer := VNull; status := Connecting; query := ""; showTentativeOnly := false;
     pageSize := 25; pageLeft := 0; pageRight := 0; detailRow := VNull |}.

(** The state setters. *)
Definition set_leftRows (x : list value) (v : View) : View :=
  {| leftRows := x; rightRows := rightRows v; leftPending := leftPending v;
     rightPending := rightPending v; buffer := buffer v; status := status v;
     query := query v; showTentativeOnly := showTentativeOnly v;
     pageSize := pageSize v; pageLeft := pageLeft v; pageRight := pageRight v;
     detailRow := detailRow v |}.

Definition set_rightRows (x : list value) (v : View) : View :=
  {| leftRows := leftRows v; rightRows := x; leftPending := leftPending v;
     rightPending := rightPending v; buffer := buffer v; status := status v;
     query := query v; showTentativeOnly := showTentativeOnly v;
     pageSize := pageSize v; pageLeft := pageLeft v; pageRight := pageRight v;
     detailRow := detailRow v |}.

Definition set_leftPending (x : value) (v : View) : View :=
  {| leftRows := leftRows v; rightRows := rightRows v; leftPending := x;
     rightPending := rightPending v; buffer := buffer v; status := status v;
     query := query v; showTentativeOnly := showTentativeOnly v;
     pageSize := pageSize v; pageLeft := pageLeft v; pageRight := pageRight v;
     detailRow := detailRow v |}.

Definition set_rightPending (x : value) (v : View) : View :=
  {| leftRows := leftRows v; rightRows := rightRows v; leftPending := leftPending v;
     rightPending := x; buffer := buffer v; status := status v; query := query v;
     showTentativeOnly := showTentativeOnly v; pageSize := pageSize v;
     pageLeft := pageLeft v; pageRight := pageRight v; detailRow := detailRow v |}.

Definition set_buffer (x : value) (v : View) : View :=
  {| leftRows := leftRows v; rightRows := rightRows v; leftPending := leftPending v;
     rightPending := rightPending v; buffer := x; status := status v; query := query v;
     showTentativeOnly := showTentativeOnly v; pageSize := pageSize v;
     pageLeft := pageLeft v; pageRight := pageRight v; detailRow := detailRow v |}.

Definition set_status (x : Status) (v : View) : View :=
  {| leftRows := leftRows v; rightRows := rightRows v; leftPending := leftPending v;
     rightPending := rightPending v; buffer := buffer v; status := x; query := query v;
     showTentativeOnly := showTentativeOnly v; pageSize := pageSize v;
     pageLeft := pageLeft v; pageRight := pageRight v; detailRow := detailRow v |}.

Definition set_query (x : string) (v : View) : View :=
  {| leftRows := leftRows v; rightRows := rightRows v; leftPending := leftPending v;
     rightPending := rightPending v; buffer := buffer v; status := status v;
     query := x; showTentativeOnly := showTentativeOnly v; pageSize := pageSize v;
     pageLeft := pageLeft v; pageRight := pageRight v; detailRow := detailRow v |}.

Definition set_showTentativeOnly (x : bool) (v : View) : View :=
  {| leftRows := leftRows v; rightRows := rightRows v; leftPending := leftPending v;
     rightPending := rightPending v; buffer := buffer v; status := status v;
     query := query v; showTentativeOnly := x; pageSize := pageSize v;
     pageLeft := pageLeft v; pageRight := pageRight v; detailRow := detailRow v |}.

Definition set_pageSize (x : nat) (v : View) : View :=
  {| leftRows := leftRows v; rightRows := rightRows v; leftPending := leftPending v;
     rightPending := rightPending v; buffer := buffer v; status := status v;
     query := query v; showTentativeOnly := showTentativeOnly v; pageSize := x;
     pageLeft := pageLeft v; pageRight := pageRight v; detailRow := detailRow v |}.

Definition set_pageLeft (x : nat) (v : View) : View :=
  {| leftRows := leftRows v; rightRows := rightRows v; leftPending := leftPending v;
     rightPending := rightPending v; buffer := buffer v; status := status v;
     query := query v; showTentativeOnly := showTentativeOnly v;
     pageSize := pageSize v; pageLeft := x; pageRight := pageRight v;
     detailRow := detailRow v |}.

Definition set_pageRight (x : nat) (v : View) : View :=
  {| leftRows := leftRows v; rightRows := rightRows v; leftPending := leftPending v;
     rightPending := rightPending v; buffer := buffer v; status := status v;
     query := query v; showTentativeOnly := showTentativeOnly v;
     pageSize := pageSize v; pageLeft := pageLeft v; pageRight := x;
     detailRow := detailRow v |}.

Definition set_detailRow (x : value) (v : View) : View :=
  {| leftRows := leftRows v; rightRows := rightRows v; leftPending := leftPending v;
     rightPending := rightPending v; buffer := buffer v; status := status v;
     query := query v; showTentativeOnly := showTentativeOnly v;
     pageSize := pageSize v; pageLeft := pageLeft v; pageRight := pageRight v;
     detailRow := x |}.

(** ** Console, exceptions and promises *)

Inductive Level := error | warn | info | log.

Record LogEntry := { level : Level; label : string; detail : value }.

(** How a block of statements ends: normally, or by throwing.  For an
    [async] function this is also how its promise settles (fulfilled or
    rejected). *)
Inductive Completion (A : Type) :=
| Normal (a : A)
| Throw (e : value).
Arguments Normal {A} a.
Arguments Throw {A} e.

(** How the promise of [axios.get] settles. *)
Inductive Outcome := Resolved (r : value) | Rejected (err : value).

(** [await promise]. *)
Definition await (o : Outcome) : Completion value :=
  match o with
  | Resolved r => Normal r
  | Rejected err => Throw err
  end.

(** ** Lane fetches (index.js 60-91)

    Each function is what runs once [axios.get] has settled.  [buffer] is
    the binding the function closes over: the [buffer] state of the render
    that created this very [fetchLeft] or [fetchRight].  The two
    definitions of this section are the lane functions on the responses
    whose rows [sortRowsDesc] sorts without an exception;
    [fetchLeft_completion] and [fetchRight_completion] below are the
    functions with that exception and its [catch]. *)

Section Fetch.
Variable h : Host.

(** [r && r.data && r.data.ok]. *)
Definition usable (r : value) : bool :=
  JS.truthy r && JS.truthy (JS.prop r "data")
  && JS.truthy (JS.prop (JS.prop r "data") "ok").

Definition fetchLeft (buffer : value) (o : Outcome) (v : View) (out : list LogEntry)
  : Completion (View * list LogEntry) :=
  match await o with
  | Normal r =>
      if usable r then
        let data := JS.prop r "data" in
        let rows := sortRowsDesc h (JS.or (JS.prop data "rows") (VArr [])) in
        let v := set_leftRows rows v in
        let v := set_leftPending (JS.or (JS.prop data "pendingContainers") (VArr [])) v in
        let v := set_buffer (JS.prop data "buffer" ?? buffer) v in
        Normal (v, out)
      else Normal (v, out)
  | Throw err =>                                                       (* catch (err) *)
      Normal (v, (out ++ [{| level := error; label := "fetchLeft err";
                             detail := JS.or err?."message" err |}])%list)
  end.

Definition fetchRight (buffer : value) (o : Outcome) (v : View) (out : list LogEntry)
  : Completion (View * list LogEntry) :=
  match await o with
  | Normal r =>
      let out := (out ++ [{| level := log; label := ""; detail := r |}])%list in
      if usable r then
        let data := JS.prop r "data" in
        let rows := sortRowsDesc h (JS.or (JS.prop data "rows") (VArr [])) in
        let v := set_rightRows rows v in
        let v := set_rightPending (JS.or (JS.prop data "pendingContainers") (VArr [])) v in
        let v := set_buffer (JS.prop data "buffer" ?? buffer) v in
        Normal (v, out)
      else Normal (v, out)
  | Throw err =>                                                       (* catch (err) *)
      Normal (v, (out ++ [{| level := error; label := "fetchRight err";
                             detail := JS.or err?."message" err |}])%list)
  end.

End Fetch.

(** ** Filtering and paging (index.js 159-171) *)

Section Derive.
Variable h : Host.

(** [filterFn(row)], as far as the template literal returns
    ([filterFn_completion] below has its exception). *)
Definition filterFn (query : string) (showTentativeOnly : bool) (row : value) : bool :=
  if negb (JS.truthy row) then false else
  let text :=
    toLowerCase h
      (JS.ToString h (JS.or (JS.prop row "wagon_no") (VStr "")) +:+ " " +:+
       JS.ToString h (JS.or (JS.prop row "train_no") (VStr "")) +:+ " " +:+
       JS.ToString h (JS.or (JS.prop row "container_no_1") (VStr "")) +:+ " " +:+
       JS.ToString h (JS.or (JS.prop row "container_no_2") (VStr ""))) in
  if JS.truthy (VStr query) && negb (JS.includes text (toLowerCase h query)) then false else
  if showTentativeOnly && JS.truthy (JS.prop row "finalizedAt") then false else
  true.

Definition filteredLeft (v : View) : list value :=
  List.filter (filterFn (query v) (showTentativeOnly v)) (leftRows v).

Definition filteredRight (v : View) : list value :=
  List.filter (filterFn (query v) (showTentativeOnly v)) (rightRows v).

Definition pagedLeft (v : View) : list value :=
  JS.slice (pageLeft v * pageSize v) ((pageLeft v + 1) * pageSize v) (filteredLeft v).

Definition pagedRight (v : View) : list value :=
  JS.slice (pageRight v * pageSize v) ((pageRight v + 1) * pageSize v) (filteredRight v).

(** ** CSV export (index.js 173-192) *)

Definition headers : list string :=
  ["id"; "wagon_no"; "train_no"; "side"; "container_no_1"; "iso_code_1";
   "container_no_2"; "iso_code_2"; "finalizedAt"; "time"].

(** The double-quote character and the line feed. *)
Definition dquote : string := String "034"%char "".
Definition newline : string := String "010"%char "".

(** The global [replace] of [downloadCsv]: every double-quote character
    becomes two. *)
Fixpoint double_quotes (s : string) : string :=
  match s with
  | EmptyString => ""
  | String c s' =>
      if Ascii.eqb c "034"%char
      then String c (String c (double_quotes s'))
      else String c (double_quotes s')
  end.

(** The callback of [headers.map] for the row [r], which is not null or
    undefined, as far as [String(v)] returns ([csv_cell_completion] below
    has its exception). *)
Definition csv_cell (r : value) (hd : string) : string :=
  let v := JS.prop r hd ?? VStr "" in
  let s := match v with
           | VStr s => s                               (* typeof v === 'string' *)
           | _ => if JS.nullish v then "" else JS.ToString h v
           end in
  dquote +:+ double_quotes s +:+ dquote.

(** The body of the [for (const r of rows)] loop, collecting the pushed
    lines: reading [r[h]] throws a TypeError when [r] is null or
    undefined. *)
Fixpoint csv_lines (rows : list value) : Completion (list string) :=
  match rows with
  | [] => Normal []
  | r :: rest =>
      if JS.nullish r then Throw (VStr "TypeError") else
      match csv_lines rest with
      | Normal lines => Normal (JS.join "," (map (csv_cell r) headers) :: lines)
      | Throw e => Throw e
      end
  end.

(** What the click on the temporary anchor downloads. *)
Record Download := { filename : string; content : string }.

(** [downloadCsv(rows, filename)] on an array [rows]: the download it
    triggers, if any. *)
Definition downloadCsv (rows : list value) (name : string) : Completion (option Download) :=
  if (length rows =? 0)%nat then Normal None else
  match csv_lines rows with
  | Normal lines =>
      Normal (Some {| filename := name;
                      content := JS.join newline (JS.join "," headers :: lines) |})
  | Throw e => Throw e
  end.

End Derive.

(** ** The exceptions of the conversions (index.js 42-87, 159-165)

    The same functions with the TypeError a conversion can throw, and
    with what catches it. *)

(** The TypeError object, whatever its message is. *)
Definition TypeError : value := VStr "TypeError".

#[global] Instance Completion_ret : MRet Completion := @Normal.

#[global] Instance Completion_bind : MBind Completion :=
  fun A B k m => match m with
                 | Normal a => k a
                 | Throw e => Throw e
                 end.

Section Exceptions.
Variable h : Host.

(** [String(v)], a template literal, the conversion in [Date.parse(v)];
    [Number(v)]. *)
Definition ToString_completion (v : value) : Completion string :=
  if JS.throws v then Throw TypeError else Normal (JS.ToString h v).

Definition ToNumber_completion (v : value) : Completion num :=
  if JS.throws v then Throw TypeError else Normal (JS.ToNumber h v).

(** [rowTimestamp(r)]. *)
Definition rowTimestamp_completion (r : value) : Completion num :=
  let t := r?."wagonRaw"?."time" ?? r?."time" ?? r?."finalizedAt"
             ?? r?."createdAt" ?? r?."ts" ?? VNull in
  parsed ← (if JS.truthy t
            then match t with
                 | VNum n => Normal (Some n)               (* typeof t === 'number' *)
                 | _ => text ← ToString_completion t; Normal (Some (Date_parse h text))
                 end
            else Normal None);
  if JS.Number_isFinite parsed && negb (JS.Number_isNaN parsed)
  then Normal (default NaN parsed)
  else if JS.truthy (r?."id") then ToNumber_completion (JS.prop r "id") else Normal (Fin 0).

(** [Array.prototype.sort(comparefn)] with a comparator that may throw:
    the exception of a call ends the sort.  The calls are those of the
    insertion of [JS.Array_sort]; every sort calls the comparator on each
    element that is not [undefined] as soon as there are two of them. *)
Definition SortCompare_completion (comparefn : value -> value -> Completion num)
    (x y : value) : Completion num :=
  match x, y with
  | VUndef, VUndef => Normal (Fin 0)
  | VUndef, _ => Normal (Fin 1)
  | _, VUndef => Normal (Fin (-1))
  | _, _ => v ← comparefn x y; Normal (if JS.isNaN v then Fin 0 else v)
  end.

Fixpoint sort_insert_completion (comparefn : value -> value -> Completion num)
    (x : value) (sorted : list value) : Completion (list value) :=
  match sorted with
  | [] => Normal [x]
  | y :: rest =>
      c ← SortCompare_completion comparefn x y;
      if JS.ltb (Fin 0) c
      then rest' ← sort_insert_completion comparefn x rest; Normal (y :: rest')
      else Normal (x :: y :: rest)
  end.

Definition Array_sort_completion (comparefn : value -> value -> Completion num)
    (items : list value) : Completion (list value) :=
  foldr (fun x sorted => l ← sorted; sort_insert_completion comparefn x l) (Normal []) items.

(** The comparator: [(a, b) => rowTimestamp(b) - rowTimestamp(a)]. *)
Definition newest_first_completion (a b : value) : Completion num :=
  tb ← rowTimestamp_completion b; ta ← rowTimestamp_completion a; Normal (JS.sub tb ta).

(** [sortRowsDesc(rows)]. *)
Definition sortRowsDesc_completion (rows : value) : Completion (list value) :=
  match rows with
  | VArr items => Array_sort_completion newest_first_completion items
  | _ => Normal []
  end.

(** [fetchLeft()] and [fetchRight()] once [axios.get] has settled: the
    [try] block, in which [sortRowsDesc] runs before any state is set,
    and the [catch]. *)
Definition fetchLeft_completion (buffer : value) (o : Outcome) (v : View)
    (out : list LogEntry) : Completion (View * list LogEntry) :=
  let caught err :=
    Normal (v, (out ++ [{| level := error; label := "fetchLeft err";
                           detail := JS.or err?."message" err |}])%list) in
  match await o with
  | Normal r =>
      if usable r then
        let data := JS.prop r "data" in
        match sortRowsDesc_completion (JS.or (JS.prop data "rows") (VArr [])) with
        | Normal rows =>
            let v := set_leftRows rows v in
            let v := set_leftPending (JS.or (JS.prop data "pendingContainers") (VArr [])) v in
            let v := set_buffer (JS.prop data "buffer" ?? buffer) v in
            Normal (v, out)
        | Throw err => caught err
        end
      else Normal (v, out)
  | Throw err => caught err
  end.

Definition fetchRight_completion (buffer : value) (o : Outcome) (v : View)
    (out : list LogEntry) : Completion (View * list LogEntry) :=
  let caught out err :=
    Normal (v, (out ++ [{| level := error; label := "fetchRight err";
                           detail := JS.or err?."message" err |}])%list) in
  match await o with
  | Normal r =>
      let out := (out ++ [{| level := log; label := ""; detail := r |}])%list in
      if usable r then
        let data := JS.prop r "data" in
        match sortRowsDesc_completion (JS.or (JS.prop data "rows") (VArr [])) with
        | Normal rows =>
            let v := set_rightRows rows v in
            let v := set_rightPending (JS.or (JS.prop data "pendingContainers") (VArr [])) v in
            let v := set_buffer (JS.prop data "buffer" ?? buffer) v in
            Normal (v, out)
        | Throw err => caught out err
        end
      else Normal (v, out)
  | Throw err => caught out err
  end.

(** [filterFn(row)]. *)
Definition filterFn_completion (query : string) (showTentativeOnly : bool) (row : value)
  : Completion bool :=
  if negb (JS.truthy row) then Normal false else
  wagon ← ToString_completion (JS.or (JS.prop row "wagon_no") (VStr ""));
  train ← ToString_completion (JS.or (JS.prop row "train_no") (VStr ""));
  first ← ToString_completion (JS.or (JS.prop row "container_no_1") (VStr ""));
  second ← ToString_completion (JS.or (JS.prop row "container_no_2") (VStr ""));
  let text := toLowerCase h (wagon +:+ " " +:+ train +:+ " " +:+ first +:+ " " +:+ second) in
  if JS.truthy (VStr query) && negb (JS.includes text (toLowerCase h query))
  then Normal false
  else if showTentativeOnly && JS.truthy (JS.prop row "finalizedAt") then Normal false
  else Normal true.

(** [items.map(callback)]: the exception of a call ends it. *)
Fixpoint Array_map_completion {A B} (callback : A -> Completion B) (items : list A)
  : Completion (list B) :=
  match items with
  | [] => Normal []
  | x :: rest =>
      y ← callback x;
      ys ← Array_map_completion callback rest;
      Normal (y :: ys)
  end.

(** [downloadCsv(rows, filename)] (index.js 173-192): the callback of
    [headers.map], the loop over the rows, the function. *)
Definition csv_cell_completion (r : value) (hd : string) : Completion string :=
  let v := JS.prop r hd ?? VStr "" in
  s ← match v with
      | VStr s => Normal s                               (* typeof v === 'string' *)
      | _ => if JS.nullish v then Normal "" else ToString_completion v
      end;
  Normal (dquote +:+ double_quotes s +:+ dquote).

Fixpoint csv_lines_completion (rows : list value) : Completion (list string) :=
  match rows with
  | [] => Normal []
  | r :: rest =>
      if JS.nullish r then Throw TypeError else
      vals ← Array_map_completion (csv_cell_completion r) headers;
      lines ← csv_lines_completion rest;
      Normal (JS.join "," vals :: lines)
  end.

Definition downloadCsv_completion (rows : list value) (name : string)
  : Completion (option Download) :=
  if (length rows =? 0)%nat then Normal None else
  lines ← csv_lines_completion rows;
  Normal (Some {| filename := name;
                  content := JS.join newline (JS.join "," headers :: lines) |}).

(** [rows.filter(callback)]: the exception of a call ends it. *)
Fixpoint Array_filter_completion (callback : value -> Completion bool) (items : list value)
  : Completion (list value) :=
  match items with
  | [] => Normal []
  | x :: rest =>
      keep ← callback x;
      kept ← Array_filter_completion callback rest;
      Normal (if keep : bool then x :: kept else kept)
  end.

End Exceptions.

(** ** Toolbar handlers (index.js 247-263, 285-286) *)

(** The search box: [setQuery(e.target.value); setPageLeft(0); setPageRight(0)]. *)
Definition onQueryChange (text : string) (v : View) : View :=
  set_pageRight 0%nat (set_pageLeft 0%nat (set_query text v)).

(** The tentative-only switch: [setShowTentativeOnly(e.target.checked)]. *)
Definition onTentativeOnlyChange (checked : bool) (v : View) : View :=
  set_showTentativeOnly checked v.

(** The page-size select:
    [setPageSize(Number(e.target.value)); setPageLeft(0); setPageRight(0)]. *)
Definition onPageSizeChange (n : nat) (v : View) : View :=
  set_pageRight 0%nat (set_pageLeft 0%nat (set_pageSize n v)).

(** Prev and Next: [setPage(p => Math.max(0, p - 1))], [setPage(p => p + 1)]. *)
Definition onPrev (side : Side) (v : View) : View :=
  match side with
  | Left => set_pageLeft (pageLeft v - 1)%nat v
  | Right => set_pageRight (pageRight v - 1)%nat v
  end.

Definition onNext (side : Side) (v : View) : View :=
  match side with
  | Left => set_pageLeft (pageLeft v + 1)%nat v
  | Right => set_pageRight (pageRight v + 1)%nat v
  end.

(** ** The session: mount effect, socket, timer, requests (index.js 93-156) *)

(** The component's props; [None] is a prop the parent left out, for
    which the destructuring default applies. *)
Record Props := {
  given_pollInterval : option Z;
  given_leftSequenceUrl : option string;
  given_rightSequenceUrl : option string
}.

Definition pollInterval (p : Props) : Z := default 5000 (given_pollInterval p).

Definition leftSequenceUrl (p : Props) : string :=
  default "http://10.40.40.215:3000/api/sequence" (given_leftSequenceUrl p).

Definition rightSequenceUrl (p : Props) : string :=
  default "http://10.40.40.215:3000/api/sequence/right" (given_rightSequenceUrl p).

(** The listeners the effect hands to [socket.on]. *)
Inductive Handler :=
| OnConnect | OnConnectError | OnDisconnect | OnUpdate
| FireLeftRefresh | FireRightRefresh | FireFullRefresh.

(** The socket [io(url, ...)] returned: its listeners, whether
    [disconnect()] has not been called on it yet, and [socket.connected],
    which the socket sets before it calls the [connect] listeners and
    clears before it calls the [disconnect] listeners. *)
Record Socket := { listeners : gmap string Handler; live : bool; connected : bool }.

Definition set_connected (x : bool) (sk : Socket) : Socket :=
  {| listeners := listeners sk; live := live sk; connected := x |}.

(** The socket once [disconnect()] was called on it. *)
Definition disconnected (sk : Socket) : Socket :=
  {| listeners := listeners sk; live := false; connected := false |}.

(** An [axios.get] that has not settled: the lane function that awaits
    it, and the [buffer] binding of that function's closure. *)
Record Request := { url : string; lane : Side; closure_buffer : value }.

(** What follows a [fetchAll()] call: nothing, or the mount effect's
    [.then(() => { if (mounted) setStatus('ready'); })], where [mounted]
    is the variable of the run of the effect that made the call. *)
Inductive Then := ThenNothing | ThenReady (run : nat).

(** A [fetchAll()] whose [Promise.all] is still waiting for the listed
    requests. *)
Record Join := { waiting : list nat; continuation : Then }.

Record Session := {
  view : View;
  console : list LogEntry;
  mounted : list bool;               (* [let mounted] of each run of the effect, in order *)
  pollRef : option positive;         (* pollRef.current: null or a timer id *)
  socketRef : option Socket;         (* socketRef.current *)
  timers : gmap positive Z;          (* the live setInterval timers and their delay *)
  next_timer : positive;
  inflight : gmap nat Request;
  next_request : nat;
  joins : list Join;
  effect_buffer : value;             (* [buffer] as the effect's closures see it *)
  downloads : list Download
}.

Definition initial_session : Session :=
  {| view := initial_view; console := []; mounted := []; pollRef := None;
     socketRef := None; timers := ∅; next_timer := 1%positive; inflight := ∅;
     next_request := 0%nat; joins := []; effect_buffer := VNull; downloads := [] |}.

Definition set_view (x : View) (s : Session) : Session :=
  {| view := x; console := console s; mounted := mounted s; pollRef := pollRef s;
     socketRef := socketRef s; timers := timers s; next_timer := next_timer s;
     inflight := inflight s; next_request := next_request s; joins := joins s;
     effect_buffer := effect_buffer s; downloads := downloads s |}.

Definition set_console (x : list LogEntry) (s : Session) : Session :=
  {| view := view s; console := x; mounted := mounted s; pollRef := pollRef s;
     socketRef := socketRef s; timers := timers s; next_timer := next_timer s;
     inflight := inflight s; next_request := next_request s; joins := joins s;
     effect_buffer := effect_buffer s; downloads := downloads s |}.

Definition set_mounted (x : list bool) (s : Session) : Session :=
  {| view := view s; console := console s; mounted := x; pollRef := pollRef s;
     socketRef := socketRef s; timers := timers s; next_timer := next_timer s;
     inflight := inflight s; next_request := next_request s; joins := joins s;
     effect_buffer := effect_buffer s; downloads := downloads s |}.

Definition set_pollRef (x : option positive) (s : Session) : Session :=
  {| view := view s; console := console s; mounted := mounted s; pollRef := x;
     socketRef := socketRef s; timers := timers s; next_timer := next_timer s;
     inflight := inflight s; next_request := next_request s; joins := joins s;
     effect_buffer := effect_buffer s; downloads := downloads s |}.

Definition set_socketRef (x : option Socket) (s : Session) : Session :=
  {| view := view s; console := console s; mounted := mounted s; pollRef := pollRef s;
     socketRef := x; timers := timers s; next_timer := next_timer s;
     inflight := inflight s; next_request := next_request s; joins := joins s;
     effect_buffer := effect_buffer s; downloads := downloads s |}.

Definition set_timers (x : gmap positive Z) (s : Session) : Session :=
  {| view := view s; console := console s; mounted := mounted s; pollRef := pollRef s;
     socketRef := socketRef s; timers := x; next_timer := next_timer s;
     inflight := inflight s; next_request := next_request s; joins := joins s;
     effect_buffer := effect_buffer s; downloads := downloads s |}.

Definition set_next_timer (x : positive) (s : Session) : Session :=
  {| view := view s; console := console s; mounted := mounted s; pollRef := pollRef s;
     socketRef := socketRef s; timers := timers s; next_timer := x;
     inflight := inflight s; next_request := next_request s; joins := joins s;
     effect_buffer := effect_buffer s; downloads := downloads s |}.

Definition set_inflight (x : gmap nat Request) (s : Session) : Session :=
  {| view := view s; console := console s; mounted := mounted s; pollRef := pollRef s;
     socketRef := socketRef s; timers := timers s; next_timer := next_timer s;
     inflight := x; next_request := next_request s; joins := joins s;
     effect_buffer := effect_buffer s; downloads := downloads s |}.

Definition set_next_request (x : nat) (s : Session) : Session :=
  {| view := view s; console := console s; mounted := mounted s; pollRef := pollRef s;
     socketRef := socketRef s; timers := timers s; next_timer := next_timer s;
     inflight := inflight s; next_request := x; joins := joins s;
     effect_buffer := effect_buffer s; downloads := downloads s |}.

Definition set_joins (x : list Join) (s : Session) : Session :=
  {| view := view s; console := console s; mounted := mounted s; pollRef := pollRef s;
     socketRef := socketRef s; timers := timers s; next_timer := next_timer s;
     inflight := inflight s; next_request := next_request s; joins := x;
     effect_buffer := effect_buffer s; downloads := downloads s |}.

Definition set_effect_buffer (x : value) (s : Session) : Session :=
  {| view := view s; console := console s; mounted := mounted s; pollRef := pollRef s;
     socketRef := socketRef s; timers := timers s; next_timer := next_timer s;
     inflight := inflight s; next_request := next_request s; joins := joins s;
     effect_buffer := x; downloads := downloads s |}.

Definition set_downloads (x : list Download) (s : Session) : Session :=
  {| view := view s; console := console s; mounted := mounted s; pollRef := pollRef s;
     socketRef := socketRef s; timers := timers s; next_timer := next_timer s;
     inflight := inflight s; next_request := next_request s; joins := joins s;
     effect_buffer := effect_buffer s; downloads := x |}.

Definition setStatus (st : Status) (s : Session) : Session :=
  set_view (set_status st (view s)) s.

Definition console_add (lv : Level) (text : string) (d : value) (s : Session) : Session :=
  set_console (console s ++ [{| level := lv; label := text; detail := d |}])%list s.

(** What happens as time passes. *)
Inductive Event :=
| Mount (io_throws : option value)   (* the effect runs; [io(...)] returns or throws *)
| Unmount                            (* the effect's cleanup runs *)
| SocketEmits (name : string) (payload : value)
| TimerFires (id : positive)
| Settles (request : nat) (o : Outcome)
| QueryInput (text : string)
| TentativeOnlyInput (checked : bool)
| PageSizeInput (n : nat)
| RefreshClick
| ExportClick (side : Side)
| PrevClick (side : Side)
| NextClick (side : Side)
| RowClick (row : value)
| DetailClose.

Section SessionSteps.
Variable h : Host.
Variable p : Props.

(** Calling [fetchLeft()] or [fetchRight()] runs it up to its [await]:
    the request is out, the rest waits for it to settle. *)
Definition call_fetchLeft (buffer : value) (s : Session) : Session :=
  let n := next_request s in
  set_next_request (S n)
    (set_inflight
       (<[n := {| url := leftSequenceUrl p; lane := Left; closure_buffer := buffer |}]>
          (inflight s)) s).

Definition call_fetchRight (buffer : value) (s : Session) : Session :=
  let n := next_request s in
  set_next_request (S n)
    (set_inflight
       (<[n := {| url := rightSequenceUrl p; lane := Right; closure_buffer := buffer |}]>
          (inflight s)) s).

(** [fetchAll()]: [await Promise.all([fetchLeft(), fetchRight()])].  Both
    lane functions are called, left first, and the promise returned waits
    for the two of them; [k] is what the caller chained to it. *)
Definition fetchAll (buffer : value) (k : Then) (s : Session) : Session :=
  let l := next_request s in
  let s := call_fetchLeft buffer s in
  let r := next_request s in
  let s := call_fetchRight buffer s in
  set_joins (joins s ++ [{| waiting := [l; r]; continuation := k |}])%list s.

(** Whether the continuation sets the status: [if (mounted)
    setStatus('ready')], with the [mounted] of its own run of the effect. *)
Definition sets_ready (s : Session) (k : Then) : bool :=
  match k with
  | ThenReady run => default false (mounted s !! run)
  | ThenNothing => false
  end.

(** A lane promise was fulfilled: every [Promise.all] waiting for it
    stops waiting for it, and one that waits for nothing more is
    fulfilled and runs its continuation. *)
Definition fulfil_joins (id : nat) (s : Session) : Session :=
  let js := map (fun j => {| waiting := List.filter (fun n => negb (n =? id)%nat) (waiting j);
                             continuation := continuation j |}) (joins s) in
  let fulfilled := List.filter (fun j => (length (waiting j) =? 0)%nat) js in
  let s := set_joins (List.filter (fun j => negb (length (waiting j) =? 0)%nat) js) s in
  if existsb (fun j => sets_ready s (continuation j)) fulfilled
  then setStatus Ready s
  else s.

(** A lane promise was rejected: every [Promise.all] waiting for it is
    rejected at once, and its continuation never runs ([.catch(() => {})]). *)
Definition reject_joins (id : nat) (s : Session) : Session :=
  set_joins (List.filter (fun j => negb (existsb (fun n => (n =? id)%nat) (waiting j)))
               (joins s)) s.

(** A request settles and the lane function that awaited it runs to its
    end, on an outcome whose rows are sorted without an exception. *)
Definition settle (id : nat) (o : Outcome) (s : Session) : Session :=
  match inflight s !! id with
  | None => s
  | Some rq =>
      let resume := match lane rq with
                    | Left => fetchLeft h
                    | Right => fetchRight h
                    end in
      let s' := set_inflight (delete id (inflight s)) s in
      match resume (closure_buffer rq) o (view s) (console s) with
      | Normal (v, out) => fulfil_joins id (set_console out (set_view v s'))
      | Throw _ => reject_joins id s'
      end
  end.

(** The same with the lane function's [catch] for what its own [try]
    block throws: [settle] is [settle_completion] on the responses whose
    rows are sorted without an exception. *)
Definition settle_completion (id : nat) (o : Outcome) (s : Session) : Session :=
  match inflight s !! id with
  | None => s
  | Some rq =>
      let resume := match lane rq with
                    | Left => fetchLeft_completion h
                    | Right => fetchRight_completion h
                    end in
      let s' := set_inflight (delete id (inflight s)) s in
      match resume (closure_buffer rq) o (view s) (console s) with
      | Normal (v, out) => fulfil_joins id (set_console out (set_view v s'))
      | Throw _ => reject_joins id s'
      end
  end.

(** [startPolling()] (index.js 143-149); the timer's callback is
    [() => { fetchAll(); }]. *)
Definition startPolling (s : Session) : Session :=
  match pollRef s with
  | Some _ => s                                         (* if (pollRef.current) return *)
  | None =>
      let id := next_timer s in
      let s := set_next_timer (Pos.succ id) s in
      let s := set_timers (<[id := pollInterval p]> (timers s)) s in
      let s := set_pollRef (Some id) s in
      setStatus Polling s
  end.

(** The table the [socket.on] calls of the effect build. *)
Definition registered : gmap string Handler :=
  list_to_map
    [("connect", OnConnect); ("connect_error", OnConnectError);
     ("sequence:left:changed", FireLeftRefresh);
     ("sequence:right:changed", FireRightRefresh);
     ("sequence:changed", FireFullRefresh); ("sequencing:change", FireFullRefresh);
     ("container:changed", FireFullRefresh); ("flush", FireFullRefresh);
     ("update", OnUpdate); ("disconnect", OnDisconnect)].

(** [payload.side === text]. *)
Definition side_is (payload : value) (text : string) : bool :=
  match JS.prop payload "side" with
  | VStr s => String.eqb s text
  | _ => false
  end.

Definition fireLeftRefresh (s : Session) : Session := call_fetchLeft (effect_buffer s) s.
Definition fireRightRefresh (s : Session) : Session := call_fetchRight (effect_buffer s) s.
Definition fireFullRefresh (s : Session) : Session :=
  fetchAll (effect_buffer s) ThenNothing s.

Definition run_handler (hd : Handler) (payload : value) (s : Session) : Session :=
  match hd with
  | OnConnect =>
      console_add info "socket connected" VUndef (setStatus SocketConnected s)
  | OnConnectError =>
      let s := console_add warn "socket connect_error"
                 (JS.or payload?."message" payload) s in
      let s := match pollRef s with None => startPolling s | Some _ => s end in
      setStatus SocketError s
  | FireLeftRefresh => fireLeftRefresh s
  | FireRightRefresh => fireRightRefresh s
  | FireFullRefresh => fireFullRefresh s
  | OnUpdate =>
      if negb (JS.truthy payload) then fireFullRefresh s
      else if side_is payload "left" then fireLeftRefresh s
      else if side_is payload "right" then fireRightRefresh s
      else fireFullRefresh s
  | OnDisconnect =>
      let s := console_add warn "socket disconnected" payload s in
      let s := match pollRef s with None => startPolling s | Some _ => s end in
      setStatus SocketDisconnected s
  end.

(** The effect (index.js 93-149).  Its closures are those of the render
    it was created in, so the [buffer] they see is the state of that
    render; every run has a [mounted] variable of its own. *)
Definition effect (io_throws : option value) (s : Session) : Session :=
  let s := set_effect_buffer (buffer (view s)) s in
  let run := length (mounted s) in
  let s := set_mounted (mounted s ++ [true])%list s in               (* let mounted = true *)
  let s := fetchAll (effect_buffer s) (ThenReady run) s in
  match io_throws with
  | None =>
      set_socketRef (Some {| listeners := registered; live := true; connected := false |}) s
  | Some err =>
      let s := console_add warn "socket setup failed" (JS.or err?."message" err) s in
      let s := startPolling s in
      setStatus Polling s
  end.

(** [socket.disconnect()] of socket.io-client: the socket leaves its
    manager, so that no event reaches it any more, and when it was
    connected it calls its own [disconnect] listeners, with the reason
    ['io client disconnect'], before it returns. *)
Definition disconnect (sk : Socket) (s : Session) : Session :=
  let s := set_socketRef (Some (disconnected sk)) s in
  if live sk && connected sk then
    match listeners sk !! "disconnect" with
    | Some hd => run_handler hd (VStr "io client disconnect") s
    | None => s
    end
  else s.

(** The cleanup of the latest run of the effect (index.js 151-155), up
    to its last line: [mounted = false] and the [clearInterval]. *)
Definition cleanup_local (s : Session) : Session :=
  let s := set_mounted (<[pred (length (mounted s)) := false]> (mounted s)) s in
  match pollRef s with
  | Some id => set_timers (delete id (timers s)) s
  | None => s
  end.

(** The cleanup: the two lines above, then
    [if (socketRef.current) socketRef.current.disconnect()]. *)
Definition cleanup (s : Session) : Session :=
  let s := cleanup_local s in
  match socketRef s with
  | Some sk => disconnect sk s
  | None => s
  end.

(** The socket has an event for its listeners: it first keeps its own
    [connected] up to date. *)
Definition heard (name : string) (sk : Socket) (s : Session) : Session :=
  if String.eqb name "connect" then set_socketRef (Some (set_connected true sk)) s
  else if String.eqb name "disconnect" then set_socketRef (Some (set_connected false sk)) s
  else s.

Definition deliver (name : string) (payload : value) (sk : Socket) (s : Session) : Session :=
  match listeners sk !! name with
  | Some hd => run_handler hd payload (heard name sk s)
  | None => heard name sk s
  end.

Definition export (side : Side) (s : Session) : Session :=
  let '(rows, name) := match side with
                       | Left => (filteredLeft h (view s), "left-sequences.csv")
                       | Right => (filteredRight h (view s), "right-sequences.csv")
                       end in
  match downloadCsv h rows name with
  | Normal (Some d) => set_downloads (downloads s ++ [d])%list s
  | Normal None | Throw _ => s
  end.

Definition step (s : Session) (e : Event) : Session :=
  match e with
  | Mount io_throws => effect io_throws s
  | Unmount => cleanup s
  | SocketEmits name payload =>
      match socketRef s with
      | Some sk => if live sk then deliver name payload sk s else s
      | None => s
      end
  | TimerFires id =>
      match timers s !! id with
      | Some _ => fetchAll (effect_buffer s) ThenNothing s
      | None => s
      end
  | Settles id o => settle id o s
  | QueryInput text => set_view (onQueryChange text (view s)) s
  | TentativeOnlyInput checked => set_view (onTentativeOnlyChange checked (view s)) s
  | PageSizeInput n => set_view (onPageSizeChange n (view s)) s
  | RefreshClick => fetchAll (buffer (view s)) ThenNothing s
  | ExportClick side => export side s
  | PrevClick Left =>
      if (pageLeft (view s) =? 0)%nat then s                                 (* disabled *)
      else set_view (onPrev Left (view s)) s
  | PrevClick Right =>
      if (pageRight (view s) =? 0)%nat then s
      else set_view (onPrev Right (view s)) s
  | NextClick Left =>
      if (length (filteredLeft h (view s)) <=? (pageLeft (view s) + 1) * pageSize (view s))%nat
      then s                                                                  (* disabled *)
      else set_view (onNext Left (view s)) s
  | NextClick Right =>
      if (length (filteredRight h (view s)) <=? (pageRight (view s) + 1) * pageSize (view s))%nat
      then s
      else set_view (onNext Right (view s)) s
  | RowClick row => set_view (set_detailRow row (view s)) s
  | DetailClose => set_view (set_detailRow VNull (view s)) s
  end.

Definition run (s : Session) (trace : list Event) : Session := fold_left step trace s.

End SessionSteps.

(** ** Statements the code is compared with *)

Section Reference.
Variable h : Host.

(** The first candidate that is neither null nor undefined. *)
Definition first_present (candidates : list value) : value :=
  default VNull (List.find (fun v => negb (JS.nullish v)) candidates).

(** The instant a present field stands for: a number that is finite and
    not zero stands for itself, any other truthy value for what
    [Date.parse] makes of its text, when that is finite. *)
Definition instant (t : value) : option Z :=
  match t with
  | VNum (Fin z) => if Z.eqb z 0 then None else Some z
  | VNum _ => None
  | _ => if JS.truthy t
         then match Date_parse h (JS.ToString h t) with
              | Fin z => Some z
              | _ => None
              end
         else None
  end.



(** The priority order as the specification words it: raw-capture time,
    time, finalization time, creation time. *)
Definition stated_fields (r : value) : list value :=
  [r?."wagonRaw"?."time"; r?."time"; r?."finalizedAt"; r?."createdAt"].


(** The same list with the [ts] field the code also reads. *)
Definition read_fields (r : value) : list value :=
  (stated_fields r ++ [r?."ts"])%list.

(** When the resolution throws: the field consulted is truthy and
    cannot be converted, or it stands for no instant and the id, which is
    truthy, cannot be converted. *)
Definition rowTimestamp_throws (r : value) : bool :=
  let t := first_present (read_fields r) in
  if JS.truthy t && JS.throws t then true
  else match instant t with
       | Some _ => false
       | None => JS.truthy (r?."id") && JS.throws (JS.prop r "id")
       end.

(** When building the text the search box is matched against throws:
    the row is truthy and one of its four fields cannot be converted. *)
Definition search_text_throws (row : value) : bool :=
  JS.truthy row
  && existsb (fun k => JS.throws (JS.prop row k))
       ["wagon_no"; "train_no"; "container_no_1"; "container_no_2"].

(** When exporting a row throws: it is null or undefined, or one of its
    ten fields cannot be converted. *)
Definition export_throws (r : value) : bool :=
  JS.nullish r || existsb (fun hd => JS.throws (JS.prop r hd)) headers.

(** The text the search box is matched against. *)
Definition searchable (row : value) : string :=
  JS.join " " (map (fun k => JS.ToString h (JS.or (JS.prop row k) (VStr "")))
                 ["wagon_no"; "train_no"; "container_no_1"; "container_no_2"]).

(** The filter as the specification words it, with [final] deciding
    which rows count as finalized. *)
Definition passes (final : value -> bool) (query : string) (tentativeOnly : bool)
    (row : value) : bool :=
  (String.eqb query "" || JS.includes (toLowerCase h (searchable row)) (toLowerCase h query))
  && negb (tentativeOnly && final row).

(** Finalized as the specification words it (a non-null [finalizedAt]),
    and as the code tests it (a truthy one). *)
Definition has_finalizedAt (row : value) : bool := negb (JS.nullish (row?."finalizedAt")).
Definition finalized (row : value) : bool := JS.truthy (row?."finalizedAt").

(** The text of one exported field: empty for a missing or null field,
    the string itself, the text of any other value. *)
Definition cell_text (r : value) (hd : string) : string :=
  match JS.prop r hd with
  | VUndef | VNull => ""
  | VStr s => s
  | v => JS.ToString h v
  end.

(** One data line of the export. *)
Definition csv_row (r : value) : string := JS.join "," (map (csv_cell h r) headers).


End Reference.

(** How an [update] payload is read: a lane when its [side] is that
    lane's name, nothing otherwise. *)
Definition recognized_side (payload : value) : option Side :=
  match payload with
  | VObj fields =>
      match fields !! "side" with
      | Some (VStr s) => if String.eqb s "left" then Some Left
                         else if String.eqb s "right" then Some Right
                         else None
      | _ => None
      end
  | _ => None
  end.

(** An outcome the lane function handles without an exception of its
    own: a transport failure, a response that is not usable, or a usable
    one whose rows are sorted without an exception. *)
Definition handled (h : Host) (o : Outcome) : Prop :=
  match o with
  | Rejected _ => True
  | Resolved r =>
      usable r = true ->
      exists sorted,
        sortRowsDesc_completion h (JS.or (JS.prop (JS.prop r "data") "rows") (VArr []))
        = Normal sorted
  end.

(** An outcome that carries no usable data: a transport failure, or a
    response without a truthy [data.ok]. *)
Definition failed (o : Outcome) : bool :=
  match o with
  | Rejected _ => true
  | Resolved r => negb (usable r)
  end.

(** ** Order on rows *)

(** No pair of neighbours is in the wrong order for the comparator. *)
Fixpoint neighbours_in_order (comparefn : value -> value -> num) (l : list value) : Prop :=
  match l with
  | x :: (y :: _) as rest =>
      JS.comes_after comparefn x y = false /\ neighbours_in_order comparefn rest
  | _ => True
  end.

(** The comparator [sortRowsDesc] sorts with:
    [(a, b) => rowTimestamp(b) - rowTimestamp(a)]. *)
Definition newest_first (h : Host) (a b : value) : num :=
  JS.sub (rowTimestamp h b) (rowTimestamp h a).

(** A row the comparator of [sortRowsDesc] can place: it is not
    [undefined] and its timestamp is a number. *)
Definition placeable (h : Host) (r : value) : Prop :=
  r <> VUndef /\ rowTimestamp h r <> NaN.

(** [a] is not older than [b]. *)
Definition not_older (h : Host) (a b : value) : Prop :=
  JS.ltb (rowTimestamp h a) (rowTimestamp h b) = false.

(** [x] stands somewhere before [y] in [l]. *)
Definition precedes (x y : value) (l : list value) : Prop :=
  exists l1 l2 l3, l = (l1 ++ x :: l2 ++ y :: l3)%list.

(** The rows of [l] whose timestamp is [t], in the order of [l]. *)
Definition with_timestamp (h : Host) (t : num) (l : list value) : list value :=
  List.filter (fun r => JS.num_eqb (rowTimestamp h r) t) l.

(** ** Session invariant *)

(** Every live timer is the one [pollRef] holds. *)
Definition one_timer (s : Session) : Prop :=
  forall id ms, timers s !! id = Some ms -> pollRef s = Some id.

(** ** Sample inputs *)

Definition obj (kvs : list (string * value)) : value := VObj (list_to_map kvs).
Definition int (z : Z) : value := VNum (Fin z).

(** A host on which no text is a date or a numeral; the samples below
    that reach [Date.parse] or [Number] do so with such texts only. *)
Definition plain_host : Host :=
  {| Date_parse := fun _ => NaN; StringToNumber := fun _ => NaN;
     NumberToString := fun _ => ""; toLowerCase := fun s => s |}.


(** The scenario rows [{id:1,time:1000}] and [{id:2,time:2000}]. *)
Definition row_1000 : value := obj [("id", int 1); ("time", int 1000)].
Definition row_2000 : value := obj [("id", int 2); ("time", int 2000)].

(** A row that has a text id and no time field yet. *)
Definition row_text_id : value := obj [("id", VStr "L-12"); ("wagon_no", VStr "W1")].

(** [{id: 7, finalizedAt: ''}]. *)
Definition row_blank_finalizedAt : value := obj [("id", int 7); ("finalizedAt", VStr "")].

(** The lane response of the scenario. *)
Definition response (fields : list (string * value)) : Outcome :=
  Resolved (obj [("data", obj (("ok", VBool true) :: fields))]).

Definition scenario_response : Outcome :=
  response [("rows", VArr [row_1000; row_2000]); ("pendingContainers", VArr []);
            ("buffer", VStr "B1")].

(** Eleven rows of which only the oldest is still tentative. *)
Definition final_row (i : Z) : value :=
  obj [("id", int i); ("time", int (1000 + i)); ("finalizedAt", int (2000 + i))].
Definition eleven_rows : list value :=
  (map final_row [11; 10; 9; 8; 7; 6; 5; 4; 3; 2] ++ [obj [("id", int 1); ("time", int 1001)]])%list.

Definition default_props : Props :=
  {| given_pollInterval := None; given_leftSequenceUrl := None;
     given_rightSequenceUrl := None |}.



(** ** Pending panel (index.js 316-318, 326-328) *)

(** One line of the panel: the React key, the label, and the time text. *)
Record PendingLine := { line_key : value; line_label : value; line_time : string }.

(** The [key] attribute of an element: React converts it to a string
    when the element is created, which throws for a value that cannot be
    converted.  The model keeps the value. *)
Definition element_key (key : value) : Completion value :=
  if JS.throws key then Throw TypeError else Normal key.

Section PendingPanel.
(** The text [new Date(x).toLocaleString()] gives when [new Date(x)]
    returns. *)
Variable toLocaleString : value -> string.

(** [new Date(x).toLocaleString()]: [new Date] converts an object to a
    primitive first. *)
Definition Date_toLocaleString (x : value) : Completion string :=
  if JS.throws x then Throw TypeError else Normal (toLocaleString x).

(** The callback of [.map] for the pending item [p]; reading a field of
    [p] throws a TypeError when [p] is null or undefined. *)
Definition pending_line (p : value) : Completion PendingLine :=
  if JS.nullish p then Throw TypeError else
  time ← (if JS.truthy (JS.prop p "time")
          then Date_toLocaleString (JS.prop p "time")
          else Normal "");
  key ← element_key (JS.or (JS.prop p "id") (JS.prop p "tsRaw"));
  Normal {| line_key := key;
            line_label := JS.or (JS.prop p "containerNumber") (JS.prop p "container_no");
            line_time := time |}.

(** [pending.slice(0, 20).map(...)] on the state [leftPending] or
    [rightPending].  Only an array has both a [slice] and a [map] on what
    [slice] returns: a string has [slice] but its result has no [map],
    any other value has no [slice]; calling what is not there throws a
    TypeError. *)
Definition pendingPanel (pending : value) : Completion (list PendingLine) :=
  match pending with
  | VArr items => Array_map_completion pending_line (JS.slice 0 20 items)
  | _ => Throw TypeError
  end.

End PendingPanel.

(** When building the line of a pending item throws: the item is null
    or undefined, its [time] cannot be converted, or its key cannot. *)
Definition line_throws (p : value) : bool :=
  JS.nullish p || JS.throws (JS.prop p "time")
  || JS.throws (JS.or (JS.prop p "id") (JS.prop p "tsRaw")).

(** ** Row table (index.js 194-235) *)

(** One body row of the table: the React key, the class of the [tr], and
    what the nine cells hold. *)
Record TableRow := { row_key : value; row_class : string; row_cells : list value }.

(** The body of the table: its rows, and whether the [No rows] line is
    there. *)
Record Table := { body : list TableRow; no_rows : bool }.

Section RowTableDef.
(** The text [new Date(x).toLocaleString()] gives when [new Date(x)]
    returns. *)
Variable toLocaleString : value -> string.

Definition dash : value := VStr "—".

(** The callback of [rows.map] for the row [r] at index [idx]; reading a
    field of [r] throws a TypeError when [r] is null or undefined. *)
Definition table_row (r : value) (idx : nat) : Completion TableRow :=
  if JS.nullish r then Throw TypeError else
  let i := VNum (Fin (Z.of_nat idx)) in
  time ← (if JS.truthy (JS.prop r "wagonRaw")
          then Date_toLocaleString toLocaleString (JS.prop (JS.prop r "wagonRaw") "time")
          else if JS.truthy (JS.prop r "time")
               then Date_toLocaleString toLocaleString (JS.prop r "time")
               else Normal "");
  key ← element_key (JS.or (JS.prop r "id") i);
  Normal
    {| row_key := key;
       row_class := if JS.truthy (JS.prop r "tentative") then "table-warning" else "";
       row_cells :=
         [JS.or (JS.prop r "id") i;
          JS.or (JS.prop r "wagon_no") dash;
          JS.or (JS.prop r "train_no") dash;
          VStr (if JS.truthy (JS.prop r "finalizedAt") then "✅" else "⏳");
          JS.or (JS.prop r "container_no_1") dash;
          JS.or (JS.prop r "iso_code_1") (VStr "");
          JS.or (JS.prop r "container_no_2") dash;
          JS.or (JS.prop r "iso_code_2") (VStr "");
          VStr time] |}.

Fixpoint table_rows (rows : list value) (idx : nat) : Completion (list TableRow) :=
  match rows with
  | [] => Normal []
  | r :: rest =>
      tr ← table_row r idx;
      trs ← table_rows rest (S idx);
      Normal (tr :: trs)
  end.

(** [RowTable({ rows, side })]; [side] is not used. *)
Definition RowTable (rows : list value) : Completion Table :=
  trs ← table_rows rows 0;
  Normal {| body := trs; no_rows := (length rows =? 0)%nat |}.

End RowTableDef.

(** When building the table row of a row throws: the row is null or
    undefined, the time it shows cannot be converted, or its id, which is
    its key, cannot. *)
Definition row_throws (r : value) : bool :=
  JS.nullish r
  || JS.throws (if JS.truthy (JS.prop r "wagonRaw")
                then JS.prop (JS.prop r "wagonRaw") "time"
                else JS.prop r "time")
  || JS.throws (JS.prop r "id").

(** ** The Flush button (App.js 222-228) *)

(** What one click did: the URLs posted to, in order, whether
    [fetchAll()] was called, and what [console.error] was given. *)
Record FlushRun := { posted : list string; refreshed : bool; reported : list value }.

(** The click handler, given how the promise of each [axios.post]
    settles: the second [await] is reached only when the first did not
    throw, and [fetchAll()] only when neither did. *)
Definition flushBoth (post : string -> Outcome) : FlushRun :=
  match await (post "/api/flush") with
  | Throw e =>                                                         (* catch (e) *)
      {| posted := ["/api/flush"]; refreshed := false; reported := [e] |}
  | Normal _ =>
      match await (post "/api/flush/right") with
      | Throw e =>
          {| posted := ["/api/flush"; "/api/flush/right"]; refreshed := false;
             reported := [e] |}
      | Normal _ =>
          {| posted := ["/api/flush"; "/api/flush/right"]; refreshed := true;
             reported := [] |}
      end
  end.

(** ** More session invariants *)

(** Request ids are handed out in increasing order: what is in flight was
    issued before. *)
Definition fresh_ids (s : Session) : Prop :=
  forall n rq, inflight s !! n = Some rq -> (n < next_request s)%nat.

(** The socket the session holds carries the listeners of the effect. *)
Definition wired (s : Session) : Prop :=
  forall sk, socketRef s = Some sk -> listeners sk = registered.

(** Every run of the effect has been cleaned up: no [mounted] is true
    any more and the socket, if there is one, was disconnected. *)
Definition torn_down (s : Session) : Prop :=
  Forall (fun m => m = false) (mounted s)
  /\ (forall sk, socketRef s = Some sk -> live sk = false).

Definition is_mount (e : Event) : bool :=
  match e with Mount _ => true | _ => false end.

Definition is_unmount (e : Event) : bool :=
  match e with Unmount => true | _ => false end.

(** The request a lane function sends. *)
Definition request_for (p : Props) (side : Side) (b : value) : Request :=
  {| url := match side with
            | Left => leftSequenceUrl p
            | Right => rightSequenceUrl p
            end;
     lane := side; closure_buffer := b |}.

(** The lanes a listener asks for, in the order it asks. *)
Definition lanes_asked (hd : Handler) (payload : value) : list Side :=
  match hd with
  | FireLeftRefresh => [Left]
  | FireRightRefresh => [Right]
  | FireFullRefresh => [Left; Right]
  | OnUpdate =>
      match recognized_side payload with
      | Some side => [side]
      | None => [Left; Right]
      end
  | OnConnect | OnConnectError | OnDisconnect => []
  end.




(** The pending items of a lane. *)
Definition lane_pending (side : Side) (v : View) : value :=
  match side with
  | Left => leftPending v
  | Right => rightPending v
  end.

(** Calling the lane functions for the listed lanes, one after the
    other, with the same [buffer] binding. *)
Fixpoint issue (p : Props) (b : value) (lanes : list Side) (s : Session) : Session :=
  match lanes with
  | [] => s
  | Left :: rest => issue p b rest (call_fetchLeft p b s)
  | Right :: rest => issue p b rest (call_fetchRight p b s)
  end.

(** * Properties *)

(** ** Values *)

Lemma nc_nullish a b : JS.nullish a = true -> a ?? b = b.
Proof. unfold JS.nc. now intros ->. Qed.

Lemma nc_present a b : JS.nullish a = false -> a ?? b = a.
Proof. unfold JS.nc. now intros ->. Qed.

Lemma truthy_not_nullish v : JS.truthy v = true -> JS.nullish v = false.
Proof. now destruct v. Qed.

(** A chain of [??] that ends in [null] picks the first candidate that
    is present. *)
Lemma nc_chain_first_present (candidates : list value) (a : value) :
  JS.nullish a = true ->
  fold_left JS.nc candidates a ?? VNull = first_present candidates.
Proof.
  unfold first_present.
  assert (keep : forall l b, JS.nullish b = false -> fold_left JS.nc l b = b).
  { induction l as [|x l IH]; intros b Hb; simpl; [done|].
    rewrite (nc_present b x Hb). now apply IH. }
  revert a. induction candidates as [|x l IH]; intros a Ha; simpl.
  - now destruct a.
  - rewrite (nc_nullish a x Ha).
    destruct (JS.nullish x) eqn:Hx; simpl.
    + now apply IH.
    + rewrite (keep l x Hx). now apply nc_present.
Qed.

(** ** The canonical timestamp *)

Section TimestampFacts.
Variable h : Host.


(** A value that is not truthy is a primitive: it converts. *)
Lemma falsy_converts (v : value) : JS.truthy v = false -> JS.throws v = false.
Proof. now destruct v. Qed.

Lemma rowTimestamp_completion_cases (r : value) :
  rowTimestamp_completion h r
  = if rowTimestamp_throws h r then Throw TypeError else Normal (rowTimestamp h r).
Proof.
  unfold rowTimestamp_completion, rowTimestamp, rowTimestamp_throws. cbv zeta.
  set (t := _ ?? VNull).
  assert (Ht : t = first_present (read_fields r))
    by exact (nc_chain_first_present (read_fields r) VUndef eq_refl).
  rewrite <- Ht. clearbody t. clear Ht.
  unfold instant, ToNumber_completion, ToString_completion.
  destruct t as [| |b|n|s|fields|items]; cbn.
  - now destruct (JS.truthy (r?."id")); [destruct (JS.throws (JS.prop r "id"))|].
  - now destruct (JS.truthy (r?."id")); [destruct (JS.throws (JS.prop r "id"))|].
  - destruct b; cbn.
    + destruct (Date_parse h "true"); cbn; try reflexivity;
        now destruct (JS.truthy (r?."id")); [destruct (JS.throws (JS.prop r "id"))|].
    + now destruct (JS.truthy (r?."id")); [destruct (JS.throws (JS.prop r "id"))|].
  - destruct n as [z| | |]; cbn; try destruct (Z.eqb z 0); cbn; try reflexivity;
      now destruct (JS.truthy (r?."id")); [destruct (JS.throws (JS.prop r "id"))|].
  - destruct (String.eqb s ""); cbn;
      [|destruct (Date_parse h s); cbn; try reflexivity];
      now destruct (JS.truthy (r?."id")); [destruct (JS.throws (JS.prop r "id"))|].
  - destruct (fields !! "toString"); cbn; [reflexivity|].
    destruct (Date_parse h "[object Object]"); cbn; try reflexivity;
      now destruct (JS.truthy (r?."id")); [destruct (JS.throws (JS.prop r "id"))|].
  - destruct (existsb JS.throws items); cbn; [reflexivity|].
    match goal with |- context [Date_parse h ?x] => destruct (Date_parse h x) end;
      cbn; try reflexivity;
      now destruct (JS.truthy (r?."id")); [destruct (JS.throws (JS.prop r "id"))|].
Qed.

(** What [rowTimestamp_completion] returns is what [rowTimestamp] says. *)
Lemma rowTimestamp_completion_sound (r : value) (n : num) :
  rowTimestamp_completion h r = Normal n -> n = rowTimestamp h r.
Proof.
  rewrite rowTimestamp_completion_cases.
  destruct (rowTimestamp_throws h r); [discriminate|]. now intros [= <-].
Qed.

End TimestampFacts.



(** ** The filter *)

Section FilterFacts.
Variable h : Host.

Lemma filterFn_passes (q : string) (t : bool) (row : value) :
  filterFn h q t row = JS.truthy row && passes h finalized q t row.
Proof.
  unfold filterFn, passes, finalized, searchable.
  destruct (JS.truthy row) eqn:Hrow; simpl; [|reflexivity].
  unfold JS.oprop. rewrite (truthy_not_nullish row Hrow).
  destruct (String.eqb q ""); simpl.
  - now destruct (t && JS.truthy (JS.prop row "finalizedAt")).
  - match goal with |- context [JS.includes ?a ?b] => destruct (JS.includes a b) end;
      simpl; [|reflexivity].
    now destruct (t && JS.truthy (JS.prop row "finalizedAt")).
Qed.

Lemma or_blank_throws (x : value) : JS.throws (JS.or x (VStr "")) = JS.throws x.
Proof.
  unfold JS.or. destruct (JS.truthy x) eqn:Hx; [reflexivity|].
  now rewrite (falsy_converts x Hx).
Qed.

Lemma filterFn_completion_cases (q : string) (t : bool) (row : value) :
  filterFn_completion h q t row
  = if search_text_throws row then Throw TypeError else Normal (filterFn h q t row).
Proof.
  unfold filterFn_completion, filterFn, search_text_throws, ToString_completion.
  destruct (JS.truthy row); [|reflexivity].
  rewrite !or_blank_throws. cbn [negb andb existsb].
  destruct (JS.throws (JS.prop row "wagon_no")); [reflexivity|].
  destruct (JS.throws (JS.prop row "train_no")); [reflexivity|].
  destruct (JS.throws (JS.prop row "container_no_1")); [reflexivity|].
  destruct (JS.throws (JS.prop row "container_no_2")); [reflexivity|].
  cbn [orb mbind Completion_bind].
  match goal with |- context [JS.includes ?a ?b] => destruct (JS.includes a b) end;
    destruct (JS.truthy (VStr q)); cbn [negb andb]; try reflexivity;
    now destruct (t && JS.truthy (JS.prop row "finalizedAt")).
Qed.

(** A filter none of whose calls throws is the plain filter. *)
Lemma Array_filter_completion_plain (callback : value -> Completion bool)
    (keep : value -> bool) (items : list value) :
  Forall (fun x => callback x = Normal (keep x)) items ->
  Array_filter_completion callback items = Normal (List.filter keep items).
Proof.
  induction 1 as [|x items Hx _ IH]; cbn; [reflexivity|].
  rewrite Hx, IH. cbn. now destruct (keep x).
Qed.

(** A filter one of whose calls throws, throws. *)
Lemma Array_filter_completion_throws (callback : value -> Completion bool)
    (e : value) (items : list value) :
  (forall x e', callback x = Throw e' -> e' = e) ->
  Exists (fun x => callback x = Throw e) items ->
  Array_filter_completion callback items = Throw e.
Proof.
  intros Honly. induction 1 as [x items Hx|x items _ IH]; cbn.
  - now rewrite Hx.
  - destruct (callback x) as [k|e'] eqn:Hx; cbn.
    + now rewrite IH.
    + now rewrite (Honly x e' Hx).
Qed.

End FilterFacts.

(** C5 (as amended).  On a row whose four searchable fields can be
    converted, the filter returns, and the row passes iff it is a truthy
    value, the search text is empty or occurs in the lower-cased text of
    the four searchable fields joined by blanks, and the tentative-only
    toggle does not exclude it; the toggle excludes the rows whose
    [finalizedAt] is truthy and no other truthy row; a row that is not
    truthy never passes; on a truthy row with a field that cannot be
    converted the filter throws.  With the toggle on and no search text
    the derived lane of rows that can be converted holds exactly the
    truthy rows whose [finalizedAt] is not truthy. *)
Theorem C5_filterFn_search_and_tentative_only (h : Host) :
  (forall q t row,
     filterFn_completion h q t row
     = if search_text_throws row then Throw TypeError
       else Normal (JS.truthy row && passes h finalized q t row))
  /\ (forall row,
        filterFn_completion h "" true row
        = if search_text_throws row then Throw TypeError
          else Normal (JS.truthy row && negb (finalized row)))
  /\ (forall q t row, JS.truthy row = false -> filterFn_completion h q t row = Normal false)
  /\ (forall q t rows,
        Forall (fun row => search_text_throws row = false) rows ->
        Array_filter_completion (filterFn_completion h q t) rows
        = Normal (List.filter (fun row => JS.truthy row && passes h finalized q t row) rows))
  /\ (forall q t rows,
        Exists (fun row => search_text_throws row = true) rows ->
        Array_filter_completion (filterFn_completion h q t) rows = Throw TypeError)
  /\ (forall v,
        Forall (fun row => search_text_throws row = false) (leftRows v) ->
        Array_filter_completion (filterFn_completion h (query v) (showTentativeOnly v))
          (leftRows v)
        = Normal (filteredLeft h v))
  /\ (forall v,
        Forall (fun row => search_text_throws row = false) (rightRows v) ->
        Array_filter_completion (filterFn_completion h (query v) (showTentativeOnly v))
          (rightRows v)
        = Normal (filteredRight h v)).
Proof.
  assert (Hrow : forall q t row,
            filterFn_completion h q t row
            = if search_text_throws row then Throw TypeError
              else Normal (JS.truthy row && passes h finalized q t row)).
  { intros q t row. now rewrite filterFn_completion_cases, filterFn_passes. }
  assert (Hplain : forall q t rows,
            Forall (fun row => search_text_throws row = false) rows ->
            Array_filter_completion (filterFn_completion h q t) rows
            = Normal (List.filter (filterFn h q t) rows)).
  { intros q t rows Hrows. apply Array_filter_completion_plain.
    eapply Forall_impl; [exact Hrows|]. cbv beta. intros row Hc.
    now rewrite filterFn_completion_cases, Hc. }
  split; [exact Hrow|]. split; [|split; [|split; [|split; [|split]]]].
  - intros row. rewrite Hrow. destruct (search_text_throws row); [reflexivity|].
    reflexivity.
  - intros q t row Hfalsy. rewrite Hrow. unfold search_text_throws.
    now rewrite Hfalsy.
  - intros q t rows Hrows. rewrite (Hplain q t rows Hrows). f_equal.
    apply List.filter_ext. intros row. apply filterFn_passes.
  - intros q t rows Hrows. apply Array_filter_completion_throws.
    + intros x e'. rewrite filterFn_completion_cases.
      destruct (search_text_throws x); [now intros [= <-]|discriminate].
    + apply List.Exists_exists in Hrows as [row [Hin Hc]].
      apply List.Exists_exists. exists row. split; [exact Hin|].
      now rewrite filterFn_completion_cases, Hc.
  - intros v Hrows. now rewrite (Hplain _ _ _ Hrows).
  - intros v Hrows. now rewrite (Hplain _ _ _ Hrows).
Qed.

(** C5, counterexample.  The row [{id: 7, finalizedAt: ''}] has a
    [finalizedAt] that is not null, so the stated filter excludes it when
    the toggle is on; the code lets it pass, on every host. *)
Lemma C5_blank_finalizedAt_passes :
  ~ exists h : Host,
      filterFn_completion h "" true row_blank_finalizedAt
      = Normal (passes h has_finalizedAt "" true row_blank_finalizedAt).
Proof. intros [h H]. vm_compute in H. discriminate H. Qed.

(** ** CSV export *)



Section ExportFacts.
Variable h : Host.

Lemma csv_cell_quoted (r : value) (hd : string) :
  csv_cell h r hd = dquote +:+ double_quotes (cell_text h r hd) +:+ dquote.
Proof.
  unfold csv_cell, cell_text, JS.nc.
  now destruct (JS.prop r hd) as [| |[]|n|s'|fields|items].
Qed.

Lemma csv_lines_present (rows : list value) :
  Forall (fun r => JS.nullish r = false) rows ->
  csv_lines h rows = Normal (map (csv_row h) rows).
Proof.
  induction 1 as [|r rows Hr _ IH]; simpl; [reflexivity|].
  now rewrite Hr, IH.
Qed.


Lemma downloadCsv_rows (rows : list value) (name : string) :
  Forall (fun r => JS.nullish r = false) rows ->
  downloadCsv h rows name =
    match rows with
    | [] => Normal None
    | _ => Normal (Some {| filename := name;
                           content := JS.join newline
                                        (JS.join "," headers :: map (csv_row h) rows) |})
    end.
Proof.
  intros Hrows. unfold downloadCsv. rewrite (csv_lines_present rows Hrows).
  now destruct rows.
Qed.

End ExportFacts.




(** ** Toolbar *)

(** C6.  The search box and the page-size select reset both page
    indices; the tentative-only switch leaves them where they are.  On a
    lane of eleven rows shown ten per page, with the second page open,
    switching to tentative-only leaves the page index at 1 although a
    single row remains: the page shown is empty. *)
Theorem C6_tentative_only_switch_keeps_page_indices (h : Host) (p : Props) :
  (forall text v, pageLeft (onQueryChange text v) = 0%nat
                  /\ pageRight (onQueryChange text v) = 0%nat)
  /\ (forall n v, pageLeft (onPageSizeChange n v) = 0%nat
                  /\ pageRight (onPageSizeChange n v) = 0%nat)
  /\ (forall checked v, pageLeft (onTentativeOnlyChange checked v) = pageLeft v
                        /\ pageRight (onTentativeOnlyChange checked v) = pageRight v)
  /\ (let s := run h p initial_session
                 [Mount None; Settles 0 (response [("rows", VArr eleven_rows)]);
                  PageSizeInput 10; NextClick Left] in
      pageLeft (view s) = 1%nat
      /\ length (pagedLeft h (view s)) = 1%nat
      /\ (let s' := step h p s (TentativeOnlyInput true) in
          pageLeft (view s') = 1%nat
          /\ length (filteredLeft h (view s')) = 1%nat
          /\ pagedLeft h (view s') = [])).
Proof.
  split; [|split; [|split]]; try (intros; split; reflexivity).
  vm_compute. repeat split.
Qed.

(** ** Sorting *)

Lemma sub_positive_asym (a b : num) :
  JS.ltb (Fin 0) (JS.sub a b) = true -> JS.ltb (Fin 0) (JS.sub b a) = false.
Proof.
  destruct a as [x| | |], b as [y| | |]; simpl; try reflexivity; try discriminate.
  intros H. apply Z.ltb_lt in H. apply Z.ltb_ge. lia.
Qed.

Section SortFacts.
Variable comparefn : value -> value -> num.

(** The comparator never puts each of two elements after the other. *)
Hypothesis comparefn_asym :
  forall x y, JS.ltb (Fin 0) (comparefn x y) = true ->
              JS.ltb (Fin 0) (comparefn y x) = false.

Lemma SortCompare_cases (x y : value) :
  (x = VUndef /\ y = VUndef /\ JS.SortCompare comparefn x y = Fin 0)
  \/ (x = VUndef /\ y <> VUndef /\ JS.SortCompare comparefn x y = Fin 1)
  \/ (x <> VUndef /\ y = VUndef /\ JS.SortCompare comparefn x y = Fin (-1))
  \/ (x <> VUndef /\ y <> VUndef
      /\ JS.SortCompare comparefn x y
         = if JS.isNaN (comparefn x y) then Fin 0 else comparefn x y).
Proof.
  destruct x, y;
    first [ left; repeat split; discriminate
          | right; left; repeat split; discriminate
          | right; right; left; repeat split; discriminate
          | right; right; right; repeat split; discriminate ].
Qed.

Lemma comes_after_asym (x y : value) :
  JS.comes_after comparefn x y = true -> JS.comes_after comparefn y x = false.
Proof.
  unfold JS.comes_after.
  destruct (SortCompare_cases x y) as [(-> & -> & Hxy)|[(-> & Hy & Hxy)|[(Hx & -> & Hxy)|(Hx & Hy & Hxy)]]];
    rewrite Hxy; try discriminate.
  - intros _. now destruct y.
  - destruct (SortCompare_cases y x) as [(? & ? & _)|[(? & _ & _)|[(_ & ? & _)|(_ & _ & Hyx)]]];
      try contradiction.
    rewrite Hyx. intros H.
    destruct (comparefn x y) eqn:Hab; simpl in H; try discriminate H;
      generalize (comparefn_asym x y); rewrite Hab; intros Hba;
      specialize (Hba H); now destruct (comparefn y x).
Qed.

Lemma neighbours_in_order_tail (y : value) (l : list value) :
  neighbours_in_order comparefn (y :: l) -> neighbours_in_order comparefn l.
Proof. destruct l as [|z l]; [intros _; exact I|intros [_ H]; exact H]. Qed.

Lemma sort_insert_in_order (x : value) (l : list value) :
  neighbours_in_order comparefn l ->
  neighbours_in_order comparefn (JS.sort_insert comparefn x l).
Proof.
  induction l as [|y l IH]; intros Hl; simpl; [exact I|].
  destruct (JS.comes_after comparefn x y) eqn:Hxy.
  - specialize (IH (neighbours_in_order_tail y l Hl)).
    destruct l as [|z l]; simpl in *.
    + split; [now apply comes_after_asym|exact I].
    + destruct (JS.comes_after comparefn x z) eqn:Hxz.
      * split; [apply Hl|exact IH].
      * split; [now apply comes_after_asym|exact IH].
  - split; [exact Hxy|exact Hl].
Qed.

Lemma Array_sort_in_order (l : list value) :
  neighbours_in_order comparefn (JS.Array_sort comparefn l).
Proof.
  induction l as [|x l IH]; simpl; [exact I|]. now apply sort_insert_in_order.
Qed.

End SortFacts.

Lemma Array_sort_fixed (comparefn : value -> value -> num) (l : list value) :
  neighbours_in_order comparefn l -> JS.Array_sort comparefn l = l.
Proof.
  induction l as [|x l IH]; intros Hl; [reflexivity|].
  change (JS.Array_sort comparefn (x :: l))
    with (JS.sort_insert comparefn x (JS.Array_sort comparefn l)).
  destruct l as [|y l]; [reflexivity|].
  destruct Hl as [Hxy Hl]. rewrite (IH Hl). simpl. now rewrite Hxy.
Qed.

Lemma sort_insert_perm (comparefn : value -> value -> num) (x : value) (l : list value) :
  Permutation (x :: l) (JS.sort_insert comparefn x l).
Proof.
  induction l as [|y l IH]; simpl; [reflexivity|].
  destruct (JS.comes_after comparefn x y); [|reflexivity].
  rewrite perm_swap. now apply perm_skip.
Qed.

Lemma Array_sort_perm (comparefn : value -> value -> num) (l : list value) :
  Permutation l (JS.Array_sort comparefn l).
Proof.
  induction l as [|x l IH]; simpl; [reflexivity|].
  rewrite <- sort_insert_perm. now apply perm_skip.
Qed.

Section RowOrderFacts.
Variable h : Host.

Lemma newest_first_asym (x y : value) :
  JS.ltb (Fin 0) (newest_first h x y) = true ->
  JS.ltb (Fin 0) (newest_first h y x) = false.
Proof. apply sub_positive_asym. Qed.

Lemma sortRowsDesc_in_order (rows : value) :
  neighbours_in_order (newest_first h) (sortRowsDesc h rows).
Proof.
  destruct rows; try exact I.
  apply Array_sort_in_order, newest_first_asym.
Qed.

Lemma sortRowsDesc_idempotent (rows : value) :
  sortRowsDesc h (VArr (sortRowsDesc h rows)) = sortRowsDesc h rows.
Proof. apply Array_sort_fixed, sortRowsDesc_in_order. Qed.

Lemma sortRowsDesc_perm (items : list value) :
  Permutation items (sortRowsDesc h (VArr items)).
Proof. apply Array_sort_perm. Qed.

(** Between rows the comparator can place, "comes after" is "is older". *)
Lemma comes_after_older (x y : value) :
  x <> VUndef -> y <> VUndef ->
  JS.comes_after (newest_first h) x y = JS.ltb (rowTimestamp h x) (rowTimestamp h y).
Proof.
  intros Hx Hy. unfold JS.comes_after.
  destruct (SortCompare_cases (newest_first h) x y)
    as [(? & _)|[(? & _)|[(_ & ? & _)|(_ & _ & ->)]]]; try contradiction.
  unfold newest_first.
  destruct (rowTimestamp h x) as [a| | |], (rowTimestamp h y) as [b| | |];
    simpl; try reflexivity.
  destruct (Z.ltb_spec 0 (b - a)), (Z.ltb_spec a b); (reflexivity || lia).
Qed.

Lemma not_older_trans (x y z : value) :
  rowTimestamp h y <> NaN -> not_older h x y -> not_older h y z -> not_older h x z.
Proof.
  unfold not_older.
  destruct (rowTimestamp h x) as [a| | |], (rowTimestamp h y) as [b| | |],
    (rowTimestamp h z) as [c| | |]; simpl; try congruence.
  rewrite !Z.ltb_ge. lia.
Qed.

Lemma sort_insert_descending (x : value) (l : list value) :
  placeable h x -> Forall (placeable h) l ->
  StronglySorted (not_older h) l ->
  StronglySorted (not_older h) (JS.sort_insert (newest_first h) x l).
Proof.
  intros [Hx Hxt] Hl Hs. induction Hs as [|y l Hs IH Hy]; simpl.
  - repeat constructor.
  - inversion Hl as [|? ? [Hyu Hyt] Hl']; subst.
    rewrite (comes_after_older x y Hx Hyu).
    destruct (JS.ltb (rowTimestamp h x) (rowTimestamp h y)) eqn:Hxy.
    + constructor; [now apply IH|].
      rewrite <- (sort_insert_perm (newest_first h) x l). constructor; [|exact Hy].
      unfold not_older.
      destruct (rowTimestamp h x) as [a| | |], (rowTimestamp h y) as [b| | |];
        simpl in *; try congruence.
      apply Z.ltb_lt in Hxy. apply Z.ltb_ge. lia.
    + constructor; [now constructor|].
      constructor; [exact Hxy|].
      eapply List.Forall_impl; [|exact Hy]. intros z Hz.
      now apply (not_older_trans x y z).
Qed.

Lemma sortRowsDesc_descending (items : list value) :
  Forall (placeable h) items ->
  StronglySorted (not_older h) (sortRowsDesc h (VArr items)).
Proof.
  unfold sortRowsDesc.
  change (fun a b => JS.sub (rowTimestamp h b) (rowTimestamp h a)) with (newest_first h).
  induction 1 as [|x l Hx Hl IH]; simpl; [constructor|].
  apply sort_insert_descending; [exact Hx| |exact IH].
  now rewrite <- (Array_sort_perm (newest_first h) l).
Qed.

Lemma sort_insert_with_timestamp (t : num) (x : value) (l : list value) :
  x <> VUndef ->
  with_timestamp h t (JS.sort_insert (newest_first h) x l) = with_timestamp h t (x :: l).
Proof.
  intros Hx. unfold with_timestamp.
  induction l as [|y l IH]; [reflexivity|].
  cbn [JS.sort_insert].
  destruct (JS.comes_after (newest_first h) x y) eqn:Hxy; [|reflexivity].
  cbn [List.filter] in *. rewrite IH.
  destruct (JS.num_eqb (rowTimestamp h x) t) eqn:Hxt; [|reflexivity].
  destruct (JS.num_eqb (rowTimestamp h y) t) eqn:Hyt; [|reflexivity].
  exfalso. revert Hxy. unfold JS.comes_after.
  destruct (SortCompare_cases (newest_first h) x y)
    as [(? & _)|[(? & _)|[(_ & _ & ->)|(_ & _ & ->)]]]; try contradiction;
    [discriminate|].
  unfold newest_first.
  destruct (rowTimestamp h x) as [a| | |], (rowTimestamp h y) as [b| | |], t as [c| | |];
    simpl in *; try discriminate.
  apply Z.eqb_eq in Hxt, Hyt. subst. rewrite Z.sub_diag. discriminate.
Qed.

Lemma sortRowsDesc_stable (t : num) (items : list value) :
  Forall (fun r => r <> VUndef) items ->
  with_timestamp h t (sortRowsDesc h (VArr items)) = with_timestamp h t items.
Proof.
  unfold sortRowsDesc.
  change (fun a b => JS.sub (rowTimestamp h b) (rowTimestamp h a)) with (newest_first h).
  induction 1 as [|x l Hx Hl IH]; [reflexivity|].
  cbn [JS.Array_sort foldr]. rewrite (sort_insert_with_timestamp t x _ Hx).
  unfold with_timestamp in *. cbn [List.filter]. unfold JS.Array_sort in IH.
  now rewrite IH.
Qed.

(** In a descending list nothing older stands before something newer. *)
Lemma descending_precedes (l : list value) (a b : value) :
  StronglySorted (not_older h) l -> precedes b a l ->
  JS.ltb (rowTimestamp h b) (rowTimestamp h a) = false.
Proof.
  intros Hs (l1 & l2 & l3 & ->).
  induction l1 as [|x l1 IH]; simpl in Hs.
  - apply StronglySorted_inv in Hs as [_ Hb].
    rewrite List.Forall_forall in Hb. apply Hb.
    apply in_or_app. right. now left.
  - apply StronglySorted_inv in Hs as [Hs _]. now apply IH.
Qed.

(** Rows the comparator can place come out as the one stable
    arrangement from newest to oldest. *)
Lemma sortRowsDesc_newest_first (items : list value) :
  Forall (placeable h) items ->
  Permutation items (sortRowsDesc h (VArr items))
  /\ (forall a b,
        precedes b a (sortRowsDesc h (VArr items)) ->
        JS.ltb (rowTimestamp h b) (rowTimestamp h a) = false)
  /\ (forall t,
        with_timestamp h t (sortRowsDesc h (VArr items)) = with_timestamp h t items).
Proof.
  intros Hitems. split; [apply sortRowsDesc_perm|]. split.
  - intros a b. apply descending_precedes. now apply sortRowsDesc_descending.
  - intros t. apply sortRowsDesc_stable.
    eapply List.Forall_impl; [|exact Hitems]. now intros r [Hr _].
Qed.

End RowOrderFacts.

(** ** Sorting with a comparator that throws *)

Section SortCompletionFacts.
Variable comparefn_completion : value -> value -> Completion num.

Lemma Array_sort_completion_cons (x : value) (l : list value) :
  Array_sort_completion comparefn_completion (x :: l)
  = sl ← Array_sort_completion comparefn_completion l;
    sort_insert_completion comparefn_completion x sl.
Proof. reflexivity. Qed.

Lemma sort_insert_completion_perm (x : value) (l out : list value) :
  sort_insert_completion comparefn_completion x l = Normal out -> Permutation (x :: l) out.
Proof.
  revert out. induction l as [|y l IH]; intros out; cbn [sort_insert_completion].
  - now intros [= <-].
  - destruct (SortCompare_completion comparefn_completion x y) as [c|e];
      cbn [mbind Completion_bind]; [|discriminate].
    destruct (JS.ltb (Fin 0) c); [|now intros [= <-]].
    destruct (sort_insert_completion comparefn_completion x l) as [rest|e];
      cbn [mbind Completion_bind]; [|discriminate].
    intros [= <-]. rewrite perm_swap. apply perm_skip. now apply IH.
Qed.

Lemma Array_sort_completion_perm (l out : list value) :
  Array_sort_completion comparefn_completion l = Normal out -> Permutation l out.
Proof.
  revert out. induction l as [|x l IH]; intros out.
  - now intros [= <-].
  - rewrite Array_sort_completion_cons.
    destruct (Array_sort_completion comparefn_completion l) as [sl|e];
      cbn [mbind Completion_bind]; [|discriminate].
    intros Hins. apply sort_insert_completion_perm in Hins.
    etransitivity; [|exact Hins]. apply perm_skip. now apply IH.
Qed.

(** With a comparator whose results are those of [comparefn], a sort
    that returns gives what [JS.Array_sort] gives. *)
Section Sound.
Variable comparefn : value -> value -> num.
Hypothesis comparefn_sound :
  forall a b n, comparefn_completion a b = Normal n -> n = comparefn a b.

Lemma SortCompare_completion_sound (x y : value) (c : num) :
  SortCompare_completion comparefn_completion x y = Normal c ->
  c = JS.SortCompare comparefn x y.
Proof.
  unfold SortCompare_completion, JS.SortCompare.
  destruct x, y; try (now intros [= <-]);
    (destruct (comparefn_completion _ _) as [res|e] eqn:E; cbn [mbind Completion_bind];
     [|discriminate]; apply comparefn_sound in E; subst res; now intros [= <-]).
Qed.

Lemma sort_insert_completion_sound (x : value) (l out : list value) :
  sort_insert_completion comparefn_completion x l = Normal out ->
  out = JS.sort_insert comparefn x l.
Proof.
  revert out. induction l as [|y l IH]; intros out;
    cbn [sort_insert_completion JS.sort_insert].
  - now intros [= <-].
  - unfold JS.comes_after.
    destruct (SortCompare_completion comparefn_completion x y) as [c|e] eqn:E;
      cbn [mbind Completion_bind]; [|discriminate].
    apply SortCompare_completion_sound in E. subst c.
    destruct (JS.ltb (Fin 0) (JS.SortCompare comparefn x y)); [|now intros [= <-]].
    destruct (sort_insert_completion comparefn_completion x l) as [rest|e];
      cbn [mbind Completion_bind]; [|discriminate].
    intros [= <-]. f_equal. now apply IH.
Qed.

Lemma Array_sort_completion_sound (l out : list value) :
  Array_sort_completion comparefn_completion l = Normal out ->
  out = JS.Array_sort comparefn l.
Proof.
  revert out. induction l as [|x l IH]; intros out.
  - now intros [= <-].
  - rewrite Array_sort_completion_cons.
    destruct (Array_sort_completion comparefn_completion l) as [sl|e];
      cbn [mbind Completion_bind]; [|discriminate].
    intros Hins. apply sort_insert_completion_sound in Hins.
    now rewrite (IH sl eq_refl) in Hins.
Qed.

End Sound.

(** A sort returns when the comparator returns on the elements sorted. *)
Section Returns.
Variable converts : value -> Prop.
Hypothesis comparefn_returns :
  forall a b, converts a -> converts b -> exists n, comparefn_completion a b = Normal n.

Lemma sort_insert_completion_returns (x : value) (l : list value) :
  converts x -> Forall converts l ->
  exists out, sort_insert_completion comparefn_completion x l = Normal out.
Proof.
  intros Hx. induction 1 as [|y l Hy _ [rest IH]]; cbn [sort_insert_completion]; [eauto|].
  assert (Hc : exists c, SortCompare_completion comparefn_completion x y = Normal c).
  { unfold SortCompare_completion.
    destruct (comparefn_returns x y Hx Hy) as [n Hn].
    destruct x, y; eauto; rewrite Hn; cbn [mbind Completion_bind]; eauto. }
  destruct Hc as [c ->]. cbn [mbind Completion_bind]. destruct (JS.ltb (Fin 0) c); [|eauto].
  rewrite IH. cbn [mbind Completion_bind]. eauto.
Qed.

Lemma Array_sort_completion_returns (l : list value) :
  Forall converts l -> exists out, Array_sort_completion comparefn_completion l = Normal out.
Proof.
  induction 1 as [|x l Hx Hl [sl IH]]; [now exists []|].
  rewrite Array_sort_completion_cons, IH.
  cbn [mbind Completion_bind]. apply sort_insert_completion_returns; [exact Hx|].
  apply Array_sort_completion_perm in IH. now rewrite <- IH.
Qed.

End Returns.

(** A sort throws nothing but what the comparator throws. *)
Lemma Array_sort_completion_throws (e0 : value) (l : list value) (e : value) :
  (forall a b e', comparefn_completion a b = Throw e' -> e' = e0) ->
  Array_sort_completion comparefn_completion l = Throw e -> e = e0.
Proof.
  intros Honly.
  assert (Hcmp : forall x y e', SortCompare_completion comparefn_completion x y = Throw e'
                                -> e' = e0).
  { intros x y e'. unfold SortCompare_completion.
    destruct x, y; try discriminate;
      (destruct (comparefn_completion _ _) as [res|e1] eqn:E;
        cbn [mbind Completion_bind]; [discriminate|];
       intros [= <-]; now apply Honly in E). }
  assert (Hins : forall x sl e', sort_insert_completion comparefn_completion x sl = Throw e'
                                 -> e' = e0).
  { intros x sl e'. induction sl as [|y sl IH]; cbn [sort_insert_completion]; [discriminate|].
    destruct (SortCompare_completion comparefn_completion x y) as [c|e1] eqn:E;
      cbn [mbind Completion_bind].
    - destruct (JS.ltb (Fin 0) c); [|discriminate].
      destruct (sort_insert_completion comparefn_completion x sl) as [rest|e1];
        cbn [mbind Completion_bind]; [discriminate|].
      intros [= <-]. now apply IH.
    - intros [= <-]. now apply Hcmp in E. }
  induction l as [|x l IH]; [discriminate|].
  rewrite Array_sort_completion_cons.
  destruct (Array_sort_completion comparefn_completion l) as [sl|e1];
    cbn [mbind Completion_bind].
  - apply Hins.
  - intros [= <-]. now apply IH.
Qed.

End SortCompletionFacts.

Section RowSortCompletionFacts.
Variable h : Host.

Lemma newest_first_completion_sound (a b : value) (n : num) :
  newest_first_completion h a b = Normal n -> n = newest_first h a b.
Proof.
  unfold newest_first_completion, newest_first.
  destruct (rowTimestamp_completion h b) as [tb|e] eqn:Eb;
    cbn [mbind Completion_bind]; [|discriminate].
  destruct (rowTimestamp_completion h a) as [ta|e] eqn:Ea;
    cbn [mbind Completion_bind]; [|discriminate].
  apply rowTimestamp_completion_sound in Ea, Eb. subst. now intros [= <-].
Qed.

Lemma newest_first_completion_returns (a b : value) :
  rowTimestamp_throws h a = false -> rowTimestamp_throws h b = false ->
  exists n, newest_first_completion h a b = Normal n.
Proof.
  intros Ha Hb. unfold newest_first_completion.
  rewrite !rowTimestamp_completion_cases, Ha, Hb. cbn [mbind Completion_bind]. eauto.
Qed.

Lemma newest_first_completion_throws (a b e : value) :
  newest_first_completion h a b = Throw e -> e = TypeError.
Proof.
  unfold newest_first_completion. rewrite !rowTimestamp_completion_cases.
  destruct (rowTimestamp_throws h b); cbn [mbind Completion_bind]; [now intros [= <-]|].
  destruct (rowTimestamp_throws h a); cbn [mbind Completion_bind]; [now intros [= <-]|discriminate].
Qed.

(** What [sortRowsDesc_completion] returns is what [sortRowsDesc] says. *)
Lemma sortRowsDesc_completion_sound (rows : value) (out : list value) :
  sortRowsDesc_completion h rows = Normal out -> out = sortRowsDesc h rows.
Proof.
  unfold sortRowsDesc_completion, sortRowsDesc. destruct rows; try (now intros [= <-]).
  apply Array_sort_completion_sound. apply newest_first_completion_sound.
Qed.

Lemma sortRowsDesc_completion_returns (items : list value) :
  Forall (fun r => rowTimestamp_throws h r = false) items ->
  sortRowsDesc_completion h (VArr items) = Normal (sortRowsDesc h (VArr items)).
Proof.
  intros Hitems.
  destruct (Array_sort_completion_returns (newest_first_completion h)
              (fun r => rowTimestamp_throws h r = false)
              (newest_first_completion_returns) items Hitems) as [out Hout].
  change (sortRowsDesc_completion h (VArr items) = Normal out) in Hout.
  now rewrite Hout, (sortRowsDesc_completion_sound _ _ Hout).
Qed.

Lemma sortRowsDesc_completion_throws (rows e : value) :
  sortRowsDesc_completion h rows = Throw e -> e = TypeError.
Proof.
  unfold sortRowsDesc_completion. destruct rows; try discriminate.
  apply Array_sort_completion_throws. apply newest_first_completion_throws.
Qed.

End RowSortCompletionFacts.

(** *** The sorted copy in the store *)





(** C2.  A row whose id is a text that is no numeral and that has no
    time field gets the timestamp NaN; between an older row before it and
    a newer row after it, [sortRowsDesc] leaves all three where they
    were, the older row first.  The scenario of the claim does come out
    newest first. *)
Theorem C2_row_without_number_breaks_descending_order (h : Host) (p : Props) :
  StringToNumber h "L-12" = NaN ->
  rowTimestamp h row_text_id = NaN
  /\ sortRowsDesc h (VArr [row_1000; row_text_id; row_2000])
     = [row_1000; row_text_id; row_2000]
  /\ JS.ltb (rowTimestamp h row_1000) (rowTimestamp h row_2000) = true
  /\ filteredLeft h (view (run h p initial_session [Mount None; Settles 0 scenario_response]))
     = [row_2000; row_1000].
Proof.
  intros Hnan.
  assert (Ht : rowTimestamp h row_text_id = NaN) by exact Hnan.
  split; [exact Ht|]. split; [|split; reflexivity].
  unfold sortRowsDesc, JS.Array_sort.
  change (fun a b => JS.sub (rowTimestamp h b) (rowTimestamp h a)) with (newest_first h).
  cbn [foldr JS.sort_insert].
  rewrite comes_after_older by discriminate. rewrite Ht.
  cbn [JS.ltb JS.sort_insert].
  rewrite comes_after_older by discriminate. rewrite Ht.
  now destruct (rowTimestamp h row_1000).
Qed.

(** C2, witness: on a host where no text is a numeral. *)
Lemma C2_row_without_number_breaks_descending_order_witness :
  rowTimestamp plain_host row_text_id = NaN
  /\ sortRowsDesc plain_host (VArr [row_1000; row_text_id; row_2000])
     = [row_1000; row_text_id; row_2000]
  /\ JS.ltb (rowTimestamp plain_host row_1000) (rowTimestamp plain_host row_2000) = true
  /\ filteredLeft plain_host
       (view (run plain_host default_props initial_session
                [Mount None; Settles 0 scenario_response]))
     = [row_2000; row_1000].
Proof.
  apply (C2_row_without_number_breaks_descending_order plain_host default_props).
  reflexivity.
Defined.

(** ** Lane fetches *)

Section FetchFacts.
Variable h : Host.

Lemma fetchLeft_cases (b : value) (o : Outcome) (v : View) (out : list LogEntry) :
  fetchLeft h b o v out =
    match o with
    | Rejected err =>
        Normal (v, (out ++ [{| level := error; label := "fetchLeft err";
                               detail := JS.or err?."message" err |}])%list)
    | Resolved r =>
        if usable r then
          Normal (set_buffer (JS.prop (JS.prop r "data") "buffer" ?? b)
                    (set_leftPending
                       (JS.or (JS.prop (JS.prop r "data") "pendingContainers") (VArr []))
                       (set_leftRows
                          (sortRowsDesc h (JS.or (JS.prop (JS.prop r "data") "rows") (VArr [])))
                          v)), out)
        else Normal (v, out)
    end.
Proof. now destruct o. Qed.

Lemma fetchRight_cases (b : value) (o : Outcome) (v : View) (out : list LogEntry) :
  fetchRight h b o v out =
    match o with
    | Rejected err =>
        Normal (v, (out ++ [{| level := error; label := "fetchRight err";
                               detail := JS.or err?."message" err |}])%list)
    | Resolved r =>
        if usable r then
          Normal (set_buffer (JS.prop (JS.prop r "data") "buffer" ?? b)
                    (set_rightPending
                       (JS.or (JS.prop (JS.prop r "data") "pendingContainers") (VArr []))
                       (set_rightRows
                          (sortRowsDesc h (JS.or (JS.prop (JS.prop r "data") "rows") (VArr [])))
                          v)),
                  (out ++ [{| level := log; label := ""; detail := r |}])%list)
        else Normal (v, (out ++ [{| level := log; label := ""; detail := r |}])%list)
    end.
Proof. now destruct o. Qed.

(** What a lane function leaves behind, for either lane: it completes
    normally, and it writes to nothing but its own lane and the buffer. *)
Lemma resume_normal (side : Side) (b : value) (o : Outcome) (v : View)
    (out : list LogEntry) :
  exists v' out',
    match side with Left => fetchLeft h | Right => fetchRight h end b o v out
    = Normal (v', out')
    /\ status v' = status v /\ query v' = query v
    /\ showTentativeOnly v' = showTentativeOnly v /\ pageSize v' = pageSize v
    /\ pageLeft v' = pageLeft v /\ pageRight v' = pageRight v
    /\ detailRow v' = detailRow v
    /\ (failed o = true -> v' = v)
    /\ match side with
       | Left => rightRows v' = rightRows v /\ rightPending v' = rightPending v
       | Right => leftRows v' = leftRows v /\ leftPending v' = leftPending v
       end.
Proof.
  destruct side; [rewrite fetchLeft_cases|rewrite fetchRight_cases];
    destruct o as [r|err]; simpl; try destruct (usable r); simpl;
    eexists _, _; (split; [reflexivity|]); repeat split; try reflexivity;
    try discriminate.
Qed.


(** On an outcome that is handled without an exception they are the
    lane functions of the section above. *)
Lemma fetch_completion_handled (side : Side) (b : value) (o : Outcome) (v : View)
    (out : list LogEntry) :
  handled h o ->
  match side with Left => fetchLeft_completion h | Right => fetchRight_completion h end
    b o v out
  = match side with Left => fetchLeft h | Right => fetchRight h end b o v out.
Proof.
  destruct side; unfold fetchLeft_completion, fetchRight_completion, fetchLeft, fetchRight;
    destruct o as [r|err]; cbn [await handled]; try reflexivity;
    (destruct (usable r); [|reflexivity]); intros Hsorted;
    destruct (Hsorted eq_refl) as [sorted E]; rewrite E;
    now rewrite (sortRowsDesc_completion_sound h _ _ E).
Qed.



End FetchFacts.

(** ** The session *)

Section SessionFacts.
Variable h : Host.
Variable p : Props.

(** Settling a request in two cases: no such request, or the lane
    function ran and the joins were told. *)
Lemma settle_cases (id : nat) (o : Outcome) (s : Session) :
  (inflight s !! id = None /\ settle h id o s = s)
  \/ (exists rq v' out',
        inflight s !! id = Some rq
        /\ match lane rq with Left => fetchLeft h | Right => fetchRight h end
             (closure_buffer rq) o (view s) (console s) = Normal (v', out')
        /\ settle h id o s
           = fulfil_joins id
               (set_console out' (set_view v' (set_inflight (delete id (inflight s)) s)))).
Proof.
  unfold settle. destruct (inflight s !! id) as [rq|]; [right|left; auto].
  destruct (resume_normal h (lane rq) (closure_buffer rq) o (view s) (console s))
    as (v' & out' & E & _).
  exists rq, v', out'. rewrite E. auto.
Qed.

(** A join that is fulfilled touches the status at most. *)
Lemma fulfil_joins_view (id : nat) (s : Session) :
  view (fulfil_joins id s) = view s
  \/ view (fulfil_joins id s) = set_status Ready (view s).
Proof. unfold fulfil_joins. destruct (existsb _ _); [right|left]; reflexivity. Qed.

Lemma fulfil_joins_frame (id : nat) (s : Session) :
  timers (fulfil_joins id s) = timers s /\ pollRef (fulfil_joins id s) = pollRef s
  /\ inflight (fulfil_joins id s) = inflight s
  /\ console (fulfil_joins id s) = console s.
Proof. unfold fulfil_joins. destruct (existsb _ _); repeat split. Qed.

Lemma settle_frame (id : nat) (o : Outcome) (s : Session) :
  timers (settle h id o s) = timers s /\ pollRef (settle h id o s) = pollRef s.
Proof.
  destruct (settle_cases id o s) as [[_ ->]|(rq & v' & out' & _ & _ & ->)]; [auto|].
  destruct (fulfil_joins_frame id
              (set_console out' (set_view v' (set_inflight (delete id (inflight s)) s))))
    as (-> & -> & _). auto.
Qed.


(** What settling does to the lane data, through the lane function. *)
Lemma settle_view (id : nat) (o : Outcome) (s : Session) (rq : Request) :
  inflight s !! id = Some rq ->
  exists v' out',
    match lane rq with Left => fetchLeft h | Right => fetchRight h end
      (closure_buffer rq) o (view s) (console s) = Normal (v', out')
    /\ leftRows (view (settle h id o s)) = leftRows v'
    /\ rightRows (view (settle h id o s)) = rightRows v'
    /\ leftPending (view (settle h id o s)) = leftPending v'
    /\ rightPending (view (settle h id o s)) = rightPending v'
    /\ buffer (view (settle h id o s)) = buffer v'.
Proof.
  intros Hrq.
  destruct (settle_cases id o s) as [[E _]|(rq' & v' & out' & E & Hrun & ->)];
    [congruence|].
  assert (rq' = rq) by congruence. subst rq'.
  exists v', out'. split; [exact Hrun|].
  destruct (fulfil_joins_view id
              (set_console out' (set_view v' (set_inflight (delete id (inflight s)) s))))
    as [-> | ->]; repeat split.
Qed.

End SessionFacts.

(** ** Socket events *)

Lemma update_dispatch (p : Props) (payload : value) (s : Session) :
  run_handler p OnUpdate payload s =
    match recognized_side payload with
    | Some Left => call_fetchLeft p (effect_buffer s) s
    | Some Right => call_fetchRight p (effect_buffer s) s
    | None => fetchAll p (effect_buffer s) ThenNothing s
    end.
Proof.
  unfold run_handler, recognized_side, side_is, fireFullRefresh, fireLeftRefresh,
    fireRightRefresh.
  destruct payload as [| |b|n|t|fields|items]; simpl; try reflexivity.
  - now destruct b.
  - now destruct n as [z| | |]; simpl; try destruct (Z.eqb z 0).
  - now destruct (String.eqb t "").
  - destruct (fields !! "side") as [[| |b|n|t|fs|its]|]; simpl; try reflexivity.
    destruct (String.eqb t "left"); [reflexivity|].
    now destruct (String.eqb t "right").
Qed.

(** C9.  On a live socket, an [update] event whose payload names the left
    lane issues one request, for the left lane, and nothing else; when
    that request settles, whatever the outcome, the right lane's rows and
    pending items are what they were.  Symmetrically for the right lane.
    A payload that is absent, or whose side is neither name, issues the
    two requests of a full refresh. *)
Theorem C9_update_event_refreshes_the_named_lane (h : Host) (p : Props) :
  (forall s sk payload,
      socketRef s = Some sk -> live sk = true -> listeners sk = registered ->
      step h p s (SocketEmits "update" payload) =
        match recognized_side payload with
        | Some Left => call_fetchLeft p (effect_buffer s) s
        | Some Right => call_fetchRight p (effect_buffer s) s
        | None => fetchAll p (effect_buffer s) ThenNothing s
        end)
  /\ (recognized_side (obj [("side", VStr "left")]) = Some Left
      /\ recognized_side (obj [("side", VStr "right")]) = Some Right
      /\ recognized_side VUndef = None
      /\ recognized_side VNull = None
      /\ recognized_side (obj []) = None
      /\ recognized_side (obj [("side", VStr "both")]) = None
      /\ recognized_side (VStr "left") = None)
  /\ (forall b s,
        view (call_fetchLeft p b s) = view s
        /\ inflight (call_fetchLeft p b s)
           = <[next_request s := {| url := leftSequenceUrl p; lane := Left;
                                    closure_buffer := b |}]> (inflight s))
  /\ (forall b s,
        view (call_fetchRight p b s) = view s
        /\ inflight (call_fetchRight p b s)
           = <[next_request s := {| url := rightSequenceUrl p; lane := Right;
                                    closure_buffer := b |}]> (inflight s))
  /\ (forall b k s,
        view (fetchAll p b k s) = view s
        /\ inflight (fetchAll p b k s)
           = <[S (next_request s) := {| url := rightSequenceUrl p; lane := Right;
                                        closure_buffer := b |}]>
               (<[next_request s := {| url := leftSequenceUrl p; lane := Left;
                                       closure_buffer := b |}]> (inflight s)))
  /\ (forall s id o rq,
        inflight s !! id = Some rq -> lane rq = Left ->
        rightRows (view (settle h id o s)) = rightRows (view s)
        /\ rightPending (view (settle h id o s)) = rightPending (view s))
  /\ (forall s id o rq,
        inflight s !! id = Some rq -> lane rq = Right ->
        leftRows (view (settle h id o s)) = leftRows (view s)
        /\ leftPending (view (settle h id o s)) = leftPending (view s)).
Proof.
  split; [|split; [|split; [|split; [|split; [|split]]]]].
  - intros s sk payload Hsk Hlive Hreg. cbn [step]. rewrite Hsk, Hlive.
    unfold deliver. rewrite Hreg.
    change (registered !! "update") with (Some OnUpdate).
    change (heard "update" sk s) with s.
    apply update_dispatch.
  - repeat split.
  - intros b s. split; reflexivity.
  - intros b s. split; reflexivity.
  - intros b k s. split; reflexivity.
  - intros s id o rq Hrq Hlane.
    destruct (settle_view h id o s rq Hrq) as (v' & out' & Hrun & _ & -> & _ & -> & _).
    destruct (resume_normal h (lane rq) (closure_buffer rq) o (view s) (console s))
      as (v'' & out'' & Hrun' & Hrest).
    rewrite Hrun in Hrun'. injection Hrun' as <- <-.
    rewrite Hlane in Hrest. apply Hrest.
  - intros s id o rq Hrq Hlane.
    destruct (settle_view h id o s rq Hrq) as (v' & out' & Hrun & -> & _ & -> & _).
    destruct (resume_normal h (lane rq) (closure_buffer rq) o (view s) (console s))
      as (v'' & out'' & Hrun' & Hrest).
    rewrite Hrun in Hrun'. injection Hrun' as <- <-.
    rewrite Hlane in Hrest. apply Hrest.
Qed.

(** C9, witness: the event [update {side: 'left'}] right after a mount
    whose socket came up. *)
Lemma C9_update_event_refreshes_the_named_lane_witness :
  step plain_host default_props (step plain_host default_props initial_session (Mount None))
    (SocketEmits "update" (obj [("side", VStr "left")]))
  = call_fetchLeft default_props VNull
      (step plain_host default_props initial_session (Mount None)).
Proof.
  exact (proj1 (C9_update_event_refreshes_the_named_lane plain_host default_props)
           (step plain_host default_props initial_session (Mount None))
           {| listeners := registered; live := true; connected := false |}
           (obj [("side", VStr "left")]) eq_refl eq_refl eq_refl).
Defined.

(** ** The polling timer *)

Section TimerFacts.
Variable h : Host.
Variable p : Props.

Lemma setStatus_frame (st : Status) (s : Session) :
  timers (setStatus st s) = timers s /\ pollRef (setStatus st s) = pollRef s.
Proof. split; reflexivity. Qed.

Lemma console_add_frame (lv : Level) (text : string) (d : value) (s : Session) :
  timers (console_add lv text d s) = timers s
  /\ pollRef (console_add lv text d s) = pollRef s.
Proof. split; reflexivity. Qed.

Lemma fetchAll_frame (b : value) (k : Then) (s : Session) :
  timers (fetchAll p b k s) = timers s /\ pollRef (fetchAll p b k s) = pollRef s.
Proof. split; reflexivity. Qed.

(** The part of the effect that runs before the socket is set up. *)
Lemma effect_timers (io : option value) (s : Session) :
  exists s0, timers s0 = timers s /\ pollRef s0 = pollRef s
             /\ timers (effect p io s)
                = match io with Some _ => timers (startPolling p s0) | None => timers s end
             /\ pollRef (effect p io s)
                = match io with Some _ => pollRef (startPolling p s0) | None => pollRef s end.
Proof.
  destruct io as [err|].
  - eexists. split; [|split; [|split]].
    3: unfold effect; cbv zeta; apply (proj1 (setStatus_frame _ _)).
    3: unfold effect; cbv zeta; apply (proj2 (setStatus_frame _ _)).
    all: reflexivity.
  - exists s. split; [|split; [|split]]; reflexivity.
Qed.

Lemma heard_frame (name : string) (sk : Socket) (s : Session) :
  timers (heard name sk s) = timers s /\ pollRef (heard name sk s) = pollRef s
  /\ view (heard name sk s) = view s /\ inflight (heard name sk s) = inflight s
  /\ next_request (heard name sk s) = next_request s
  /\ effect_buffer (heard name sk s) = effect_buffer s
  /\ mounted (heard name sk s) = mounted s
  /\ next_timer (heard name sk s) = next_timer s.
Proof.
  unfold heard. destruct (String.eqb name "connect"); [repeat split|].
  destruct (String.eqb name "disconnect"); repeat split.
Qed.

Lemma cleanup_local_frame (s : Session) :
  timers (cleanup_local s)
  = match pollRef s with Some id => delete id (timers s) | None => timers s end
  /\ pollRef (cleanup_local s) = pollRef s.
Proof.
  unfold cleanup_local. cbv zeta. cbn [pollRef set_mounted].
  destruct (pollRef s) eqn:Hp; split; try reflexivity; exact Hp.
Qed.

Lemma startPolling_idempotent (s : Session) :
  startPolling p (startPolling p s) = startPolling p s.
Proof.
  unfold startPolling at 2 3.
  destruct (pollRef s) eqn:Hs.
  - unfold startPolling. now rewrite Hs.
  - reflexivity.
Qed.

Lemma startPolling_one_timer (s : Session) : one_timer s -> one_timer (startPolling p s).
Proof.
  intros Hs. unfold startPolling.
  destruct (pollRef s) eqn:Hp; [exact Hs|].
  intros id ms. simpl. intros Hid.
  destruct (decide (next_timer s = id)) as [->|Hne]; [reflexivity|].
  rewrite lookup_insert_ne in Hid by exact Hne.
  specialize (Hs id ms Hid). congruence.
Qed.

(** A timer that is live stays live, with its delay, when polling is
    asked for again. *)
Lemma startPolling_keeps (s : Session) (id : positive) (ms : Z) :
  one_timer s -> timers s !! id = Some ms -> timers (startPolling p s) !! id = Some ms.
Proof.
  intros Hs Hid. unfold startPolling.
  destruct (pollRef s) eqn:Hp; [exact Hid|].
  specialize (Hs id ms Hid). congruence.
Qed.

(** Reading the effect of a step on the timer and on [pollRef]. *)
Lemma run_handler_timers (hd : Handler) (payload : value) (s : Session) :
  (timers (run_handler p hd payload s) = timers s
   /\ pollRef (run_handler p hd payload s) = pollRef s)
  \/ (exists s0, timers s0 = timers s /\ pollRef s0 = pollRef s
                 /\ timers (run_handler p hd payload s) = timers (startPolling p s0)
                 /\ pollRef (run_handler p hd payload s) = pollRef (startPolling p s0)).
Proof.
  destruct hd; simpl; try (left; split; reflexivity).
  - destruct (pollRef s) eqn:Hp; [left; split; [reflexivity|exact Hp]|].
    right. exists (console_add warn "socket connect_error" (JS.or payload?."message" payload) s).
    repeat split; simpl; auto.
  - destruct (pollRef s) eqn:Hp; [left; split; [reflexivity|exact Hp]|].
    right. exists (console_add warn "socket disconnected" payload s).
    repeat split; simpl; auto.
  - left. destruct (negb (JS.truthy payload)); [split; reflexivity|].
    destruct (side_is payload "left"); [split; reflexivity|].
    destruct (side_is payload "right"); split; reflexivity.
Qed.

Lemma one_timer_transfer (s s' : Session) :
  timers s' = timers s -> pollRef s' = pollRef s -> one_timer s -> one_timer s'.
Proof. unfold one_timer. intros -> ->. auto. Qed.

Lemma export_frame (side : Side) (s : Session) :
  timers (export h side s) = timers s /\ pollRef (export h side s) = pollRef s.
Proof.
  unfold export. destruct side; cbv zeta beta iota;
    match goal with |- context [downloadCsv h ?r ?n] => destruct (downloadCsv h r n) as [[d|]|] end;
    split; reflexivity.
Qed.

Lemma startPolling_noop (s : Session) (id : positive) :
  pollRef s = Some id -> startPolling p s = s.
Proof. intros Hs. unfold startPolling. now rewrite Hs. Qed.

Lemma run_handler_one_timer (hd : Handler) (payload : value) (s : Session) :
  one_timer s -> one_timer (run_handler p hd payload s).
Proof.
  intros Hs.
  destruct (run_handler_timers hd payload s) as [[Ht Hp]|(s0 & Ht & Hp & Ht' & Hp')].
  - now apply (one_timer_transfer s).
  - apply (one_timer_transfer (startPolling p s0)); [exact Ht'|exact Hp'|].
    apply startPolling_one_timer. now apply (one_timer_transfer s s0).
Qed.

Lemma run_handler_keeps (hd : Handler) (payload : value) (s : Session)
    (id : positive) (ms : Z) :
  one_timer s -> timers s !! id = Some ms ->
  timers (run_handler p hd payload s) !! id = Some ms.
Proof.
  intros Hs Hid.
  destruct (run_handler_timers hd payload s) as [[-> _]|(s0 & Ht & Hp & -> & _)];
    [exact Hid|].
  apply startPolling_keeps; [|now rewrite Ht].
  now apply (one_timer_transfer s s0).
Qed.

(** Once polling was started, no listener starts or stops a timer. *)
Lemma run_handler_polling (hd : Handler) (payload : value) (s : Session) (id : positive) :
  pollRef s = Some id ->
  timers (run_handler p hd payload s) = timers s
  /\ pollRef (run_handler p hd payload s) = Some id.
Proof.
  intros Hs.
  destruct (run_handler_timers hd payload s) as [[-> ->]|(s0 & Ht & Hp & -> & ->)];
    [auto|].
  rewrite (startPolling_noop s0 id) by congruence. split; congruence.
Qed.

Lemma heard_one_timer (name : string) (sk : Socket) (s : Session) :
  one_timer s -> one_timer (heard name sk s).
Proof.
  destruct (heard_frame name sk s) as (Ht & Hp & _). now apply (one_timer_transfer s).
Qed.

Lemma deliver_one_timer (name : string) (payload : value) (sk : Socket) (s : Session) :
  one_timer s -> one_timer (deliver p name payload sk s).
Proof.
  intros Hs. apply (heard_one_timer name sk) in Hs. unfold deliver.
  destruct (listeners sk !! name); [now apply run_handler_one_timer|exact Hs].
Qed.

Lemma deliver_keeps (name : string) (payload : value) (sk : Socket) (s : Session)
    (id : positive) (ms : Z) :
  one_timer s -> timers s !! id = Some ms ->
  timers (deliver p name payload sk s) !! id = Some ms.
Proof.
  intros Hs Hid. apply (heard_one_timer name sk) in Hs.
  rewrite <- (proj1 (heard_frame name sk s)) in Hid. unfold deliver.
  destruct (listeners sk !! name); [now apply run_handler_keeps|exact Hid].
Qed.

(** What the cleanup comes to: its own two lines and the marking of the
    socket, after which the [disconnect] listener may run. *)
Lemma cleanup_cases (s : Session) :
  exists s1,
    (timers s1 = timers (cleanup_local s) /\ pollRef s1 = pollRef s
     /\ next_timer s1 = next_timer s /\ view s1 = view s
     /\ mounted s1 = <[pred (length (mounted s)) := false]> (mounted s)
     /\ socketRef s1 = option_map disconnected (socketRef s)
     /\ effect_buffer s1 = effect_buffer s /\ inflight s1 = inflight s
     /\ next_request s1 = next_request s)
    /\ (cleanup p s = s1
        \/ exists sk hd,
             socketRef s = Some sk /\ live sk = true /\ connected sk = true
             /\ listeners sk !! "disconnect" = Some hd
             /\ cleanup p s = run_handler p hd (VStr "io client disconnect") s1).
Proof.
  exists (set_socketRef (option_map disconnected (socketRef s)) (cleanup_local s)).
  destruct s as [v out m pr [sk|] ts nt fl nr js eb ds].
  - split; [destruct pr; repeat split|].
    unfold cleanup, cleanup_local, disconnect. cbv zeta.
    destruct pr as [id|]; cbn [pollRef socketRef set_mounted set_timers option_map];
      destruct (live sk) eqn:Hl; destruct (connected sk) eqn:Hc; cbn [andb];
      try (left; reflexivity);
      (destruct (listeners sk !! "disconnect") as [hd|] eqn:Hd; [right|left; reflexivity]);
      exists sk, hd; repeat split; assumption.
  - split; [destruct pr; repeat split|]. left. destruct pr; reflexivity.
Qed.

Lemma cleanup_cases_timers (s : Session) :
  exists s1,
    timers s1 = timers (cleanup_local s) /\ pollRef s1 = pollRef (cleanup_local s)
    /\ (cleanup p s = s1
        \/ exists hd, cleanup p s = run_handler p hd (VStr "io client disconnect") s1).
Proof.
  destruct (cleanup_cases s) as (s1 & (Ht & Hp & _) & Hc).
  exists s1. split; [exact Ht|]. split.
  - now rewrite (proj2 (cleanup_local_frame s)).
  - destruct Hc as [Hc|(sk & hd & _ & _ & _ & _ & Hc)]; [now left|right; now exists hd].
Qed.

Lemma cleanup_local_one_timer (s : Session) : one_timer s -> one_timer (cleanup_local s).
Proof.
  intros Hs id ms. destruct (cleanup_local_frame s) as [-> ->].
  destruct (pollRef s) as [t|] eqn:Hp.
  - destruct (decide (t = id)) as [->|Hne]; [now rewrite lookup_delete_eq|].
    rewrite lookup_delete_ne by exact Hne. intros Hid.
    specialize (Hs id ms Hid). congruence.
  - intros Hid. specialize (Hs id ms Hid). congruence.
Qed.

Lemma cleanup_one_timer (s : Session) : one_timer s -> one_timer (cleanup p s).
Proof.
  intros Hs. apply cleanup_local_one_timer in Hs.
  destruct (cleanup_cases_timers s) as (s1 & Ht & Hp & [-> | [hd ->]]).
  - now apply (one_timer_transfer (cleanup_local s)).
  - apply run_handler_one_timer. now apply (one_timer_transfer (cleanup_local s)).
Qed.

(** Every step but the cleanup keeps a live timer live. *)
Lemma step_keeps_timer (s : Session) (e : Event) (id : positive) (ms : Z) :
  one_timer s -> e <> Unmount ->
  timers s !! id = Some ms -> timers (step h p s e) !! id = Some ms.
Proof.
  intros Hs He Hid.
  destruct e as [io| |name payload|t|rq o|text|checked|n| |side|[]|[]|row|];
    cbn [step]; try exact Hid; try (now elim He).
  - destruct (effect_timers io s) as (s0 & Ht & Hp & -> & _).
    destruct io as [err|]; [|exact Hid].
    apply startPolling_keeps; [|now rewrite Ht].
    now apply (one_timer_transfer s s0).
  - destruct (socketRef s) as [sk|]; [|exact Hid].
    destruct (live sk); [|exact Hid].
    now apply deliver_keeps.
  - destruct (timers s !! t); exact Hid.
  - now rewrite (proj1 (settle_frame h rq o s)).
  - now rewrite (proj1 (export_frame side s)).
  - destruct (pageLeft (view s) =? 0)%nat; exact Hid.
  - destruct (pageRight (view s) =? 0)%nat; exact Hid.
  - destruct (_ <=? _)%nat; exact Hid.
  - destruct (_ <=? _)%nat; exact Hid.
Qed.

Lemma step_one_timer (s : Session) (e : Event) : one_timer s -> one_timer (step h p s e).
Proof.
  intros Hs.
  destruct e as [io| |name payload|t|rq o|text|checked|n| |side|[]|[]|row|];
    cbn [step]; try exact Hs.
  - destruct (effect_timers io s) as (s0 & Ht & Hp & Ht' & Hp').
    destruct io as [err|]; [|now apply (one_timer_transfer s)].
    apply (one_timer_transfer (startPolling p s0)); [exact Ht'|exact Hp'|].
    apply startPolling_one_timer. now apply (one_timer_transfer s s0).
  - now apply cleanup_one_timer.
  - destruct (socketRef s) as [sk|]; [|exact Hs].
    destruct (live sk); [|exact Hs].
    now apply deliver_one_timer.
  - destruct (timers s !! t); exact Hs.
  - destruct (settle_frame h rq o s) as [Ht Hp]. now apply (one_timer_transfer s).
  - destruct (export_frame side s) as [Ht Hp]. now apply (one_timer_transfer s).
  - destruct (pageLeft (view s) =? 0)%nat; exact Hs.
  - destruct (pageRight (view s) =? 0)%nat; exact Hs.
  - destruct (_ <=? _)%nat; exact Hs.
  - destruct (_ <=? _)%nat; exact Hs.
Qed.

Lemma run_snoc (s : Session) (trace : list Event) (e : Event) :
  run h p s (trace ++ [e]) = step h p (run h p s trace) e.
Proof. unfold run. now rewrite fold_left_app. Qed.

Lemma run_one_timer (trace : list Event) : one_timer (run h p initial_session trace).
Proof.
  induction trace as [|e trace IH] using rev_ind.
  - intros id ms. simpl. now rewrite lookup_empty.
  - rewrite run_snoc. now apply step_one_timer.
Qed.

Lemma one_timer_other (s : Session) (i : positive) :
  one_timer s -> pollRef s <> Some i -> timers s !! i = None.
Proof.
  intros Hs Hp. destruct (timers s !! i) as [x|] eqn:Hi; [|reflexivity].
  now elim Hp; apply (Hs i x).
Qed.

Lemma one_timer_size (s : Session) : one_timer s -> (size (timers s) <= 1)%nat.
Proof.
  intros Hs. destruct (pollRef s) as [t|] eqn:Hp.
  - destruct (timers s !! t) as [ms|] eqn:Ht.
    + assert (E : timers s = {[t := ms]}).
      { apply map_eq. intros i. destruct (decide (t = i)) as [<-|Hne].
        - now rewrite lookup_singleton_eq.
        - rewrite lookup_singleton_ne by exact Hne.
          apply one_timer_other; [exact Hs|congruence]. }
      rewrite E, map_size_singleton. lia.
    + assert (E : timers s = ∅).
      { apply map_empty. intros i. destruct (decide (t = i)) as [<-|Hne]; [exact Ht|].
        apply one_timer_other; [exact Hs|congruence]. }
      rewrite E, map_size_empty. lia.
  - assert (E : timers s = ∅).
    { apply map_empty. intros i. apply one_timer_other; [exact Hs|congruence]. }
    rewrite E, map_size_empty. lia.
Qed.

(** The cleanup clears the timer that polling had started, and nothing
    it calls starts another. *)
Lemma cleanup_clears (s : Session) (id : positive) :
  one_timer s -> pollRef s = Some id ->
  timers (cleanup p s) = ∅ /\ pollRef (cleanup p s) = Some id.
Proof.
  intros Hs Hp.
  assert (Hl : timers (cleanup_local s) = ∅ /\ pollRef (cleanup_local s) = Some id).
  { destruct (cleanup_local_frame s) as [-> ->]. rewrite Hp. split; [|reflexivity].
    apply map_empty. intros i.
    destruct (decide (id = i)) as [->|Hne]; [now rewrite lookup_delete_eq|].
    rewrite lookup_delete_ne by exact Hne.
    apply one_timer_other; [exact Hs|congruence]. }
  destruct Hl as [Hlt Hlp].
  destruct (cleanup_cases_timers s) as (s1 & Ht & Hp1 & [-> | [hd ->]]).
  - split; congruence.
  - destruct (run_handler_polling hd (VStr "io client disconnect") s1 id) as [-> ->];
      [congruence|]. split; congruence.
Qed.

End TimerFacts.

Section TeardownFacts.
Variable h : Host.
Variable p : Props.

(** [pollRef], once set, is never written again, and from then on no
    step starts a timer. *)
Lemma step_pollRef_kept (s : Session) (e : Event) (id : positive) :
  pollRef s = Some id ->
  pollRef (step h p s e) = Some id
  /\ (forall t ms, timers (step h p s e) !! t = Some ms -> timers s !! t = Some ms).
Proof.
  intros Hs.
  destruct e as [io| |name payload|t|rq o|text|checked|n| |side|[]|[]|row|];
    cbn [step]; try (split; [exact Hs|intros t0 ms Ht; exact Ht]).
  - destruct (effect_timers p io s) as (s0 & Ht & Hp & -> & ->).
    destruct io as [err|]; [|split; [exact Hs|auto]].
    rewrite (startPolling_noop p s0 id) by congruence.
    rewrite Ht, Hp. auto.
  - assert (Hl : pollRef (cleanup_local s) = Some id
                 /\ forall t ms, timers (cleanup_local s) !! t = Some ms ->
                                 timers s !! t = Some ms).
    { destruct (cleanup_local_frame s) as [-> ->]. rewrite Hs. split; [reflexivity|].
      intros t ms Ht. destruct (decide (id = t)) as [->|Hne].
      - now rewrite lookup_delete_eq in Ht.
      - now rewrite lookup_delete_ne in Ht. }
    destruct Hl as [Hlp Hlt].
    destruct (cleanup_cases_timers p s) as (s1 & Ht & Hp1 & [-> | [hd ->]]).
    + rewrite Ht, Hp1. auto.
    + destruct (run_handler_polling p hd (VStr "io client disconnect") s1 id) as [-> ->];
        [congruence|].
      rewrite Ht. auto.
  - destruct (socketRef s) as [sk|]; [|split; [exact Hs|auto]].
    destruct (live sk); [|split; [exact Hs|auto]].
    destruct (heard_frame name sk s) as (Ht & Hp & _). unfold deliver.
    destruct (listeners sk !! name) as [hd|]; [|rewrite Ht, Hp; auto].
    destruct (run_handler_polling p hd payload (heard name sk s) id) as [-> ->];
      [congruence|].
    rewrite Ht. auto.
  - destruct (timers s !! t); split; try exact Hs; auto.
  - destruct (settle_frame h rq o s) as [-> ->]. auto.
  - destruct (export_frame h side s) as [-> ->]. auto.
  - destruct (pageLeft (view s) =? 0)%nat; split; try exact Hs; auto.
  - destruct (pageRight (view s) =? 0)%nat; split; try exact Hs; auto.
  - destruct (_ <=? _)%nat; split; try exact Hs; auto.
  - destruct (_ <=? _)%nat; split; try exact Hs; auto.
Qed.

Lemma run_cons (s : Session) (e : Event) (trace : list Event) :
  run h p s (e :: trace) = run h p (step h p s e) trace.
Proof. reflexivity. Qed.

Lemma run_pollRef_kept (s : Session) (trace : list Event) (id : positive) :
  pollRef s = Some id -> timers s = ∅ ->
  pollRef (run h p s trace) = Some id /\ timers (run h p s trace) = ∅.
Proof.
  revert s. induction trace as [|e trace IH]; intros s Hp Ht; [auto|].
  rewrite run_cons. destruct (step_pollRef_kept s e id Hp) as [Hp' Hsub].
  apply IH; [exact Hp'|].
  apply map_empty. intros t. destruct (timers (step h p s e) !! t) as [ms|] eqn:E; [|reflexivity].
  apply Hsub in E. rewrite Ht, lookup_empty in E. discriminate.
Qed.

Lemma run_pollRef_set (s : Session) (trace : list Event) (id : positive) :
  pollRef s = Some id -> pollRef (run h p s trace) = Some id.
Proof.
  revert s. induction trace as [|e trace IH]; intros s Hp; [exact Hp|].
  rewrite run_cons. apply IH. now apply step_pollRef_kept.
Qed.

End TeardownFacts.

(** C10.  When [io(...)] throws, the mount leaves the status at
    [polling] and one interval timer of [pollInterval] milliseconds
    (5000 unless the prop is given) whose every firing calls [fetchAll]
    and leaves the timer running.  Asking for polling twice is asking
    once; a session never has two timers; no event other than the cleanup
    (a reconnect of the socket included) stops a running timer; the
    cleanup stops the timer that polling had started, so that after a
    setup that threw, whatever has happened since, the cleanup leaves no
    timer. *)
Theorem C10_polling_fallback_has_one_timer (h : Host) (p : Props) :
  (forall err,
      let s := step h p initial_session (Mount (Some err)) in
      status (view s) = Polling
      /\ pollRef s = Some 1%positive
      /\ timers s = {[1%positive := pollInterval p]})
  /\ (pollInterval default_props = 5000
      /\ forall ms l r,
           pollInterval {| given_pollInterval := Some ms; given_leftSequenceUrl := l;
                           given_rightSequenceUrl := r |} = ms)
  /\ (forall s id ms,
        timers s !! id = Some ms ->
        step h p s (TimerFires id) = fetchAll p (effect_buffer s) ThenNothing s
        /\ timers (step h p s (TimerFires id)) = timers s)
  /\ (forall s, startPolling p (startPolling p s) = startPolling p s)
  /\ (forall trace, (size (timers (run h p initial_session trace)) <= 1)%nat)
  /\ (forall trace e id ms,
        e <> Unmount ->
        timers (run h p initial_session trace) !! id = Some ms ->
        timers (step h p (run h p initial_session trace) e) !! id = Some ms)
  /\ (forall trace id,
        pollRef (run h p initial_session trace) = Some id ->
        timers (step h p (run h p initial_session trace) Unmount) = ∅)
  /\ (forall err trace,
        timers (step h p (run h p initial_session (Mount (Some err) :: trace)) Unmount) = ∅).
Proof.
  split; [|split; [|split; [|split; [|split; [|split; [|split]]]]]].
  - intros err. repeat split.
  - split; reflexivity.
  - intros s id ms Hid. cbn [step]. rewrite Hid. split; reflexivity.
  - apply startPolling_idempotent.
  - intros trace. apply one_timer_size, run_one_timer.
  - intros trace e id ms He Hid. apply step_keeps_timer; [apply run_one_timer|exact He|exact Hid].
  - intros trace id Hp. cbn [step].
    apply (cleanup_clears p (run h p initial_session trace) id); [apply run_one_timer|exact Hp].
  - intros err trace. cbn [step].
    apply (cleanup_clears p (run h p initial_session (Mount (Some err) :: trace)) 1%positive);
      [apply run_one_timer|].
    rewrite run_cons. now apply run_pollRef_set.
Qed.

(** C10, witness: the timer started by a failed socket setup is still
    running after the socket later reports a connection. *)
Lemma C10_polling_fallback_has_one_timer_witness :
  timers (step plain_host default_props
            (run plain_host default_props initial_session [Mount (Some (VStr "no transport"))])
            (SocketEmits "connect" VUndef)) !! 1%positive = Some 5000.
Proof.
  apply (proj1 (proj2 (proj2 (proj2 (proj2 (proj2
           (C10_polling_fallback_has_one_timer plain_host default_props))))))).
  - discriminate.
  - reflexivity.
Defined.

(** ** The shared buffer *)

(** C8.  A lane function replaces the buffer by the response's buffer,
    and, when the response has none, by the [buffer] of its own closure;
    a failed fetch leaves the buffer alone.  For the fetches the socket,
    the timer and the mount start, that closure is the one of the first
    render, whose [buffer] is [null]: after a response has set the buffer
    to B1, a left-lane refresh asked for by the socket and answered
    without a buffer sets it back to [null]. *)
Theorem C8_refresh_without_buffer_clears_it (h : Host) (p : Props) :
  (forall b r v out,
      exists v' out',
        fetchLeft h b (Resolved r) v out = Normal (v', out')
        /\ buffer v' = if usable r then JS.prop (JS.prop r "data") "buffer" ?? b
                       else buffer v)
  /\ (forall b r v out,
        exists v' out',
          fetchRight h b (Resolved r) v out = Normal (v', out')
          /\ buffer v' = if usable r then JS.prop (JS.prop r "data") "buffer" ?? b
                         else buffer v)
  /\ (forall b err v out,
        exists out', fetchLeft h b (Rejected err) v out = Normal (v, out'))
  /\ (forall b err v out,
        exists out', fetchRight h b (Rejected err) v out = Normal (v, out'))
  /\ (let s := run h p initial_session
                 [Mount None; Settles 0 scenario_response;
                  Settles 1 (Rejected (VStr "timeout"));
                  SocketEmits "sequence:left:changed" VUndef] in
      buffer (view s) = VStr "B1"
      /\ inflight s !! 2%nat
         = Some {| url := leftSequenceUrl p; lane := Left; closure_buffer := VNull |}
      /\ buffer (view (step h p s (Settles 2 (response [("rows", VArr [row_1000])]))))
         = VNull).
Proof.
  split; [|split; [|split; [|split]]].
  - intros b r v out. rewrite fetchLeft_cases.
    destruct (usable r); eexists _, _; split; reflexivity.
  - intros b r v out. rewrite fetchRight_cases.
    destruct (usable r); eexists _, _; split; reflexivity.
  - intros b err v out. eexists. reflexivity.
  - intros b err v out. eexists. reflexivity.
  - vm_compute. repeat split.
Qed.

(** ** Failures and the full refresh *)

Section RefreshFacts.
Variable h : Host.
Variable p : Props.

Lemma settle_known (id : nat) (o : Outcome) (s : Session) (rq : Request) :
  inflight s !! id = Some rq ->
  exists v' out',
    status v' = status (view s)
    /\ settle h id o s
       = fulfil_joins id
           (set_console out' (set_view v' (set_inflight (delete id (inflight s)) s))).
Proof.
  intros Hrq.
  destruct (settle_cases h id o s) as [[E _]|(rq' & v' & out' & E & Hrun & ->)];
    [congruence|].
  destruct (resume_normal h (lane rq') (closure_buffer rq') o (view s) (console s))
    as (v'' & out'' & Hrun' & Hst & _).
  rewrite Hrun in Hrun'. injection Hrun' as <- <-.
  now exists v', out'.
Qed.


(** A usable response replaces the rows and pending items of its lane. *)
Lemma settle_usable (id : nat) (r : value) (s : Session) (rq : Request) :
  inflight s !! id = Some rq -> usable r = true ->
  match lane rq with
  | Left =>
      leftRows (view (settle h id (Resolved r) s))
      = sortRowsDesc h (JS.or (JS.prop (JS.prop r "data") "rows") (VArr []))
      /\ leftPending (view (settle h id (Resolved r) s))
         = JS.or (JS.prop (JS.prop r "data") "pendingContainers") (VArr [])
  | Right =>
      rightRows (view (settle h id (Resolved r) s))
      = sortRowsDesc h (JS.or (JS.prop (JS.prop r "data") "rows") (VArr []))
      /\ rightPending (view (settle h id (Resolved r) s))
         = JS.or (JS.prop (JS.prop r "data") "pendingContainers") (VArr [])
  end.
Proof.
  intros Hrq Hok.
  destruct (settle_view h id (Resolved r) s rq Hrq)
    as (v' & out' & Hrun & -> & -> & -> & -> & _).
  destruct (lane rq);
    [rewrite fetchLeft_cases in Hrun|rewrite fetchRight_cases in Hrun];
    rewrite Hok in Hrun; injection Hrun as <- _; split; reflexivity.
Qed.

(** The first refresh: the status waits for the second of the two lane
    fetches, whichever that is and however each of them ends. *)
Lemma first_refresh_waits (io : option value) (oL oR : Outcome) :
  let s := step h p initial_session (Mount io) in
  joins s = [{| waiting := [0; 1]%nat; continuation := ThenReady 0 |}]
  /\ status (view (step h p s (Settles 0 oL))) = status (view s)
  /\ status (view (step h p s (Settles 1 oR))) = status (view s)
  /\ status (view (run h p s [Settles 0 oL; Settles 1 oR])) = Ready
  /\ status (view (run h p s [Settles 1 oR; Settles 0 oL])) = Ready.
Proof.
  intros s. split; [now destruct io|].
  assert (HL : inflight s !! 0%nat
               = Some {| url := leftSequenceUrl p; lane := Left; closure_buffer := VNull |})
    by now destruct io.
  assert (HR : inflight s !! 1%nat
               = Some {| url := rightSequenceUrl p; lane := Right; closure_buffer := VNull |})
    by now destruct io.
  destruct (settle_known 0 oL s _ HL) as (vL & outL & HstL & EL).
  destruct (settle_known 1 oR s _ HR) as (vR & outR & HstR & ER).
  cbn [run fold_left step]. rewrite EL, ER.
  split; [rewrite <- HstL; now destruct io|].
  split; [rewrite <- HstR; now destruct io|].
  split.
  - match goal with |- context [settle h 1 oR ?s0] =>
      destruct (settle_known 1 oR s0
                  {| url := rightSequenceUrl p; lane := Right; closure_buffer := VNull |})
        as (v2 & out2 & _ & ->); [now destruct io|]
    end.
    now destruct io.
  - match goal with |- context [settle h 0 oL ?s0] =>
      destruct (settle_known 0 oL s0
                  {| url := leftSequenceUrl p; lane := Left; closure_buffer := VNull |})
        as (v2 & out2 & _ & ->); [now destruct io|]
    end.
    now destruct io.
Qed.

Lemma settle_completion_handled (id : nat) (o : Outcome) (s : Session) :
  handled h o -> settle_completion h id o s = settle h id o s.
Proof.
  intros Ho. unfold settle_completion, settle.
  destruct (inflight s !! id) as [rq|]; [|reflexivity]. cbv zeta.
  now rewrite (fetch_completion_handled h (lane rq) _ o _ _ Ho).
Qed.





End RefreshFacts.




(** * Further properties *)

(** ** Sorting and the derived views *)

Lemma filter_sublist (f : value -> bool) (l : list value) : List.filter f l `sublist_of` l.
Proof.
  induction l as [|x l IH]; simpl; [constructor|].
  destruct (f x); now constructor.
Qed.

Lemma sublist_Forall_keep {A} (P : A -> Prop) (l' l : list A) :
  l' `sublist_of` l -> Forall P l -> Forall P l'.
Proof.
  induction 1 as [|x l1 l2 _ IH|x l1 l2 _ IH]; intros Hl; [constructor| |].
  - inversion Hl; subst. constructor; auto.
  - inversion Hl; subst. auto.
Qed.


Lemma slice_sublist {A} (a b : nat) (l : list A) : JS.slice a b l `sublist_of` l.
Proof.
  unfold JS.slice. etransitivity; [apply sublist_take|apply sublist_drop].
Qed.

(** X1.  On rows that are not [undefined] and whose timestamps are
    numbers, [sortRowsDesc] returns the same rows, none older before a
    newer one, and rows of equal timestamp in their input order. *)
Theorem X1_sortRowsDesc_newest_first_stable (h : Host) (items : list value) :
  Forall (placeable h) items ->
  Permutation items (sortRowsDesc h (VArr items))
  /\ (forall a b,
        precedes b a (sortRowsDesc h (VArr items)) ->
        JS.ltb (rowTimestamp h b) (rowTimestamp h a) = false)
  /\ (forall t,
        with_timestamp h t (sortRowsDesc h (VArr items)) = with_timestamp h t items).
Proof. apply sortRowsDesc_newest_first. Qed.

(** X1, witness: three rows, two of them with the same time. *)
Lemma X1_sortRowsDesc_newest_first_stable_witness :
  let items := [row_1000; row_2000; obj [("id", int 9); ("time", int 1000)]] in
  Permutation items (sortRowsDesc plain_host (VArr items))
  /\ (forall a b,
        precedes b a (sortRowsDesc plain_host (VArr items)) ->
        JS.ltb (rowTimestamp plain_host b) (rowTimestamp plain_host a) = false)
  /\ (forall t,
        with_timestamp plain_host t (sortRowsDesc plain_host (VArr items))
        = with_timestamp plain_host t items).
Proof.
  intros items. apply (X1_sortRowsDesc_newest_first_stable plain_host items).
  repeat constructor; discriminate.
Defined.

Lemma rows_convert_cases (h : Host) (items : list value) :
  Forall (fun r => rowTimestamp_throws h r = false) items
  \/ Exists (fun r => rowTimestamp_throws h r = true) items.
Proof.
  induction items as [|r items [IH|IH]]; [left; constructor| |right; now constructor].
  destruct (rowTimestamp_throws h r) eqn:Hr; [right|left]; now constructor.
Qed.

(** As soon as there are two rows, a row whose timestamp cannot be
    resolved makes the sort throw. *)
Lemma sortRowsDesc_completion_two_rows (h : Host) (items : list value) :
  (2 <= length items)%nat ->
  Forall (fun r => r <> VUndef) items ->
  Exists (fun r => rowTimestamp_throws h r = true) items ->
  sortRowsDesc_completion h (VArr items) = Throw TypeError.
Proof.
  unfold sortRowsDesc_completion.
  assert (Hcmp : forall x y, x <> VUndef -> y <> VUndef ->
                   rowTimestamp_throws h x = true \/ rowTimestamp_throws h y = true ->
                   SortCompare_completion (newest_first_completion h) x y = Throw TypeError).
  { intros x y Hx Hy Hthrows.
    assert (E : newest_first_completion h x y = Throw TypeError).
    { unfold newest_first_completion. rewrite !rowTimestamp_completion_cases.
      destruct (rowTimestamp_throws h y); [reflexivity|].
      destruct Hthrows as [->|?]; [reflexivity|discriminate]. }
    unfold SortCompare_completion. rewrite E. now destruct x, y. }
  induction items as [|x items IH]; intros Hlen Hdef Hex; [cbn in Hlen; lia|].
  rewrite Array_sort_completion_cons.
  apply Forall_cons in Hdef as [Hx Hdef].
  destruct (Array_sort_completion (newest_first_completion h) items) as [sl|e] eqn:Esl;
    cbn [mbind Completion_bind].
  - pose proof (Array_sort_completion_perm _ _ _ Esl) as Hperm.
    destruct sl as [|y sl].
    { apply Permutation_length in Hperm. cbn in Hlen, Hperm. lia. }
    assert (Hy : y <> VUndef).
    { apply (Forall_forall (fun r => r <> VUndef) items); [exact Hdef|].
      rewrite (elem_of_Permutation_proper _ _ _ Hperm). now left. }
    cbn [sort_insert_completion].
    enough (Hone : rowTimestamp_throws h x = true \/ rowTimestamp_throws h y = true)
      by now rewrite (Hcmp x y Hx Hy Hone).
    apply Exists_cons in Hex as [Hhead|Htail]; [now left|].
    destruct sl as [|z sl].
    + right. apply Permutation_sym, Permutation_singleton_l in Hperm. subst items.
      now apply Exists_cons in Htail as [?|Hnil%Exists_nil].
    + assert (Hthrow : Normal (y :: z :: sl) = Throw TypeError).
      { apply IH; [|exact Hdef|exact Htail].
        apply Permutation_length in Hperm. cbn in Hperm. lia. }
      discriminate Hthrow.
  - f_equal. eapply Array_sort_completion_throws; [|exact Esl].
    intros a b e'. apply newest_first_completion_throws.
Qed.

(** X2.  When [sortRowsDesc] returns, it returns exactly the elements it
    was given (a timestamp that is NaN included): none is dropped, none
    is duplicated.  It returns on every array none of whose rows makes
    [rowTimestamp] throw, and what it throws is the TypeError of a row;
    an array of two rows or more with such a row makes it throw. *)
Theorem X2_sortRowsDesc_keeps_every_row (h : Host) (items : list value) :
  (forall out, sortRowsDesc_completion h (VArr items) = Normal out ->
     Permutation items out /\ length out = length items
     /\ out = sortRowsDesc h (VArr items))
  /\ (Forall (fun r => rowTimestamp_throws h r = false) items ->
      sortRowsDesc_completion h (VArr items) = Normal (sortRowsDesc h (VArr items)))
  /\ (forall e, sortRowsDesc_completion h (VArr items) = Throw e ->
        e = TypeError /\ Exists (fun r => rowTimestamp_throws h r = true) items)
  /\ ((2 <= length items)%nat ->
      Forall (fun r => r <> VUndef) items ->
      Exists (fun r => rowTimestamp_throws h r = true) items ->
      sortRowsDesc_completion h (VArr items) = Throw TypeError).
Proof.
  split; [|split; [|split]].
  - intros out Hout.
    pose proof (sortRowsDesc_completion_sound h _ _ Hout) as E.
    apply (Array_sort_completion_perm (newest_first_completion h)) in Hout.
    split; [exact Hout|]. split; [symmetry; now apply Permutation_length|exact E].
  - apply sortRowsDesc_completion_returns.
  - intros e He. split; [now apply (sortRowsDesc_completion_throws h (VArr items))|].
    destruct (rows_convert_cases h items) as [Hall|Hex]; [|exact Hex].
    rewrite (sortRowsDesc_completion_returns h items Hall) in He. discriminate He.
  - apply sortRowsDesc_completion_two_rows.
Qed.

(** X3.  The filtered lane takes its rows from the lane, and a page takes
    its rows from the filtered lane, in the same order: no derived view
    holds a row that is not in the lane, or reorders two rows. *)
Theorem X3_derived_views_are_sublists (h : Host) (v : View) :
  filteredLeft h v `sublist_of` leftRows v
  /\ filteredRight h v `sublist_of` rightRows v
  /\ pagedLeft h v `sublist_of` filteredLeft h v
  /\ pagedRight h v `sublist_of` filteredRight h v.
Proof.
  repeat split; try apply filter_sublist; apply slice_sublist.
Qed.



(** X5.  With an empty search text and the tentative-only switch off,
    the filter of a lane whose rows can be converted keeps exactly the
    truthy elements: every row that is an object is shown.  An object
    with a searchable field that cannot be converted makes the filter
    throw, even though no text is searched for. *)
Theorem X5_no_filter_shows_every_row (h : Host) :
  (forall rows,
     Forall (fun row => search_text_throws row = false) rows ->
     Array_filter_completion (filterFn_completion h "" false) rows
     = Normal (List.filter JS.truthy rows))
  /\ (forall v,
        Forall (fun row => search_text_throws row = false) (leftRows v) ->
        Normal (filteredLeft h (set_showTentativeOnly false (set_query "" v)))
        = Array_filter_completion (filterFn_completion h "" false) (leftRows v))
  /\ (forall v,
        Forall (fun row => search_text_throws row = false) (rightRows v) ->
        Normal (filteredRight h (set_showTentativeOnly false (set_query "" v)))
        = Array_filter_completion (filterFn_completion h "" false) (rightRows v))
  /\ (forall fields,
        filterFn_completion h "" false (VObj fields)
        = if search_text_throws (VObj fields) then Throw TypeError else Normal true).
Proof.
  assert (Hplain : forall rows,
            Forall (fun row => search_text_throws row = false) rows ->
            Array_filter_completion (filterFn_completion h "" false) rows
            = Normal (List.filter (filterFn h "" false) rows)).
  { intros rows Hrows. apply Array_filter_completion_plain.
    eapply Forall_impl; [exact Hrows|]. cbv beta. intros row Hc.
    now rewrite filterFn_completion_cases, Hc. }
  split; [|split; [|split]].
  - intros rows Hrows. rewrite (Hplain rows Hrows). f_equal.
    apply List.filter_ext. intros row. rewrite filterFn_passes. cbn. apply andb_true_r.
  - intros v Hrows. now rewrite (Hplain _ Hrows).
  - intros v Hrows. now rewrite (Hplain _ Hrows).
  - intros fields. rewrite filterFn_completion_cases.
    destruct (search_text_throws (VObj fields)); [reflexivity|].
    now rewrite filterFn_passes.
Qed.

(** ** Paging *)

Lemma slices_tile {A} (n m : nat) (l : list A) :
  concat (map (fun k => JS.slice (k * n) ((k + 1) * n) l) (seq 0 m)) = take (m * n) l.
Proof.
  induction m as [|m IH]; [reflexivity|].
  rewrite seq_S, map_app, concat_app, IH. cbn [map concat plus].
  rewrite app_nil_r. unfold JS.slice.
  replace ((m + 1) * n - m * n)%nat with n by lia.
  rewrite take_take_drop. f_equal. lia.
Qed.

(** X6.  The pages tile the filtered lane: when [m] pages are enough to
    hold it, the pages 0 .. m-1 put end to end are the filtered lane, no
    page holds more than [pageSize] rows, and every page from [m] on is
    empty. *)
Theorem X6_pages_tile_the_filtered_lane (h : Host) (v : View) (m : nat) :
  (length (filteredLeft h v) <= m * pageSize v)%nat ->
  concat (map (fun k => pagedLeft h (set_pageLeft k v)) (seq 0 m)) = filteredLeft h v
  /\ (forall k, (length (pagedLeft h (set_pageLeft k v)) <= pageSize v)%nat)
  /\ (forall k, (m <= k)%nat -> pagedLeft h (set_pageLeft k v) = []).
Proof.
  intros Hm. split; [|split].
  - unfold pagedLeft. cbn [pageLeft pageSize set_pageLeft].
    change (filteredLeft h (set_pageLeft _ v)) with (filteredLeft h v).
    rewrite (slices_tile (pageSize v) m (filteredLeft h v)).
    now apply take_ge.
  - intros k. unfold pagedLeft, JS.slice. cbn [pageLeft pageSize set_pageLeft].
    rewrite length_take. lia.
  - intros k Hk. unfold pagedLeft, JS.slice. cbn [pageLeft pageSize set_pageLeft].
    change (filteredLeft h (set_pageLeft k v)) with (filteredLeft h v).
    rewrite drop_ge; [apply take_nil|]. nia.
Qed.

(** X6, witness: eleven rows, ten per page, two pages. *)
Lemma X6_pages_tile_the_filtered_lane_witness :
  let v := set_pageSize 10 (set_leftRows eleven_rows initial_view) in
  concat (map (fun k => pagedLeft plain_host (set_pageLeft k v)) (seq 0 2))
  = filteredLeft plain_host v
  /\ (forall k, (length (pagedLeft plain_host (set_pageLeft k v)) <= pageSize v)%nat)
  /\ (forall k, (2 <= k)%nat -> pagedLeft plain_host (set_pageLeft k v) = []).
Proof.
  intros v. apply (X6_pages_tile_the_filtered_lane plain_host v 2).
  vm_compute. repeat constructor.
Defined.

Lemma onPrev_onNext (side : Side) (v : View) : onPrev side (onNext side v) = v.
Proof.
  destruct v, side; unfold onPrev, onNext, set_pageLeft, set_pageRight;
    cbn [leftRows rightRows leftPending rightPending buffer status query
         showTentativeOnly pageSize pageLeft pageRight detailRow];
    f_equal; lia.
Qed.

(** X7.  With a positive page size, a click on Next either finds the
    button disabled (nothing changes) or moves to the next page, which
    then holds at least one row; a click on Prev from there shows the
    page that was open before. *)
Theorem X7_next_opens_a_page_with_rows (h : Host) (p : Props) (s : Session) :
  (0 < pageSize (view s))%nat ->
  (let s' := step h p s (NextClick Left) in
   s' = s
   \/ (pageLeft (view s') = S (pageLeft (view s))
       /\ pagedLeft h (view s') <> []
       /\ view (step h p s' (PrevClick Left)) = view s))
  /\ (let s' := step h p s (NextClick Right) in
      s' = s
      \/ (pageRight (view s') = S (pageRight (view s))
          /\ pagedRight h (view s') <> []
          /\ view (step h p s' (PrevClick Right)) = view s)).
Proof.
  intros Hsize. split; cbn [step].
  - destruct (Nat.leb_spec (length (filteredLeft h (view s)))
                ((pageLeft (view s) + 1) * pageSize (view s))) as [Hle|Hlt];
      [left; reflexivity|right].
    split; [cbn [view set_view pageLeft onNext set_pageLeft]; lia|]. split.
    + unfold pagedLeft, JS.slice. cbn [view set_view pageLeft pageSize onNext set_pageLeft].
      change (filteredLeft h (set_pageLeft _ (view s))) with (filteredLeft h (view s)).
      intros E. apply (f_equal length) in E.
      rewrite length_take, length_drop in E. simpl in E. nia.
    + cbn [step view set_view pageLeft onNext set_pageLeft].
      replace (pageLeft (view s) + 1 =? 0)%nat with false
        by (symmetry; apply Nat.eqb_neq; lia).
      exact (onPrev_onNext _ (view s)).
  - destruct (Nat.leb_spec (length (filteredRight h (view s)))
                ((pageRight (view s) + 1) * pageSize (view s))) as [Hle|Hlt];
      [left; reflexivity|right].
    split; [cbn [view set_view pageRight onNext set_pageRight]; lia|]. split.
    + unfold pagedRight, JS.slice. cbn [view set_view pageRight pageSize onNext set_pageRight].
      change (filteredRight h (set_pageRight _ (view s))) with (filteredRight h (view s)).
      intros E. apply (f_equal length) in E.
      rewrite length_take, length_drop in E. simpl in E. nia.
    + cbn [step view set_view pageRight onNext set_pageRight].
      replace (pageRight (view s) + 1 =? 0)%nat with false
        by (symmetry; apply Nat.eqb_neq; lia).
      exact (onPrev_onNext _ (view s)).
Qed.

(** X7, witness: eleven rows shown ten per page; Next opens the page of
    the eleventh row. *)
Lemma X7_next_opens_a_page_with_rows_witness :
  let s := set_view (set_pageSize 10 (set_leftRows eleven_rows initial_view)) initial_session in
  (let s' := step plain_host default_props s (NextClick Left) in
   s' = s
   \/ (pageLeft (view s') = S (pageLeft (view s))
       /\ pagedLeft plain_host (view s') <> []
       /\ view (step plain_host default_props s' (PrevClick Left)) = view s))
  /\ (let s' := step plain_host default_props s (NextClick Right) in
      s' = s
      \/ (pageRight (view s') = S (pageRight (view s))
          /\ pagedRight plain_host (view s') <> []
          /\ view (step plain_host default_props s' (PrevClick Right)) = view s)).
Proof.
  intros s. apply (X7_next_opens_a_page_with_rows plain_host default_props s).
  vm_compute. repeat constructor.
Defined.

(** ** More on the export *)

Section ExportCompletionFacts.
Variable h : Host.

Lemma Array_map_completion_cases {A B} (callback : A -> Completion B) (throws : A -> bool)
    (f : A -> B) (e : value) (items : list A) :
  (forall x, callback x = if throws x then Throw e else Normal (f x)) ->
  Array_map_completion callback items
  = if existsb throws items then Throw e else Normal (map f items).
Proof.
  intros Hcall. induction items as [|x items IH]; cbn [Array_map_completion existsb map];
    [reflexivity|].
  rewrite Hcall, IH. destruct (throws x); [reflexivity|]. cbn [mbind Completion_bind orb].
  now destruct (existsb throws items).
Qed.

Lemma csv_cell_completion_cases (r : value) (hd : string) :
  csv_cell_completion h r hd
  = if JS.throws (JS.prop r hd) then Throw TypeError else Normal (csv_cell h r hd).
Proof.
  unfold csv_cell_completion, csv_cell, ToString_completion, JS.nc.
  destruct (JS.prop r hd) as [| |b|n|s'|fields|items]; cbn; try reflexivity.
  - now destruct (fields !! "toString").
  - now destruct (existsb JS.throws items).
Qed.

Lemma csv_lines_completion_cases (rows : list value) :
  csv_lines_completion h rows
  = if existsb export_throws rows then Throw TypeError else Normal (map (csv_row h) rows).
Proof.
  induction rows as [|r rows IH]; cbn [csv_lines_completion existsb map]; [reflexivity|].
  unfold export_throws at 1. destruct (JS.nullish r); [reflexivity|].
  rewrite (Array_map_completion_cases _ (fun hd => JS.throws (JS.prop r hd))
             (csv_cell h r) TypeError headers (csv_cell_completion_cases r)).
  cbn [orb]. destruct (existsb _ headers); [reflexivity|].
  rewrite IH. cbn [mbind Completion_bind orb].
  now destruct (existsb export_throws rows).
Qed.

Lemma export_throws_present (rows : list value) :
  existsb export_throws rows = false -> Forall (fun r => JS.nullish r = false) rows.
Proof.
  induction rows as [|r rows IH]; cbn [existsb]; [constructor|].
  intros H. apply orb_false_elim in H as [Hr Hrows]. constructor; [|now apply IH].
  unfold export_throws in Hr. now apply orb_false_elim in Hr as [Hr _].
Qed.

End ExportCompletionFacts.

(** X8.  [downloadCsv] throws a TypeError exactly when one of the rows
    it is given is null or undefined (reading a field of it throws), or
    has one of the ten exported fields that cannot be converted to a
    string; nothing is downloaded then.  On every other array it
    downloads the header line and one line per row, nothing for an empty
    array. *)
Theorem X8_downloadCsv_exceptions (h : Host) (rows : list value) (name : string) :
  downloadCsv_completion h rows name
  = (if existsb export_throws rows then Throw TypeError
     else match rows with
          | [] => Normal None
          | _ => Normal (Some {| filename := name;
                                 content := JS.join newline
                                              (JS.join "," headers :: map (csv_row h) rows) |})
          end)
  /\ (existsb export_throws rows = false ->
      downloadCsv_completion h rows name = downloadCsv h rows name)
  /\ (forall r, export_throws r = true <->
        JS.nullish r = true \/ exists hd, In hd headers /\ JS.throws (JS.prop r hd) = true).
Proof.
  assert (Hcases : downloadCsv_completion h rows name
                   = if existsb export_throws rows then Throw TypeError
                     else match rows with
                          | [] => Normal None
                          | _ => Normal (Some {| filename := name;
                                                 content := JS.join newline
                                                              (JS.join "," headers
                                                               :: map (csv_row h) rows) |})
                          end).
  { unfold downloadCsv_completion. rewrite csv_lines_completion_cases.
    destruct rows as [|r rows]; [reflexivity|]. cbn [length Nat.eqb].
    now destruct (existsb export_throws (r :: rows)). }
  split; [exact Hcases|]. split.
  - intros Hnone. rewrite Hcases, Hnone.
    now rewrite (downloadCsv_rows h rows name (export_throws_present rows Hnone)).
  - intros r. unfold export_throws. rewrite orb_true_iff, existsb_exists.
    split; (intros [Hn|Hex]; [now left|right; exact Hex]).
Qed.

Lemma double_quotes_inj (s1 s2 : string) : double_quotes s1 = double_quotes s2 -> s1 = s2.
Proof.
  revert s2. induction s1 as [|c1 s1 IH]; intros [|c2 s2]; cbn [double_quotes].
  - reflexivity.
  - destruct (Ascii.eqb c2 "034"); discriminate.
  - destruct (Ascii.eqb c1 "034"); discriminate.
  - destruct (Ascii.eqb_spec c1 "034") as [->|H1], (Ascii.eqb_spec c2 "034") as [->|H2];
      intros E; inversion E; subst; try congruence; f_equal; now apply IH.
Qed.

Lemma append_dquote_inj (s1 s2 : string) : s1 +:+ dquote = s2 +:+ dquote -> s1 = s2.
Proof.
  revert s2. induction s1 as [|c1 s1 IH]; intros [|c2 s2]; cbn; intros E.
  - reflexivity.
  - injection E as _ E. now destruct s2.
  - injection E as _ E. now destruct s1.
  - injection E as -> E. now rewrite (IH s2 E).
Qed.

(** X9.  Quoting loses nothing: two field texts are written as the same
    CSV cell only when they are the same text. *)
Theorem X9_csv_quoting_is_injective (h : Host) :
  (forall s1 s2, double_quotes s1 = double_quotes s2 -> s1 = s2)
  /\ (forall r1 r2 hd1 hd2,
        csv_cell h r1 hd1 = csv_cell h r2 hd2
        <-> cell_text h r1 hd1 = cell_text h r2 hd2).
Proof.
  split; [apply double_quotes_inj|].
  intros r1 r2 hd1 hd2. rewrite !csv_cell_quoted. split; [|now intros ->].
  intros E. injection E as E. now apply double_quotes_inj, append_dquote_inj.
Qed.

(** ** Teardown *)

(** X11.  Once polling was started and the cleanup has run, no timer ever
    runs again in that session, whatever happens next: [pollRef] keeps
    the id of the cleared timer, so a later run of the effect whose socket
    setup throws sets the status to [polling] without starting a timer. *)
Theorem X11_polling_is_never_restarted (h : Host) (p : Props) (trace later : list Event)
    (id : positive) :
  pollRef (run h p initial_session trace) = Some id ->
  let s := run h p (run h p initial_session trace) (Unmount :: later) in
  pollRef s = Some id
  /\ timers s = ∅
  /\ (forall err, status (view (step h p s (Mount (Some err)))) = Polling
                  /\ timers (step h p s (Mount (Some err))) = ∅).
Proof.
  intros Hp s.
  assert (Hs : pollRef s = Some id /\ timers s = ∅).
  { unfold s. rewrite run_cons. apply run_pollRef_kept.
    - now apply step_pollRef_kept.
    - cbn [step]. now apply (cleanup_clears p _ id); [apply run_one_timer|]. }
  destruct Hs as [Hs Ht]. split; [exact Hs|]. split; [exact Ht|].
  intros err. split; [reflexivity|].
  apply (run_pollRef_kept h p s [Mount (Some err)] id Hs Ht).
Qed.

(** X11, witness: polling started by a failed setup, cleanup, then the
    effect runs again, its socket comes up and later drops. *)
Lemma X11_polling_is_never_restarted_witness :
  let s := run plain_host default_props
             (run plain_host default_props initial_session [Mount (Some (VStr "no transport"))])
             [Unmount; Mount None; SocketEmits "disconnect" (VStr "transport close")] in
  pollRef s = Some 1%positive
  /\ timers s = ∅
  /\ (forall err, status (view (step plain_host default_props s (Mount (Some err)))) = Polling
                  /\ timers (step plain_host default_props s (Mount (Some err))) = ∅).
Proof.
  intros s.
  apply (X11_polling_is_never_restarted plain_host default_props
           [Mount (Some (VStr "no transport"))]
           [Mount None; SocketEmits "disconnect" (VStr "transport close")] 1%positive).
  reflexivity.
Defined.

(** ** What each step leaves alone *)

Section WiringFacts.
Variable h : Host.
Variable p : Props.

Lemma fulfil_joins_wiring (id : nat) (s : Session) :
  mounted (fulfil_joins id s) = mounted s /\ socketRef (fulfil_joins id s) = socketRef s
  /\ next_request (fulfil_joins id s) = next_request s
  /\ effect_buffer (fulfil_joins id s) = effect_buffer s.
Proof. unfold fulfil_joins. destruct (existsb _ _); repeat split. Qed.

Lemma settle_wiring (id : nat) (o : Outcome) (s : Session) :
  mounted (settle h id o s) = mounted s /\ socketRef (settle h id o s) = socketRef s
  /\ next_request (settle h id o s) = next_request s
  /\ effect_buffer (settle h id o s) = effect_buffer s
  /\ inflight (settle h id o s) = delete id (inflight s).
Proof.
  destruct (settle_cases h id o s) as [[E ->]|(rq & v' & out' & _ & _ & ->)].
  - rewrite delete_id by exact E. repeat split.
  - match goal with |- context [fulfil_joins id ?s0] =>
      destruct (fulfil_joins_wiring id s0) as (-> & -> & -> & ->);
      destruct (fulfil_joins_frame id s0) as (_ & _ & -> & _)
    end.
    repeat split.
Qed.

(** The guard of the first refresh: once every run of the effect has
    been cleaned up, no continuation sets the status. *)
Lemma sets_ready_torn (s : Session) (k : Then) :
  Forall (fun m => m = false) (mounted s) -> sets_ready s k = false.
Proof.
  intros Hm. destruct k as [|run]; [reflexivity|]. unfold sets_ready.
  destruct (mounted s !! run) as [m|] eqn:E; [|reflexivity].
  exact (Forall_lookup_1 _ _ _ _ Hm E).
Qed.

Lemma settle_status_unmounted (id : nat) (o : Outcome) (s : Session) :
  Forall (fun m => m = false) (mounted s) ->
  status (view (settle h id o s)) = status (view s).
Proof.
  intros Hm.
  destruct (settle_cases h id o s) as [[_ ->]|(rq & v' & out' & _ & Hrun & ->)]; [auto|].
  destruct (resume_normal h (lane rq) (closure_buffer rq) o (view s) (console s))
    as (v'' & out'' & E & Hst & _).
  rewrite Hrun in E. injection E as <- <-.
  unfold fulfil_joins. cbv zeta.
  match goal with |- context [existsb ?f ?l] =>
    assert (Hno : existsb f l = false)
  end.
  { apply not_true_is_false. intros Hex. apply existsb_exists in Hex as (j & _ & Hj).
    rewrite sets_ready_torn in Hj by exact Hm. discriminate. }
  rewrite Hno. exact Hst.
Qed.

Lemma settle_status (id : nat) (o : Outcome) (s : Session) :
  status (view (settle h id o s)) = status (view s)
  \/ status (view (settle h id o s)) = Ready.
Proof.
  destruct (settle_cases h id o s) as [[_ ->]|(rq & v' & out' & _ & Hrun & ->)]; [auto|].
  destruct (resume_normal h (lane rq) (closure_buffer rq) o (view s) (console s))
    as (v'' & out'' & E & Hst & _).
  rewrite Hrun in E. injection E as <- <-.
  match goal with |- context [fulfil_joins id ?s0] =>
    destruct (fulfil_joins_view id s0) as [-> | ->]
  end; [left; exact Hst|right; reflexivity].
Qed.

Lemma effect_wiring (io : option value) (s : Session) :
  mounted (effect p io s) = (mounted s ++ [true])%list
  /\ socketRef (effect p io s)
     = match io with
       | None => Some {| listeners := registered; live := true; connected := false |}
       | Some _ => socketRef s
       end
  /\ effect_buffer (effect p io s) = buffer (view s)
  /\ inflight (effect p io s) = inflight (issue p (buffer (view s)) [Left; Right] s)
  /\ next_request (effect p io s)
     = next_request (issue p (buffer (view s)) [Left; Right] s)
  /\ status (view (effect p io s))
     = match io with None => status (view s) | Some _ => Polling end.
Proof.
  destruct s as [v out m pr sk ts nt fl nr js eb ds].
  destruct io as [err|]; [destruct pr|];
    (split; [|split; [|split; [|split; [|split]]]]); reflexivity.
Qed.

Lemma run_handler_wiring (hd : Handler) (payload : value) (s : Session) :
  mounted (run_handler p hd payload s) = mounted s
  /\ socketRef (run_handler p hd payload s) = socketRef s
  /\ effect_buffer (run_handler p hd payload s) = effect_buffer s
  /\ inflight (run_handler p hd payload s)
     = inflight (issue p (effect_buffer s) (lanes_asked hd payload) s)
  /\ next_request (run_handler p hd payload s)
     = next_request (issue p (effect_buffer s) (lanes_asked hd payload) s).
Proof.
  destruct hd; try rewrite update_dispatch; cbn [lanes_asked];
    try destruct (recognized_side payload) as [[]|];
    destruct s as [v out m [id|] sk ts nt fl nr js eb ds];
    (split; [|split; [|split; [|split]]]); reflexivity.
Qed.

Lemma run_handler_status (hd : Handler) (payload : value) (s : Session) :
  status (view (run_handler p hd payload s)) = status (view s)
  \/ status (view (run_handler p hd payload s)) = SocketConnected
  \/ status (view (run_handler p hd payload s)) = SocketError
  \/ status (view (run_handler p hd payload s)) = SocketDisconnected.
Proof.
  destruct hd; try rewrite update_dispatch;
    try destruct (recognized_side payload) as [[]|];
    first [left; reflexivity|right; left; reflexivity
          |right; right; left; reflexivity|right; right; right; reflexivity].
Qed.

Lemma heard_socket (name : string) (sk : Socket) (s : Session) :
  socketRef s = Some sk ->
  exists sk', socketRef (heard name sk s) = Some sk'
              /\ listeners sk' = listeners sk /\ live sk' = live sk.
Proof.
  intros Hsk. unfold heard.
  destruct (String.eqb name "connect"); [eexists; repeat split|].
  destruct (String.eqb name "disconnect"); [eexists; repeat split|].
  exists sk. auto.
Qed.

Lemma deliver_cases (name : string) (payload : value) (sk : Socket) (s : Session) :
  deliver p name payload sk s = heard name sk s
  \/ exists hd, listeners sk !! name = Some hd
                /\ deliver p name payload sk s = run_handler p hd payload (heard name sk s).
Proof.
  unfold deliver. destruct (listeners sk !! name) as [hd|]; [right; now exists hd|now left].
Qed.

Lemma export_wiring (side : Side) (s : Session) :
  mounted (export h side s) = mounted s /\ socketRef (export h side s) = socketRef s
  /\ effect_buffer (export h side s) = effect_buffer s
  /\ inflight (export h side s) = inflight s
  /\ next_request (export h side s) = next_request s
  /\ view (export h side s) = view s.
Proof.
  unfold export. destruct side; cbv zeta beta iota;
    match goal with |- context [downloadCsv h ?r ?n] => destruct (downloadCsv h r n) as [[d|]|] end;
    (split; [|split; [|split; [|split; [|split]]]]); reflexivity.
Qed.

(** A socket that was disconnected delivers nothing. *)
Lemma dead_socket (s : Session) (name : string) (payload : value) :
  (forall sk, socketRef s = Some sk -> live sk = false) ->
  step h p s (SocketEmits name payload) = s.
Proof.
  intros Hsk. cbn [step]. destruct (socketRef s) as [sk|]; [|reflexivity].
  now rewrite (Hsk sk eq_refl).
Qed.

Lemma fetchAll_wiring (b : value) (k : Then) (s : Session) :
  mounted (fetchAll p b k s) = mounted s /\ socketRef (fetchAll p b k s) = socketRef s
  /\ view (fetchAll p b k s) = view s.
Proof. repeat split. Qed.

Lemma last_cleared (l : list bool) : last (<[pred (length l) := false]> l) <> Some true.
Proof.
  destruct l as [|x l _] using rev_ind; [discriminate|].
  rewrite length_app, Nat.add_comm. cbn [length plus pred].
  rewrite (insert_app_r_alt l [x]) by lia. rewrite Nat.sub_diag. cbn.
  rewrite last_snoc. discriminate.
Qed.

Lemma cleared_all_false (l : list bool) :
  Forall (fun m => m = false) l -> Forall (fun m => m = false) (<[pred (length l) := false]> l).
Proof. intros Hl. now apply Forall_insert. Qed.

(** Once every run of the effect has been cleaned up, every step but a
    new run of the effect leaves it so, leaves the status as it is, and,
    unless it is another cleanup, leaves the timer as it is. *)
Lemma step_torn_down (s : Session) (e : Event) :
  torn_down s -> is_mount e = false ->
  torn_down (step h p s e)
  /\ status (view (step h p s e)) = status (view s)
  /\ (is_unmount e = false ->
      timers (step h p s e) = timers s /\ pollRef (step h p s e) = pollRef s).
Proof.
  intros (Hm & Hsk) He.
  destruct e as [io| |name payload|t|rq o|text|checked|n| |side|[]|[]|row|];
    cbn [step]; try discriminate;
    try (split; [split; [exact Hm|exact Hsk]|split; [reflexivity|split; reflexivity]]).
  - destruct (cleanup_cases p s) as (s1 & (_ & _ & _ & Hv & Hm1 & Hs1 & _) & Hc).
    assert (E : cleanup p s = s1).
    { destruct Hc as [Hc|(sk & hd & Hk & Hl & _)]; [exact Hc|].
      rewrite (Hsk sk Hk) in Hl. discriminate. }
    rewrite E. split; [split|split; [now rewrite Hv|discriminate]].
    + rewrite Hm1. now apply cleared_all_false.
    + intros sk. rewrite Hs1. destruct (socketRef s); [|discriminate]. now intros [= <-].
  - pose proof (dead_socket s name payload Hsk) as E. cbn [step] in E. rewrite E.
    split; [split; [exact Hm|exact Hsk]|split; [reflexivity|split; reflexivity]].
  - destruct (timers s !! t);
      (split; [split; [exact Hm|exact Hsk]|split; [reflexivity|split; reflexivity]]).
  - destruct (settle_wiring rq o s) as (Hm' & Hs' & _).
    destruct (settle_frame h rq o s) as [Ht' Hp'].
    split; [split; [now rewrite Hm'|now rewrite Hs']|].
    split; [now apply settle_status_unmounted|]. intros _. now split.
  - destruct (export_wiring side s) as (Hm' & Hs' & _ & _ & _ & ->).
    destruct (export_frame h side s) as [Ht' Hp'].
    split; [split; [now rewrite Hm'|now rewrite Hs']|].
    split; [reflexivity|]. intros _. now split.
  - destruct (pageLeft (view s) =? 0)%nat;
      (split; [split; [exact Hm|exact Hsk]|split; [reflexivity|split; reflexivity]]).
  - destruct (pageRight (view s) =? 0)%nat;
      (split; [split; [exact Hm|exact Hsk]|split; [reflexivity|split; reflexivity]]).
  - destruct (_ <=? _)%nat;
      (split; [split; [exact Hm|exact Hsk]|split; [reflexivity|split; reflexivity]]).
  - destruct (_ <=? _)%nat;
      (split; [split; [exact Hm|exact Hsk]|split; [reflexivity|split; reflexivity]]).
Qed.

Lemma run_torn_down (s : Session) (trace : list Event) :
  torn_down s -> forallb (fun e => negb (is_mount e || is_unmount e)) trace = true ->
  torn_down (run h p s trace)
  /\ status (view (run h p s trace)) = status (view s)
  /\ timers (run h p s trace) = timers s /\ pollRef (run h p s trace) = pollRef s
  /\ mounted (run h p s trace) = mounted s.
Proof.
  revert s. induction trace as [|e trace IH]; intros s Hs Hall; [auto|].
  cbn [forallb] in Hall. apply andb_prop in Hall as [He Hall].
  apply negb_true_iff, orb_false_elim in He as [Hmo Hun].
  destruct (step_torn_down s e Hs Hmo) as (Hs' & Hst & Htp).
  destruct (Htp Hun) as [Ht Hp].
  assert (Hmm : mounted (step h p s e) = mounted s).
  { destruct e as [io| |name payload|t|rq o|text|checked|n| |side|[]|[]|row|];
      cbn [step]; try discriminate; try reflexivity.
    - pose proof (dead_socket s name payload (proj2 Hs)) as E. cbn [step] in E.
      now rewrite E.
    - now destruct (timers s !! t).
    - now destruct (settle_wiring rq o s) as (-> & _).
    - now destruct (export_wiring side s) as (-> & _).
    - now destruct (pageLeft (view s) =? 0)%nat.
    - now destruct (pageRight (view s) =? 0)%nat.
    - now destruct (_ <=? _)%nat.
    - now destruct (_ <=? _)%nat. }
  rewrite run_cons. destruct (IH _ Hs' Hall) as (Hs'' & Hst' & Ht' & Hp' & Hm').
  split; [exact Hs''|]. repeat split; congruence.
Qed.

(** The [mounted] variables: a step that is no run of the effect makes
    none and keeps their number. *)
Lemma step_mounted_length (s : Session) (e : Event) :
  is_mount e = false -> length (mounted (step h p s e)) = length (mounted s).
Proof.
  destruct e as [io| |name payload|t|rq o|text|checked|n| |side|[]|[]|row|];
    cbn [step]; intros He; try discriminate; try reflexivity.
  - destruct (cleanup_cases p s) as (s1 & (_ & _ & _ & _ & Hm1 & _) & Hc).
    assert (E : mounted (cleanup p s) = mounted s1).
    { destruct Hc as [->|(sk & hd & _ & _ & _ & _ & ->)]; [reflexivity|].
      now destruct (run_handler_wiring hd (VStr "io client disconnect") s1) as (-> & _). }
    now rewrite E, Hm1, length_insert.
  - destruct (socketRef s) as [sk|]; [|reflexivity].
    destruct (live sk); [|reflexivity].
    destruct (heard_frame name sk s) as (_ & _ & _ & _ & _ & _ & Hm & _).
    destruct (deliver_cases name payload sk s) as [->|(hd & _ & ->)]; [now rewrite Hm|].
    destruct (run_handler_wiring hd payload (heard name sk s)) as (-> & _). now rewrite Hm.
  - now destruct (timers s !! t).
  - now destruct (settle_wiring rq o s) as (-> & _).
  - now destruct (export_wiring side s) as (-> & _).
  - now destruct (pageLeft (view s) =? 0)%nat.
  - now destruct (pageRight (view s) =? 0)%nat.
  - now destruct (_ <=? _)%nat.
  - now destruct (_ <=? _)%nat.
Qed.

Lemma run_mounted_length (s : Session) (trace : list Event) :
  forallb (fun e => negb (is_mount e)) trace = true ->
  length (mounted (run h p s trace)) = length (mounted s).
Proof.
  revert s. induction trace as [|e trace IH]; intros s Hall; [reflexivity|].
  cbn [forallb] in Hall. apply andb_prop in Hall as [He Hall].
  apply negb_true_iff in He.
  rewrite run_cons, IH by exact Hall. now apply step_mounted_length.
Qed.

(** The cleanup leaves the socket disconnected and the latest run
    unmounted. *)
Lemma cleanup_wiring (s : Session) :
  mounted (cleanup p s) = <[pred (length (mounted s)) := false]> (mounted s)
  /\ socketRef (cleanup p s) = option_map disconnected (socketRef s)
  /\ effect_buffer (cleanup p s) = effect_buffer s.
Proof.
  destruct (cleanup_cases p s) as (s1 & (_ & _ & _ & _ & Hm1 & Hs1 & Hb1 & _) & Hc).
  destruct Hc as [->|(sk & hd & _ & _ & _ & _ & ->)]; [auto|].
  destruct (run_handler_wiring hd (VStr "io client disconnect") s1) as (-> & -> & -> & _).
  auto.
Qed.

(** The status reads [polling] only after a run of the effect whose
    socket setup threw. *)
Lemma step_status_polling (s : Session) (e : Event) :
  status (view (step h p s e)) = Polling ->
  status (view s) = Polling \/ exists err, e = Mount (Some err).
Proof.
  destruct e as [io| |name payload|t|rq o|text|checked|n| |side|[]|[]|row|];
    cbn [step]; intros H; try (left; exact H).
  - destruct (effect_wiring io s) as (_ & _ & _ & _ & _ & Hst).
    destruct io as [err|]; [right; now exists err|left; congruence].
  - destruct (cleanup_cases p s) as (s1 & (_ & _ & _ & Hv & _) & Hc). left.
    destruct Hc as [E|(sk & hd & _ & _ & _ & _ & E)]; rewrite E in H; [now rewrite <- Hv|].
    destruct (run_handler_status hd (VStr "io client disconnect") s1) as [E'|[E'|[E'|E']]];
      rewrite E' in H; [now rewrite <- Hv|discriminate..].
  - destruct (socketRef s) as [sk|]; [|left; exact H].
    destruct (live sk); [|left; exact H].
    destruct (heard_frame name sk s) as (_ & _ & Hv & _). left.
    destruct (deliver_cases name payload sk s) as [E|(hd & _ & E)]; rewrite E in H;
      [now rewrite <- Hv|].
    destruct (run_handler_status hd payload (heard name sk s)) as [E'|[E'|[E'|E']]];
      rewrite E' in H; [now rewrite <- Hv|discriminate..].
  - destruct (timers s !! t); left; exact H.
  - destruct (settle_status rq o s) as [E|E]; rewrite E in H; [left; exact H|discriminate].
  - destruct (export_wiring side s) as (_ & _ & _ & _ & _ & Hv). left. now rewrite <- Hv.
  - destruct (pageLeft (view s) =? 0)%nat; left; exact H.
  - destruct (pageRight (view s) =? 0)%nat; left; exact H.
  - destruct (_ <=? _)%nat in H; left; exact H.
  - destruct (_ <=? _)%nat in H; left; exact H.
Qed.

End WiringFacts.

(** X12.  After the cleanup of a component whose effect ran once, as
    long as the effect does not run again and no other cleanup runs, the
    status stays what the cleanup left, so a response of the first
    refresh that arrives late does not set it to [ready]; the
    disconnected socket delivers nothing; and no timer is started or
    stopped. *)
Theorem X12_after_cleanup_status_is_frozen (h : Host) (p : Props) (io : option value)
    (rest later : list Event) :
  forallb (fun e => negb (is_mount e)) rest = true ->
  forallb (fun e => negb (is_mount e || is_unmount e)) later = true ->
  let s := step h p (run h p initial_session (Mount io :: rest)) Unmount in
  let s' := run h p s later in
  mounted s' = [false]
  /\ status (view s') = status (view s)
  /\ timers s' = timers s /\ pollRef s' = pollRef s
  /\ (forall name payload, step h p s' (SocketEmits name payload) = s').
Proof.
  intros Hrest Hlater s s'.
  assert (Hone : exists m, mounted (run h p initial_session (Mount io :: rest)) = [m]).
  { assert (Hl : length (mounted (run h p initial_session (Mount io :: rest))) = 1%nat).
    { rewrite run_cons, run_mounted_length by exact Hrest. cbn [step].
      now rewrite (proj1 (effect_wiring p io initial_session)). }
    destruct (mounted (run h p initial_session (Mount io :: rest))) as [|m [|m' l]];
      try discriminate. now exists m. }
  destruct Hone as [m Hone].
  destruct (cleanup_wiring p (run h p initial_session (Mount io :: rest))) as (Hm & Hs & _).
  rewrite Hone in Hm. change (<[pred (length [m]) := false]> [m]) with [false] in Hm.
  assert (Htd : torn_down (cleanup p (run h p initial_session (Mount io :: rest)))).
  { split.
    - rewrite Hm. repeat constructor.
    - intros sk. rewrite Hs.
      destruct (socketRef (run h p initial_session (Mount io :: rest))); [|discriminate].
      now intros [= <-]. }
  destruct (run_torn_down h p s later Htd Hlater) as (Htd' & Hst & Ht & Hp & Hm').
  split; [exact (eq_trans Hm' Hm)|].
  split; [exact Hst|]. split; [exact Ht|]. split; [exact Hp|].
  intros name payload. apply dead_socket. exact (proj2 Htd').
Qed.

(** X12, witness: the socket had connected when the page was left; the
    two first responses arrive afterwards, and a timer ticks. *)
Lemma X12_after_cleanup_status_is_frozen_witness :
  let s := step plain_host default_props
             (run plain_host default_props initial_session
                [Mount None; SocketEmits "connect" VUndef]) Unmount in
  let s' := run plain_host default_props s
              [Settles 0 scenario_response; Settles 1 scenario_response; TimerFires 1] in
  mounted s' = [false]
  /\ status (view s') = status (view s)
  /\ timers s' = timers s /\ pollRef s' = pollRef s
  /\ (forall name payload, step plain_host default_props s' (SocketEmits name payload) = s').
Proof.
  intros s s'.
  exact (X12_after_cleanup_status_is_frozen plain_host default_props None
           [SocketEmits "connect" VUndef]
           [Settles 0 scenario_response; Settles 1 scenario_response; TimerFires 1]
           eq_refl eq_refl).
Defined.

(** X13.  Once an event has been handled, the status reads [polling]
    only in a session in which some run of the effect failed to set the
    socket up: no listener, response, timer tick or click leaves that
    status behind. *)
Theorem X13_polling_status_means_setup_failed (h : Host) (p : Props) (trace : list Event) :
  status (view (run h p initial_session trace)) = Polling ->
  exists err, In (Mount (Some err)) trace.
Proof.
  induction trace as [|e trace IH] using rev_ind; [discriminate|].
  rewrite run_snoc. intros H.
  destruct (step_status_polling h p _ e H) as [H'|[err ->]].
  - destruct (IH H') as [err Hin]. exists err. apply in_or_app. now left.
  - exists err. apply in_or_app. right. now left.
Qed.

(** X13, witness: the socket setup throws on mount. *)
Lemma X13_polling_status_means_setup_failed_witness :
  exists err, In (Mount (Some err)) [Mount (Some (VStr "no transport"))].
Proof.
  apply (X13_polling_status_means_setup_failed plain_host default_props
           [Mount (Some (VStr "no transport"))]).
  reflexivity.
Defined.

(** ** Requests *)

Section RequestFacts.
Variable h : Host.
Variable p : Props.

Lemma issue_one (b : value) (side : Side) (s : Session) :
  inflight (issue p b [side] s) = <[next_request s := request_for p side b]> (inflight s)
  /\ next_request (issue p b [side] s) = S (next_request s)
  /\ socketRef (issue p b [side] s) = socketRef s.
Proof. destruct side; repeat split. Qed.

Lemma issue_cons (b : value) (side : Side) (lanes : list Side) (s : Session) :
  issue p b (side :: lanes) s = issue p b lanes (issue p b [side] s).
Proof. now destruct side. Qed.

(** Every call of a lane function sends a request of its own, under the
    next id: nothing in flight is dropped or reused. *)
Lemma issue_spec (b : value) (lanes : list Side) (s : Session) :
  fresh_ids s ->
  fresh_ids (issue p b lanes s)
  /\ next_request (issue p b lanes s) = (next_request s + length lanes)%nat
  /\ size (inflight (issue p b lanes s)) = (size (inflight s) + length lanes)%nat
  /\ (forall n rq, inflight s !! n = Some rq -> inflight (issue p b lanes s) !! n = Some rq)
  /\ (forall i side, lanes !! i = Some side ->
        inflight (issue p b lanes s) !! (next_request s + i)%nat
        = Some (request_for p side b))
  /\ socketRef (issue p b lanes s) = socketRef s.
Proof.
  revert s. induction lanes as [|side lanes IH]; intros s Hs.
  - cbn [issue length]. rewrite !Nat.add_0_r.
    split; [exact Hs|]. split; [reflexivity|]. split; [reflexivity|].
    split; [auto|]. split; [|reflexivity]. intros i side Hi. discriminate.
  - rewrite issue_cons.
    destruct (issue_one b side s) as (Hin & Hnext & Hsock).
    assert (Hnone : inflight s !! next_request s = None).
    { destruct (inflight s !! next_request s) as [rq|] eqn:E; [|reflexivity].
      apply Hs in E. lia. }
    assert (Hs1 : fresh_ids (issue p b [side] s)).
    { intros n rq. rewrite Hin, Hnext. intros Hn.
      destruct (decide (next_request s = n)) as [<-|Hne]; [lia|].
      rewrite lookup_insert_ne in Hn by exact Hne. apply Hs in Hn. lia. }
    destruct (IH _ Hs1) as (Hf & Hn & Hsz & Hold & Hnew & Hsk).
    split; [exact Hf|]. split; [rewrite Hn, Hnext; cbn [length]; lia|].
    split; [rewrite Hsz, Hin, map_size_insert_None by exact Hnone; cbn [length]; lia|].
    split; [|split; [|congruence]].
    + intros n rq Hrq. apply Hold. rewrite Hin.
      rewrite lookup_insert_ne; [exact Hrq|]. intros <-. congruence.
    + intros [|i] side' Hi.
      * injection Hi as <-. rewrite Nat.add_0_r. apply Hold.
        rewrite Hin. apply lookup_insert_eq.
      * replace (next_request s + S i)%nat with (next_request (issue p b [side] s) + i)%nat
          by (rewrite Hnext; lia).
        apply Hnew. exact Hi.
Qed.

Lemma invariants_issue (b : value) (lanes : list Side) (s s' : Session) :
  inflight s' = inflight (issue p b lanes s) ->
  next_request s' = next_request (issue p b lanes s) ->
  fresh_ids s -> fresh_ids s'.
Proof.
  intros Hin Hn Hs. destruct (issue_spec b lanes s Hs) as (Hf & _).
  intros n rq. rewrite Hin, Hn. apply Hf.
Qed.

Lemma step_fresh_ids (s : Session) (e : Event) : fresh_ids s -> fresh_ids (step h p s e).
Proof.
  intros Hs.
  destruct e as [io| |name payload|t|rq o|text|checked|n| |side|[]|[]|row|];
    cbn [step]; try exact Hs.
  - destruct (effect_wiring p io s) as (_ & _ & _ & Hin & Hn & _).
    exact (invariants_issue _ _ s _ Hin Hn Hs).
  - destruct (cleanup_cases p s) as (s1 & (_ & _ & _ & _ & _ & _ & _ & Hin & Hn) & Hc).
    assert (Hs1 : fresh_ids s1) by (intros n rq; rewrite Hin, Hn; apply Hs).
    destruct Hc as [->|(sk & hd & _ & _ & _ & _ & ->)]; [exact Hs1|].
    destruct (run_handler_wiring p hd (VStr "io client disconnect") s1)
      as (_ & _ & _ & Hin' & Hn').
    exact (invariants_issue _ _ s1 _ Hin' Hn' Hs1).
  - destruct (socketRef s) as [sk|]; [|exact Hs].
    destruct (live sk); [|exact Hs].
    destruct (heard_frame name sk s) as (_ & _ & _ & Hin & Hn & _).
    assert (Hs1 : fresh_ids (heard name sk s)) by (intros n rq; rewrite Hin, Hn; apply Hs).
    destruct (deliver_cases p name payload sk s) as [->|(hd & _ & ->)]; [exact Hs1|].
    destruct (run_handler_wiring p hd payload (heard name sk s)) as (_ & _ & _ & Hin' & Hn').
    exact (invariants_issue _ _ (heard name sk s) _ Hin' Hn' Hs1).
  - destruct (timers s !! t); [|exact Hs].
    exact (invariants_issue (effect_buffer s) [Left; Right] s _ eq_refl eq_refl Hs).
  - destruct (settle_wiring h rq o s) as (_ & _ & Hn & _ & Hin).
    intros n r. rewrite Hin, Hn. intros Hl.
    apply lookup_delete_Some in Hl as [_ Hl]. now apply Hs in Hl.
  - exact (invariants_issue (buffer (view s)) [Left; Right] s _ eq_refl eq_refl Hs).
  - destruct (export_wiring h side s) as (_ & _ & _ & Hin & Hn & _).
    intros n rq. rewrite Hin, Hn. apply Hs.
  - destruct (pageLeft (view s) =? 0)%nat; exact Hs.
  - destruct (pageRight (view s) =? 0)%nat; exact Hs.
  - destruct (_ <=? _)%nat; exact Hs.
  - destruct (_ <=? _)%nat; exact Hs.
Qed.

Lemma step_wired (s : Session) (e : Event) : wired s -> wired (step h p s e).
Proof.
  intros Hs.
  destruct e as [io| |name payload|t|rq o|text|checked|n| |side|[]|[]|row|];
    cbn [step]; try exact Hs.
  - destruct (effect_wiring p io s) as (_ & Hsk & _).
    intros sk. rewrite Hsk. destruct io; [exact (Hs sk)|]. now intros [= <-].
  - destruct (cleanup_wiring p s) as (_ & Hsk & _).
    intros sk. rewrite Hsk. destruct (socketRef s) as [sk0|] eqn:E; [|discriminate].
    intros [= <-]. cbn [listeners disconnected]. now apply Hs.
  - destruct (socketRef s) as [sk|] eqn:E; [|exact Hs].
    destruct (live sk); [|exact Hs].
    destruct (heard_socket name sk s E) as (sk1 & Hsk1 & Hl1 & _).
    assert (Hs1 : wired (heard name sk s)).
    { intros sk'. rewrite Hsk1. intros [= <-]. rewrite Hl1. now apply Hs. }
    destruct (deliver_cases p name payload sk s) as [->|(hd & _ & ->)]; [exact Hs1|].
    destruct (run_handler_wiring p hd payload (heard name sk s)) as (_ & Hsk & _).
    intros sk'. rewrite Hsk. apply Hs1.
  - destruct (timers s !! t); exact Hs.
  - destruct (settle_wiring h rq o s) as (_ & Hsk & _).
    intros sk. rewrite Hsk. exact (Hs sk).
  - destruct (export_wiring h side s) as (_ & Hsk & _).
    intros sk. rewrite Hsk. exact (Hs sk).
  - destruct (pageLeft (view s) =? 0)%nat; exact Hs.
  - destruct (pageRight (view s) =? 0)%nat; exact Hs.
  - destruct (_ <=? _)%nat; exact Hs.
  - destruct (_ <=? _)%nat; exact Hs.
Qed.

Lemma run_fresh_wired (trace : list Event) :
  fresh_ids (run h p initial_session trace) /\ wired (run h p initial_session trace).
Proof.
  induction trace as [|e trace [IHf IHw]] using rev_ind.
  - split; [intros n rq|intros sk]; cbn; [now rewrite lookup_empty|discriminate].
  - rewrite run_snoc. split; [now apply step_fresh_ids|now apply step_wired].
Qed.

End RequestFacts.

(** X14.  What a socket event does to the requests, in any session
    reached from the start: the listener registered under the event's
    name calls the lane functions [lanes_asked] lists, each call sends a
    request of its own under the next free id (whether or not that lane
    already has one in flight), with the [buffer] of the effect's render,
    and no request in flight is dropped; a name nobody listens to sends
    nothing. *)
Theorem X14_socket_event_requests (h : Host) (p : Props) (trace : list Event)
    (sk : Socket) (name : string) (payload : value) :
  let s := run h p initial_session trace in
  socketRef s = Some sk -> live sk = true ->
  let s' := step h p s (SocketEmits name payload) in
  let lanes := match registered !! name with
               | Some hd => lanes_asked hd payload
               | None => []
               end in
  next_request s' = (next_request s + length lanes)%nat
  /\ size (inflight s') = (size (inflight s) + length lanes)%nat
  /\ (forall n rq, inflight s !! n = Some rq -> inflight s' !! n = Some rq)
  /\ (forall i side, lanes !! i = Some side ->
        inflight s' !! (next_request s + i)%nat
        = Some (request_for p side (effect_buffer s))).
Proof.
  intros s Hsk Hlive s' lanes.
  destruct (run_fresh_wired h p trace) as [Hf Hw]. fold s in Hf, Hw.
  destruct (heard_frame name sk s) as (_ & _ & _ & Hin & Hn & Hb & _).
  assert (Hf1 : fresh_ids (heard name sk s)) by (intros n rq; rewrite Hin, Hn; apply Hf).
  assert (Es : s' = match registered !! name with
                    | Some hd => run_handler p hd payload (heard name sk s)
                    | None => heard name sk s
                    end).
  { unfold s'. cbn [step]. rewrite Hsk, Hlive. unfold deliver. now rewrite (Hw sk Hsk). }
  rewrite Es. unfold lanes. clear Es s' lanes.
  destruct (registered !! name) as [hd|].
  - destruct (run_handler_wiring p hd payload (heard name sk s)) as (_ & _ & _ & -> & ->).
    destruct (issue_spec p (effect_buffer (heard name sk s)) (lanes_asked hd payload)
                (heard name sk s) Hf1)
      as (_ & Hn' & Hsz & Hold & Hnew & _).
    rewrite Hin, Hn, Hb in *. auto.
  - rewrite Hin, Hn. cbn [length]. rewrite !Nat.add_0_r. repeat split; auto.
    intros i side Hi. discriminate.
Qed.

(** X14, witness: while the two first requests are in flight, the server
    announces a change of the left lane. *)
Lemma X14_socket_event_requests_witness :
  let s := run plain_host default_props initial_session [Mount None] in
  let s' := step plain_host default_props s (SocketEmits "sequence:left:changed" VUndef) in
  let lanes := match registered !! "sequence:left:changed" with
               | Some hd => lanes_asked hd VUndef
               | None => []
               end in
  next_request s' = (next_request s + length lanes)%nat
  /\ size (inflight s') = (size (inflight s) + length lanes)%nat
  /\ (forall n rq, inflight s !! n = Some rq -> inflight s' !! n = Some rq)
  /\ (forall i side, lanes !! i = Some side ->
        inflight s' !! (next_request s + i)%nat
        = Some (request_for default_props side (effect_buffer s))).
Proof.
  intros s s' lanes.
  exact (X14_socket_event_requests plain_host default_props [Mount None]
           {| listeners := registered; live := true; connected := false |}
           "sequence:left:changed" VUndef
           eq_refl eq_refl).
Defined.

(** ** Responses that overlap, and the buffer *)

Section BufferFacts.
Variable h : Host.
Variable p : Props.







End BufferFacts.





(** ** The pending panel *)

Lemma Array_map_completion_ok {A B} (callback : A -> Completion B) (items : list A) :
  Forall (fun x => exists y, callback x = Normal y) items ->
  exists ys,
    Array_map_completion callback items = Normal ys
    /\ length ys = length items
    /\ (forall i x, items !! i = Some x ->
          exists y, callback x = Normal y /\ ys !! i = Some y).
Proof.
  induction 1 as [|x items [y Hx] _ (ys & E & Hlen & Hat)].
  - exists []. split; [reflexivity|]. split; [reflexivity|]. intros i x Hi. discriminate.
  - cbn [Array_map_completion]. rewrite Hx, E. cbn [mbind Completion_bind].
    eexists. split; [reflexivity|]. split; [cbn [length]; now rewrite Hlen|].
    intros [|i] x' Hi.
    + injection Hi as <-. now exists y.
    + now apply Hat.
Qed.

Lemma Array_map_completion_throws {A B} (callback : A -> Completion B) (e : value)
    (items : list A) :
  (forall x e', callback x = Throw e' -> e' = e) ->
  Exists (fun x => callback x = Throw e) items ->
  Array_map_completion callback items = Throw e.
Proof.
  intros Honly. induction 1 as [x items Hx|x items _ IH]; cbn [Array_map_completion].
  - now rewrite Hx.
  - destruct (callback x) as [y|e'] eqn:Hx; cbn [mbind Completion_bind].
    + now rewrite IH.
    + now rewrite (Honly x e' Hx).
Qed.

Section PendingFacts.
Variable toLocaleString : value -> string.

Lemma pending_line_cases (p : value) :
  pending_line toLocaleString p
  = if line_throws p then Throw TypeError
    else Normal {| line_key := JS.or (JS.prop p "id") (JS.prop p "tsRaw");
                   line_label := JS.or (JS.prop p "containerNumber")
                                   (JS.prop p "container_no");
                   line_time := if JS.truthy (JS.prop p "time")
                                then toLocaleString (JS.prop p "time")
                                else "" |}.
Proof.
  unfold pending_line, line_throws, Date_toLocaleString, element_key.
  destruct (JS.nullish p); [reflexivity|]. cbn [orb].
  destruct (JS.truthy (JS.prop p "time")) eqn:Ht.
  - destruct (JS.throws (JS.prop p "time")); [reflexivity|]. cbn [mbind Completion_bind orb].
    now destruct (JS.throws (JS.or (JS.prop p "id") (JS.prop p "tsRaw"))).
  - rewrite (falsy_converts _ Ht). cbn [mbind Completion_bind orb].
    now destruct (JS.throws (JS.or (JS.prop p "id") (JS.prop p "tsRaw"))).
Qed.

End PendingFacts.

(** X17.  What the pending panel of a lane builds after a response that
    was applied.  Nothing pending that is falsy gives an empty panel; an
    array gives one line for each of its first twenty items, in their
    order, and whatever comes after the twentieth is not read; the line
    of an item throws a TypeError exactly when the item is null or
    undefined, or its [time] or its key cannot be converted, and such an
    item among the first twenty makes the expression throw; so does a
    value that is truthy and not an array, since the response's
    [pendingContainers] is stored unchecked. *)
Theorem X17_pending_panel_after_a_response (h : Host) (toLocaleString : value -> string)
    (s : Session) (id : nat) (rq : Request) (r : value) :
  inflight s !! id = Some rq -> usable r = true -> handled h (Resolved r) ->
  let v := view (settle_completion h id (Resolved r) s) in
  let shown := pendingPanel toLocaleString (lane_pending (lane rq) v) in
  let sent := JS.prop (JS.prop r "data") "pendingContainers" in
  (JS.truthy sent = false -> shown = Normal [])
  /\ (forall items, sent = VArr items ->
        (Forall (fun p => line_throws p = false) (take 20 items) ->
         exists lines,
           shown = Normal lines
           /\ length lines = Nat.min 20 (length items)
           /\ (forall i p, (i < 20)%nat -> items !! i = Some p ->
                 exists line, pending_line toLocaleString p = Normal line
                              /\ lines !! i = Some line))
        /\ (Exists (fun p => line_throws p = true) (take 20 items) ->
            shown = Throw TypeError))
  /\ (JS.truthy sent = true -> (forall items, sent <> VArr items) ->
      shown = Throw TypeError)
  /\ (forall p,
        pending_line toLocaleString p
        = if line_throws p then Throw TypeError
          else Normal {| line_key := JS.or (JS.prop p "id") (JS.prop p "tsRaw");
                         line_label := JS.or (JS.prop p "containerNumber")
                                         (JS.prop p "container_no");
                         line_time := if JS.truthy (JS.prop p "time")
                                      then toLocaleString (JS.prop p "time")
                                      else "" |}).
Proof.
  intros Hrq Hok Hsorted v shown sent.
  assert (E : lane_pending (lane rq) v = JS.or sent (VArr [])).
  { unfold v. rewrite (settle_completion_handled h id _ s Hsorted).
    pose proof (settle_usable h id r s rq Hrq Hok) as H.
    unfold lane_pending. destruct (lane rq); exact (proj2 H). }
  unfold shown. rewrite E. clear E shown. unfold JS.or.
  split; [|split; [|split]].
  - intros Hf. now rewrite Hf.
  - intros items ->. cbn [JS.truthy pendingPanel].
    change (JS.slice 0 20 items) with (take 20 items).
    split.
    + intros Hall.
      destruct (Array_map_completion_ok (pending_line toLocaleString) (take 20 items))
        as (lines & El & Hlen & Hat).
      { eapply Forall_impl; [exact Hall|]. cbv beta. intros q Hq.
        rewrite pending_line_cases, Hq. eauto. }
      exists lines. split; [exact El|]. split; [now rewrite Hlen, length_take|].
      intros i q Hi Hq. apply Hat. now rewrite lookup_take_lt.
    + intros Hex. apply Array_map_completion_throws.
      * intros q e'. rewrite pending_line_cases.
        destruct (line_throws q); [now intros [= <-]|discriminate].
      * apply List.Exists_exists in Hex as [q [Hin Hq]].
        apply List.Exists_exists. exists q. split; [exact Hin|].
        now rewrite pending_line_cases, Hq.
  - intros Ht Hna. rewrite Ht.
    destruct sent as [| |b|n|t|fields|items]; try reflexivity.
    now destruct (Hna items).
  - apply pending_line_cases.
Qed.

(** X17, witness: twenty-one containers are pending on the left lane. *)
Lemma X17_pending_panel_after_a_response_witness :
  let r := obj [("data", obj [("ok", VBool true);
                             ("pendingContainers", VArr (replicate 21 row_text_id))])] in
  let v := view (settle_completion plain_host 0 (Resolved r)
                   (step plain_host default_props initial_session (Mount None))) in
  let shown := pendingPanel (fun _ => "") (lane_pending Left v) in
  let sent := JS.prop (JS.prop r "data") "pendingContainers" in
  (JS.truthy sent = false -> shown = Normal [])
  /\ (forall items, sent = VArr items ->
        (Forall (fun p => line_throws p = false) (take 20 items) ->
         exists lines,
           shown = Normal lines
           /\ length lines = Nat.min 20 (length items)
           /\ (forall i p, (i < 20)%nat -> items !! i = Some p ->
                 exists line, pending_line (fun _ => "") p = Normal line
                              /\ lines !! i = Some line))
        /\ (Exists (fun p => line_throws p = true) (take 20 items) ->
            shown = Throw TypeError))
  /\ (JS.truthy sent = true -> (forall items, sent <> VArr items) ->
      shown = Throw TypeError)
  /\ (forall p,
        pending_line (fun _ => "") p
        = if line_throws p then Throw TypeError
          else Normal {| line_key := JS.or (JS.prop p "id") (JS.prop p "tsRaw");
                         line_label := JS.or (JS.prop p "containerNumber")
                                         (JS.prop p "container_no");
                         line_time := if JS.truthy (JS.prop p "time")
                                      then (fun _ => "") (JS.prop p "time")
                                      else "" |}).
Proof.
  intros r v shown sent.
  refine (X17_pending_panel_after_a_response plain_host (fun _ => "")
            (step plain_host default_props initial_session (Mount None)) 0%nat
            (request_for default_props Left VNull) r eq_refl eq_refl _).
  intros _. exists []. reflexivity.
Defined.

(** ** The Flush button *)

(** X18.  One click on Flush both stops at the first failure: the right
    lane is flushed only when flushing the left lane succeeded, the
    refresh runs only when both did, and otherwise the console is given
    one report, the reason of the first request that failed. *)
Theorem X18_flush_stops_at_the_first_failure (post : string -> Outcome) :
  let click := flushBoth post in
  (In "/api/flush/right" (posted click) <-> exists r, post "/api/flush" = Resolved r)
  /\ (refreshed click = true
      <-> (exists r, post "/api/flush" = Resolved r)
          /\ (exists r, post "/api/flush/right" = Resolved r))
  /\ (refreshed click = true -> reported click = [])
  /\ (refreshed click = false ->
      exists e, reported click = [e]
                /\ (post "/api/flush" = Rejected e
                    \/ (post "/api/flush" <> Rejected e
                        /\ post "/api/flush/right" = Rejected e))).
Proof.
  intros click. unfold click, flushBoth, await.
  destruct (post "/api/flush") as [r1|e1] eqn:E1;
    [destruct (post "/api/flush/right") as [r2|e2] eqn:E2|]; cbn [posted refreshed reported].
  - split; [split; [now exists r1|intros _; right; now left]|].
    split; [split; [intros _; split; eauto|reflexivity]|].
    split; [reflexivity|discriminate].
  - split; [split; [now exists r1|intros _; right; now left]|].
    split; [split; [discriminate|intros [_ [r Hr]]; discriminate]|].
    split; [discriminate|]. intros _. exists e2. split; [reflexivity|]. right.
    split; [discriminate|reflexivity].
  - split; [split; [intros [H|[]]; discriminate|intros [r Hr]; discriminate]|].
    split; [split; [discriminate|intros [[r Hr] _]; discriminate]|].
    split; [discriminate|]. intros _. exists e1. split; [reflexivity|]. now left.
Qed.

(** ** The row table *)

Lemma or_number_throws (x : value) (n : num) :
  JS.throws (JS.or x (VNum n)) = JS.throws x.
Proof.
  unfold JS.or. destruct (JS.truthy x) eqn:Hx; [reflexivity|].
  now rewrite (falsy_converts x Hx).
Qed.

Section RowTableFacts.
Variable toLocaleString : value -> string.

Lemma table_row_cases (r : value) (idx : nat) :
  (row_throws r = true -> table_row toLocaleString r idx = Throw TypeError)
  /\ (row_throws r = false ->
      exists tr,
        table_row toLocaleString r idx = Normal tr
        /\ row_key tr = JS.or (JS.prop r "id") (VNum (Fin (Z.of_nat idx)))
        /\ row_cells tr !! 3%nat
           = Some (VStr (if JS.truthy (JS.prop r "finalizedAt") then "✅" else "⏳"))).
Proof.
  unfold table_row, row_throws, Date_toLocaleString, element_key.
  rewrite or_number_throws.
  destruct (JS.nullish r); [split; [reflexivity|discriminate]|]. cbn [orb].
  destruct (JS.truthy (JS.prop r "wagonRaw")).
  - destruct (JS.throws (JS.prop (JS.prop r "wagonRaw") "time"));
      [split; [reflexivity|discriminate]|].
    cbn [mbind Completion_bind orb].
    destruct (JS.throws (JS.prop r "id")); [split; [reflexivity|discriminate]|].
    split; [discriminate|]. intros _. eexists. split; [reflexivity|]. now split.
  - destruct (JS.truthy (JS.prop r "time")) eqn:Ht.
    + destruct (JS.throws (JS.prop r "time")); [split; [reflexivity|discriminate]|].
      cbn [mbind Completion_bind orb].
      destruct (JS.throws (JS.prop r "id")); [split; [reflexivity|discriminate]|].
      split; [discriminate|]. intros _. eexists. split; [reflexivity|]. now split.
    + rewrite (falsy_converts _ Ht). cbn [mbind Completion_bind orb].
      destruct (JS.throws (JS.prop r "id")); [split; [reflexivity|discriminate]|].
      split; [discriminate|]. intros _. eexists. split; [reflexivity|]. now split.
Qed.

Lemma table_rows_ok (rows : list value) (idx : nat) :
  Forall (fun r => row_throws r = false) rows ->
  exists trs,
    table_rows toLocaleString rows idx = Normal trs
    /\ length trs = length rows
    /\ (forall i r, rows !! i = Some r ->
          exists tr, table_row toLocaleString r (idx + i) = Normal tr
                     /\ trs !! i = Some tr).
Proof.
  intros Hrows. revert idx.
  induction Hrows as [|r rows Hr _ IH]; intros idx.
  - exists []. split; [reflexivity|]. split; [reflexivity|]. intros i r Hi. discriminate.
  - destruct (IH (S idx)) as (trs & E & Hlen & Hat).
    destruct (proj2 (table_row_cases r idx) Hr) as (tr & Etr & _).
    cbn [table_rows]. rewrite Etr, E. cbn [mbind Completion_bind].
    eexists. split; [reflexivity|]. split; [cbn [length]; now rewrite Hlen|].
    intros [|i] q Hi.
    + injection Hi as <-. rewrite Nat.add_0_r. now exists tr.
    + replace (idx + S i)%nat with (S idx + i)%nat by lia. now apply Hat.
Qed.

Lemma table_rows_throws (rows : list value) (idx : nat) :
  Exists (fun r => row_throws r = true) rows ->
  table_rows toLocaleString rows idx = Throw TypeError.
Proof.
  intros Hex. revert idx.
  induction Hex as [r rows Hr|r rows _ IH]; intros idx; cbn [table_rows].
  - now rewrite (proj1 (table_row_cases r idx) Hr).
  - destruct (row_throws r) eqn:Hr.
    + now rewrite (proj1 (table_row_cases r idx) Hr).
    + destruct (proj2 (table_row_cases r idx) Hr) as (tr & -> & _).
      cbn [mbind Completion_bind]. now rewrite IH.
Qed.

End RowTableFacts.

Lemma filterFn_true (h : Host) (q : string) (t : bool) (row : value) :
  filterFn h q t row = true ->
  JS.nullish row = false
  /\ (t = true -> JS.truthy (JS.prop row "finalizedAt") = false).
Proof.
  rewrite filterFn_passes. intros H. apply andb_prop in H as [Hrow H].
  pose proof (truthy_not_nullish row Hrow) as Hn. split; [exact Hn|].
  intros ->. unfold passes in H. apply andb_prop in H as [_ H].
  unfold finalized, JS.oprop in H. rewrite Hn in H.
  now destruct (JS.truthy (JS.prop row "finalizedAt")).
Qed.

(** What a filter that returns, returns. *)
Lemma Array_filter_completion_sound (callback : value -> Completion bool)
    (keep : value -> bool) (items kept : list value) :
  (forall x k, callback x = Normal k -> k = keep x) ->
  Array_filter_completion callback items = Normal kept ->
  kept = List.filter keep items.
Proof.
  intros Hsound. revert kept.
  induction items as [|x items IH]; intros kept; cbn [Array_filter_completion List.filter].
  - now intros [= <-].
  - destruct (callback x) as [k|e] eqn:Hx; cbn [mbind Completion_bind]; [|discriminate].
    apply Hsound in Hx. subst k.
    destruct (Array_filter_completion callback items) as [rest|e];
      cbn [mbind Completion_bind]; [|discriminate].
    intros [= <-]. rewrite (IH rest eq_refl). now destruct (keep x).
Qed.

(** X19.  The table of a lane is built from the page of its filtered
    rows, once the filter has returned them; none of them is null.
    Building the table throws a TypeError when a row of the page shows a
    time, or has an id, that cannot be converted; otherwise it returns
    one body row per row of the page, in the page's order, and the
    [No rows] line exactly when the page is empty.  With the
    tentative-only switch on, every body row carries the hourglass in its
    Final cell. *)
Theorem X19_row_table_of_a_page (h : Host) (toLocaleString : value -> string)
    (v : View) (side : Side) (filtered : list value) :
  Array_filter_completion (filterFn_completion h (query v) (showTentativeOnly v))
    (match side with Left => leftRows v | Right => rightRows v end)
  = Normal filtered ->
  let rows := match side with Left => pagedLeft h v | Right => pagedRight h v end in
  let page := match side with Left => pageLeft v | Right => pageRight v end in
  rows = JS.slice (page * pageSize v) ((page + 1) * pageSize v) filtered
  /\ Forall (fun r => JS.nullish r = false) rows
  /\ (Exists (fun r => row_throws r = true) rows ->
      RowTable toLocaleString rows = Throw TypeError)
  /\ (Forall (fun r => row_throws r = false) rows ->
      exists t,
        RowTable toLocaleString rows = Normal t
        /\ length (body t) = length rows
        /\ (no_rows t = true <-> rows = [])
        /\ (forall i r, rows !! i = Some r ->
              exists tr, table_row toLocaleString r i = Normal tr /\ body t !! i = Some tr)
        /\ (showTentativeOnly v = true ->
            forall i tr, body t !! i = Some tr -> row_cells tr !! 3%nat = Some (VStr "⏳"))).
Proof.
  intros Hfiltered rows page.
  apply (Array_filter_completion_sound _ (filterFn h (query v) (showTentativeOnly v)))
    in Hfiltered.
  2:{ intros x k. rewrite filterFn_completion_cases.
      destruct (search_text_throws x); [discriminate|]. now intros [= <-]. }
  assert (Hpass : Forall (fun r => filterFn h (query v) (showTentativeOnly v) r = true) rows).
  { unfold rows. destruct side.
    - apply (sublist_Forall_keep _ _ (filteredLeft h v)); [apply slice_sublist|].
      apply List.Forall_forall. intros r Hr. now apply List.filter_In in Hr as [_ Hr].
    - apply (sublist_Forall_keep _ _ (filteredRight h v)); [apply slice_sublist|].
      apply List.Forall_forall. intros r Hr. now apply List.filter_In in Hr as [_ Hr]. }
  split; [subst filtered; unfold rows, page; now destruct side|].
  split; [|split].
  - eapply List.Forall_impl; [|exact Hpass]. intros r Hr.
    now destruct (filterFn_true h _ _ r Hr).
  - intros Hex. unfold RowTable. now rewrite (table_rows_throws toLocaleString rows 0 Hex).
  - intros Hrows.
    destruct (table_rows_ok toLocaleString rows 0 Hrows) as (trs & E & Hlen & Hat).
    exists {| body := trs; no_rows := (length rows =? 0)%nat |}.
    unfold RowTable. rewrite E. cbn [mbind Completion_bind body no_rows].
    split; [reflexivity|]. split; [exact Hlen|]. split; [|split].
    + rewrite Nat.eqb_eq. destruct rows; [easy|]. split; discriminate.
    + intros i r Hi. destruct (Hat i r Hi) as (tr & Htr & Hi'). now exists tr.
    + intros Hon i tr Hi.
      destruct (lookup_lt_is_Some_2 rows i) as [r Hr].
      { rewrite <- Hlen. now apply lookup_lt_is_Some_1; exists tr. }
      destruct (Hat i r Hr) as (tr' & Htr & Hi').
      assert (tr' = tr) by congruence. subst tr'.
      pose proof (Forall_lookup_1 _ _ _ _ Hpass Hr) as Hr'. cbv beta in Hr'.
      destruct (filterFn_true h _ _ r Hr') as [Hn Hfin].
      pose proof (Forall_lookup_1 _ _ _ _ Hrows Hr) as Hc. cbv beta in Hc.
      destruct (proj2 (table_row_cases toLocaleString r (0 + i)) Hc) as (tr2 & Etr & _ & Hcell).
      assert (tr2 = tr) by congruence. subst tr2.
      now rewrite Hcell, (Hfin Hon).
Qed.

(** X19, witness: the left lane shows the two rows of the scenario. *)
Lemma X19_row_table_of_a_page_witness :
  let v := set_leftRows [row_2000; row_1000] initial_view in
  let rows := pagedLeft plain_host v in
  let page := pageLeft v in
  rows = JS.slice (page * pageSize v) ((page + 1) * pageSize v) [row_2000; row_1000]
  /\ Forall (fun r => JS.nullish r = false) rows
  /\ (Exists (fun r => row_throws r = true) rows ->
      RowTable (fun _ => "") rows = Throw TypeError)
  /\ (Forall (fun r => row_throws r = false) rows ->
      exists t,
        RowTable (fun _ => "") rows = Normal t
        /\ length (body t) = length rows
        /\ (no_rows t = true <-> rows = [])
        /\ (forall i r, rows !! i = Some r ->
              exists tr, table_row (fun _ => "") r i = Normal tr /\ body t !! i = Some tr)
        /\ (showTentativeOnly v = true ->
            forall i tr, body t !! i = Some tr -> row_cells tr !! 3%nat = Some (VStr "⏳"))).
Proof.
  intros v.
  exact (X19_row_table_of_a_page plain_host (fun _ => "") v Left [row_2000; row_1000]
           eq_refl).
Defined.

(** ** Rows in the state *)

Section RowsFacts.
Variable h : Host.
Variable p : Props.

Lemma resume_rows (side : Side) (b : value) (o : Outcome) (v v' : View)
    (out out' : list LogEntry) :
  match side with Left => fetchLeft h | Right => fetchRight h end b o v out
  = Normal (v', out') ->
  (leftRows v' = leftRows v \/ exists rows, leftRows v' = sortRowsDesc h rows)
  /\ (rightRows v' = rightRows v \/ exists rows, rightRows v' = sortRowsDesc h rows).
Proof.
  destruct side; [rewrite fetchLeft_cases|rewrite fetchRight_cases];
    destruct o as [r|err]; try destruct (usable r);
    intros [= <- _]; split; try (left; reflexivity); right; eexists; reflexivity.
Qed.

Lemma effect_rows (io : option value) (s : Session) :
  leftRows (view (effect p io s)) = leftRows (view s)
  /\ rightRows (view (effect p io s)) = rightRows (view s).
Proof.
  destruct s as [v out m pr sk ts nt fl nr js eb ds].
  destruct io as [err|]; [destruct pr|]; split; reflexivity.
Qed.

Lemma run_handler_rows (hd : Handler) (payload : value) (s : Session) :
  leftRows (view (run_handler p hd payload s)) = leftRows (view s)
  /\ rightRows (view (run_handler p hd payload s)) = rightRows (view s).
Proof.
  destruct hd; try rewrite update_dispatch;
    try destruct (recognized_side payload) as [[]|];
    destruct s as [v out m [id|] sk ts nt fl nr js eb ds]; split; reflexivity.
Qed.

(** A step leaves the rows of a lane alone or replaces them by what
    [sortRowsDesc] returned. *)
Lemma step_rows (s : Session) (e : Event) :
  (leftRows (view (step h p s e)) = leftRows (view s)
   \/ exists rows, leftRows (view (step h p s e)) = sortRowsDesc h rows)
  /\ (rightRows (view (step h p s e)) = rightRows (view s)
      \/ exists rows, rightRows (view (step h p s e)) = sortRowsDesc h rows).
Proof.
  destruct e as [io| |name payload|t|rq o|text|checked|n| |side|[]|[]|row|];
    cbn [step]; try (split; left; reflexivity).
  - destruct (effect_rows io s) as [-> ->]. split; now left.
  - destruct (cleanup_cases p s) as (s1 & (_ & _ & _ & Hv & _) & Hc).
    destruct Hc as [->|(sk & hd & _ & _ & _ & _ & ->)]; [rewrite Hv; split; now left|].
    destruct (run_handler_rows hd (VStr "io client disconnect") s1) as [-> ->].
    rewrite Hv. split; now left.
  - destruct (socketRef s) as [sk|]; [|split; now left].
    destruct (live sk); [|split; now left].
    destruct (heard_frame name sk s) as (_ & _ & Hv & _).
    destruct (deliver_cases p name payload sk s) as [->|(hd & _ & ->)];
      [rewrite Hv; split; now left|].
    destruct (run_handler_rows hd payload (heard name sk s)) as [-> ->].
    rewrite Hv. split; now left.
  - destruct (timers s !! t); split; left; reflexivity.
  - destruct (inflight s !! rq) as [r|] eqn:Hrq.
    + destruct (settle_view h rq o s r Hrq) as (v' & out' & Hrun & -> & -> & _).
      exact (resume_rows _ _ _ _ _ _ _ Hrun).
    + destruct (settle_cases h rq o s) as [[_ ->]|(r & _ & _ & E & _)];
        [split; now left|congruence].
  - destruct (export_wiring h side s) as (_ & _ & _ & _ & _ & ->). split; now left.
  - destruct (pageLeft (view s) =? 0)%nat; split; left; reflexivity.
  - destruct (pageRight (view s) =? 0)%nat; split; left; reflexivity.
  - destruct (_ <=? _)%nat; split; left; reflexivity.
  - destruct (_ <=? _)%nat; split; left; reflexivity.
Qed.

End RowsFacts.

(** X20.  Whatever has happened since the start, the rows the state
    holds for a lane are as [sortRowsDesc] leaves them: sorting them
    again changes nothing, for either lane. *)
Theorem X20_lanes_hold_sorted_rows (h : Host) (p : Props) (trace : list Event) :
  let v := view (run h p initial_session trace) in
  sortRowsDesc h (VArr (leftRows v)) = leftRows v
  /\ sortRowsDesc h (VArr (rightRows v)) = rightRows v.
Proof.
  induction trace as [|e trace [IHl IHr]] using rev_ind; [split; reflexivity|].
  cbv zeta. rewrite run_snoc.
  destruct (step_rows h p (run h p initial_session trace) e) as [[->|[rows ->]] [->|[rows' ->]]];
    split; try assumption; apply sortRowsDesc_idempotent.
Qed.

(** ** Listeners that run after the cleanup *)

Section LateListenerFacts.
Variable h : Host.
Variable p : Props.

Lemma late_listener (hd : Handler) (payload : value) (s : Session) :
  hd = OnDisconnect \/ hd = OnConnectError -> pollRef s = None ->
  pollRef (run_handler p hd payload s) = Some (next_timer s)
  /\ timers (run_handler p hd payload s) = <[next_timer s := pollInterval p]> (timers s)
  /\ mounted (run_handler p hd payload s) = mounted s
  /\ (hd = OnDisconnect -> status (view (run_handler p hd payload s)) = SocketDisconnected).
Proof.
  intros Hhd Hp. destruct s as [v out m pr sk ts nt fl nr js eb ds].
  cbn [pollRef] in Hp. subst pr. destruct Hhd as [-> | ->]; repeat split; discriminate.
Qed.

Lemma run_keeps_timer (s : Session) (later : list Event) (id : positive) (ms : Z) :
  one_timer s -> ~ In Unmount later ->
  timers s !! id = Some ms -> timers (run h p s later) !! id = Some ms.
Proof.
  revert s. induction later as [|e later IH]; intros s Hone Hno Hid; [exact Hid|].
  rewrite run_cons. apply IH.
  - now apply step_one_timer.
  - intros Hin. apply Hno. now right.
  - apply step_keeps_timer; [exact Hone| |exact Hid].
    intros ->. apply Hno. now left.
Qed.

(** A listener that starts polling on a session without a timer. *)
Lemma late_listener_timer (hd : Handler) (payload : value) (s : Session) :
  hd = OnDisconnect \/ hd = OnConnectError -> pollRef s = None -> timers s = ∅ ->
  let s' := run_handler p hd payload s in
  pollRef s' = Some (next_timer s)
  /\ timers s' !! next_timer s = Some (pollInterval p)
  /\ (forall later, ~ In Unmount later ->
        timers (run h p s' later) !! next_timer s = Some (pollInterval p)).
Proof.
  intros Hhd Hp Ht s'.
  destruct (late_listener hd payload s Hhd Hp) as (Hp' & Ht' & _).
  assert (Hid : timers s' !! next_timer s = Some (pollInterval p))
    by (unfold s'; rewrite Ht'; apply lookup_insert_eq).
  split; [exact Hp'|]. split; [exact Hid|].
  intros later Hno. apply run_keeps_timer; [|exact Hno|exact Hid].
  intros id ms. unfold s'. rewrite Ht', Hp', Ht. intros Hl.
  destruct (decide (next_timer s = id)) as [->|Hne]; [reflexivity|].
  rewrite lookup_insert_ne, lookup_empty in Hl by exact Hne. discriminate.
Qed.

End LateListenerFacts.

(** X21.  The [disconnect] and [connect_error] listeners do not look at
    [mounted].  In a session in which polling was never started: when the
    socket is connected as the cleanup runs, [disconnect()] calls the
    [disconnect] listener, which starts the polling timer on the
    component that has just been unmounted and sets the status to
    [socket:disconnected]; when it is not, the cleanup leaves no timer,
    and either listener, were the socket to call it afterwards, would
    start one.  In both cases the timer then runs until a cleanup runs
    again. *)
Theorem X21_late_listener_starts_polling (h : Host) (p : Props) (trace : list Event) :
  pollRef (run h p initial_session trace) = None ->
  let s0 := run h p initial_session trace in
  let s := step h p s0 Unmount in
  (forall sk,
      socketRef s0 = Some sk -> live sk = true -> connected sk = true ->
      last (mounted s) <> Some true
      /\ pollRef s = Some (next_timer s0)
      /\ timers s !! next_timer s0 = Some (pollInterval p)
      /\ status (view s) = SocketDisconnected
      /\ (forall later, ~ In Unmount later ->
            timers (run h p s later) !! next_timer s0 = Some (pollInterval p)))
  /\ ((forall sk, socketRef s0 = Some sk -> live sk && connected sk = false) ->
      timers s = ∅
      /\ (forall hd payload,
            hd = OnDisconnect \/ hd = OnConnectError ->
            let s' := run_handler p hd payload s in
            last (mounted s') <> Some true
            /\ pollRef s' = Some (next_timer s)
            /\ timers s' !! next_timer s = Some (pollInterval p)
            /\ (forall later, ~ In Unmount later ->
                  timers (run h p s' later) !! next_timer s = Some (pollInterval p)))).
Proof.
  intros Hp s0 s.
  pose proof (run_one_timer h p trace) as Hone.
  destruct (run_fresh_wired h p trace) as [_ Hw].
  destruct (cleanup_cases p s0) as (s1 & (Ht1 & Hp1 & Hn1 & Hv1 & Hm1 & _) & Hc).
  assert (Ht0 : timers s0 = ∅).
  { apply map_empty. intros i. apply one_timer_other; [exact Hone|].
    unfold s0. rewrite Hp. discriminate. }
  assert (Ht1' : timers s1 = ∅).
  { rewrite Ht1, (proj1 (cleanup_local_frame s0)). fold s0 in Hp. now rewrite Hp. }
  assert (Hp1' : pollRef s1 = None) by (rewrite Hp1; exact Hp).
  assert (Hlast : last (mounted s1) <> Some true) by (rewrite Hm1; apply last_cleared).
  split.
  - intros sk Hsk Hlive Hcon.
    assert (E : s = run_handler p OnDisconnect (VStr "io client disconnect") s1).
    { destruct Hc as [Hc|(sk' & hd & Hsk' & _ & _ & Hd & Hc)].
      - exfalso. revert Hc. unfold cleanup, disconnect. cbv zeta.
        destruct (cleanup_cases p s0) as (s2 & _ & _). clear s2.
        assert (Hs : socketRef (cleanup_local s0) = Some sk).
        { unfold cleanup_local. cbv zeta. now destruct (pollRef _). }
        rewrite Hs, Hlive, Hcon. cbn [andb].
        rewrite (Hw sk Hsk). change (registered !! "disconnect") with (Some OnDisconnect).
        intros Hc.
        destruct (late_listener p OnDisconnect (VStr "io client disconnect")
                    (set_socketRef (Some (disconnected sk)) (cleanup_local s0)))
          as (Hq & _); [now left| |].
        + cbn [pollRef set_socketRef]. now rewrite (proj2 (cleanup_local_frame s0)).
        + rewrite Hc, Hp1' in Hq. discriminate.
      - assert (sk' = sk) by congruence. subst sk'.
        rewrite (Hw sk Hsk) in Hd. change (registered !! "disconnect") with (Some OnDisconnect) in Hd.
        injection Hd as <-. exact Hc. }
    destruct (late_listener p OnDisconnect (VStr "io client disconnect") s1
                (or_introl eq_refl) Hp1') as (_ & _ & Hm' & Hst).
    destruct (late_listener_timer h p OnDisconnect (VStr "io client disconnect") s1
                (or_introl eq_refl) Hp1' Ht1') as (Hq & Hid & Hlater).
    rewrite E, <- Hn1.
    split; [now rewrite Hm'|]. split; [exact Hq|]. split; [exact Hid|].
    split; [now apply Hst|exact Hlater].
  - intros Hdead.
    assert (E : s = s1).
    { destruct Hc as [Hc|(sk' & hd & Hsk' & Hl & Hcn & _)]; [exact Hc|].
      specialize (Hdead sk' Hsk'). rewrite Hl, Hcn in Hdead. discriminate. }
    rewrite E. split; [exact Ht1'|].
    intros hd payload Hhd s'.
    destruct (late_listener p hd payload s1 Hhd Hp1') as (_ & _ & Hm' & _).
    destruct (late_listener_timer h p hd payload s1 Hhd Hp1' Ht1') as (Hq & Hid & Hlater).
    split; [unfold s'; now rewrite Hm'|]. split; [exact Hq|]. split; [exact Hid|exact Hlater].
Qed.

(** X21, witness: the socket was set up and had connected when the page
    is left. *)
Lemma X21_late_listener_starts_polling_witness :
  let s0 := run plain_host default_props initial_session
              [Mount None; SocketEmits "connect" VUndef] in
  let s := step plain_host default_props s0 Unmount in
  (forall sk,
      socketRef s0 = Some sk -> live sk = true -> connected sk = true ->
      last (mounted s) <> Some true
      /\ pollRef s = Some (next_timer s0)
      /\ timers s !! next_timer s0 = Some (pollInterval default_props)
      /\ status (view s) = SocketDisconnected
      /\ (forall later, ~ In Unmount later ->
            timers (run plain_host default_props s later) !! next_timer s0
            = Some (pollInterval default_props)))
  /\ ((forall sk, socketRef s0 = Some sk -> live sk && connected sk = false) ->
      timers s = ∅
      /\ (forall hd payload,
            hd = OnDisconnect \/ hd = OnConnectError ->
            let s' := run_handler default_props hd payload s in
            last (mounted s') <> Some true
            /\ pollRef s' = Some (next_timer s)
            /\ timers s' !! next_timer s = Some (pollInterval default_props)
            /\ (forall later, ~ In Unmount later ->
                  timers (run plain_host default_props s' later) !! next_timer s
                  = Some (pollInterval default_props)))).
Proof.
  intros s0 s.
  exact (X21_late_listener_starts_polling plain_host default_props
           [Mount None; SocketEmits "connect" VUndef] eq_refl).
Defined.
